(** * slvrlane-creative-lib: helpers.js and dots.js

    A shallow embedding of [src/helpers.js] ([initiateSeed], [myColors],
    [addGrain], [addGrain2], [printFooter]) and of [src/dots.js]
    (version 2.2.0), with the properties of the grain modes and of the
    drawing functions.

    - JavaScript numbers are IEEE 754 binary64 values: Rocq's primitive
      [float], whose operations the kernel evaluates as the hardware does.
    - [addGrain] reads [context.getImageData(...).data].  Its JSDoc types
      [context] as a [CanvasRenderingContext2D], so that array is a
      [Uint8ClampedArray]: its elements are the integers 0..255, a read
      yields a number, and a write goes through the conversion
      ToUint8Clamp (round to nearest, ties to even, clamp to 0..255).  A
      write past the end of a typed array is ignored.
    - [canvas-sketch-util/random], the canvas and [Math.random] are not
      part of the repository: they are parameters of the development.
    - The functions that draw run on a model of the 2D context that
      keeps what they can observe or change: the drawing state, the
      stack of [save], the current path and the list of what was
      painted.  A call returns or throws; a loop whose bound is a number
      runs on fuel, since the bound may be [Infinity].
    - [canvas-sketch-util/color], [riso-colors], [Math.cos], [Math.sin]
      and the parsing of CSS colours and fonts are parameters as well. *)

From Stdlib Require Import ZArith Floats Lia.
From stdpp Require Import base list strings pretty.
From Equations Require Import Equations.

Local Open Scope Z_scope.

(** ** The JavaScript platform *)

Module Js.

(** The number an element of a [Uint8ClampedArray] reads as. *)
Definition ofByte (b : Z) : float := PrimFloat.of_uint63 (Uint63.of_Z b).

(** Integers as numbers, for the magnitudes used here (below 2^63). *)
Definition ofZ (n : Z) : float :=
  match n with
  | Zneg p => PrimFloat.opp (PrimFloat.of_uint63 (Uint63.of_Z (Zpos p)))
  | _ => PrimFloat.of_uint63 (Uint63.of_Z n)
  end.

(** The greatest integer below a finite number ([m * 2^e], signed);
    [Z.shiftl] by a negative amount is the flooring right shift. *)
Definition floorZ (x : float) : Z :=
  match Prim2SF x with
  | S754_finite s m e => Z.shiftl (if s then Zneg m else Zpos m) e
  | _ => 0
  end.

(** ECMAScript ToUint8Clamp, the conversion of a store into a
    [Uint8ClampedArray]: NaN gives 0, the number is clamped to
    [0, 255], and a fraction is rounded to nearest, ties to even. *)
Definition toUint8Clamp (x : float) : Z :=
  if PrimFloat.is_nan x then 0
  else if (x <=? 0)%float then 0
  else if (255 <=? x)%float then 255
  else
    let f := floorZ x in
    if (x <? ofByte f + 0.5)%float then f
    else if (ofByte f + 0.5 <? x)%float then f + 1
    else if Z.even f then f else f + 1.

(** A [Uint8ClampedArray] is the list of its elements, each of them a
    byte. *)
Definition isByte (b : Z) : Prop := 0 <= b <= 255.

Definition wellFormed (a : list Z) : Prop := Forall isByte a.

(** [a[i]] as an operand of [+] or [-]: an index past the end reads
    [undefined], which arithmetic coerces to NaN. *)
Definition get (a : list Z) (i : nat) : float :=
  match a !! i with
  | Some b => ofByte b
  | None => PrimFloat.nan
  end.

(** [a[i] = x]: the converted value is stored; past the end nothing
    happens (stdpp's list insert does nothing there either). *)
Definition set (a : list Z) (i : nat) (x : float) : list Z :=
  <[i := toUint8Clamp x]> a.

(** The values the seed argument of [initiateSeed] ranges over
    ([number | string] by its JSDoc, and the primitives a caller can
    pass instead). *)
Inductive value : Type :=
| Undefined
| Null
| Boolean (b : bool)
| Number (x : float)
| String (s : string).

(** ECMAScript ToBoolean. *)
Definition toBoolean (v : value) : bool :=
  match v with
  | Undefined | Null => false
  | Boolean b => b
  | Number x => negb (PrimFloat.is_nan x || PrimFloat.is_zero x)
  | String s => negb (String.eqb s "")
  end.

(** [v === 0]: only a number equal to zero (of either sign). *)
Definition strictEqZero (v : value) : bool :=
  match v with
  | Number x => (x =? 0)%float
  | _ => false
  end.

(** Whether a finite number has no fractional part. *)
Definition isIntegral (x : float) : bool :=
  match Prim2SF x with
  | S754_zero _ => true
  | S754_finite _ m e => (0 <=? e) || (Z.land (Zpos m) (Z.ones (- e)) =? 0)
  | _ => false
  end.

(** [Math.floor]. *)
Definition mathFloor (x : float) : float :=
  match Prim2SF x with
  | S754_finite _ _ _ => if isIntegral x then x else ofZ (floorZ x)
  | _ => x
  end.

Section NumberToString.

(** Number::toString prints the shortest digits that read back as the
    same number.  For a number with a fractional part, and for one of
    magnitude 2^53 and above (where not every integer is a number, so
    the digits printed are not those of the integer: 2^57 prints as
    144115188075855870), they are left to the platform. *)
Variable fractionToString : float -> string.

(** Number::toString: zero of either sign prints as "0", an integer of
    magnitude below 2^53 as its decimal digits. *)
Definition numberToString (x : float) : string :=
  match Prim2SF x with
  | S754_nan => "NaN"
  | S754_infinity s => if s then "-Infinity" else "Infinity"
  | S754_zero _ => "0"
  | S754_finite _ _ _ =>
      if isIntegral x && (Z.abs (floorZ x) <? 2 ^ 53)
      then pretty (floorZ x)
      else fractionToString x
  end.

(** The function [String] applied to a primitive value. *)
Definition toString (v : value) : string :=
  match v with
  | Undefined => "undefined"
  | Null => "null"
  | Boolean b => if b then "true" else "false"
  | Number x => numberToString x
  | String s => s
  end.

End NumberToString.

End Js.

(** ** The loop [for (let i = 0; i < length; i += 4) body] *)

Equations for4 {S : Type} (len : nat) (body : nat -> S -> S) (i : nat) (s : S)
  : S by wf (len - i)%nat lt :=
  for4 len body i s with decide (i < len)%nat := {
    | left _ => for4 len body (i + 4)%nat (body i s)
    | right _ => s }.
Next Obligation. lia. Qed.

(** ** helpers.js *)

(** [ImageData]: the object [getImageData] returns. *)
Record ImageData : Type := mkImageData {
  width : float;
  height : float;
  data : list Z
}.

(** What a call of [addGrain] leaves behind: the canvas, the array
    [grainPixels] and the state of the random generators. *)
Record Outcome (Context World : Type) : Type := mkOutcome {
  context : Context;
  grainPixels : list Z;
  world : World
}.
Arguments mkOutcome {Context World} _ _ _.
Arguments context {Context World} _.
Arguments grainPixels {Context World} _.
Arguments world {Context World} _.

Section Helpers.

(** The canvas: [CanvasRenderingContext2D] with its two bitmap calls. *)
Variable Context : Type.
Variable getImageData : Context -> float -> float -> float -> float -> ImageData.
Variable putImageData : Context -> ImageData -> float -> float -> Context.

(** [random.range(min, max)] of canvas-sketch-util: one draw, and the
    generator's next state. *)
Variable Generator : Type.
Variable range : float -> float -> Generator -> float * Generator.

(** [Math.random()], a generator of its own. *)
Variable MathState : Type.
Variable mathRandom : MathState -> float * MathState.

(** Number::toString on the numbers [Js.numberToString] leaves out. *)
Variable fractionToString : float -> string.

(** The state shared by all calls: the seeded generator of
    canvas-sketch-util and the one behind [Math.random]. *)
Record World : Type := mkWorld {
  random : Generator;
  math : MathState
}.

(** The generator after [n] draws with the bounds [lo], [hi], and the
    draw it gives next: the stream of numbers a loop consumes. *)
Definition after (lo hi : float) (n : nat) (g : Generator) : Generator :=
  Nat.iter n (fun g' => snd (range lo hi g')) g.

Definition draw (lo hi : float) (n : nat) (g : Generator) : float :=
  fst (range lo hi (after lo hi n g)).

(** *** initiateSeed *)

(** [initiateSeed(seed = 0)]: the default applies when the argument is
    [undefined]. *)
Definition initiateSeed (seedArg : Js.value) (w : World) : string * World :=
  let seed := match seedArg with Js.Undefined => Js.Number 0 | v => v end in
  let '(seedToUse, w') :=
    if Js.strictEqZero seed || negb (Js.toBoolean seed) then
      let '(u, m) := mathRandom (math w) in
      (Js.String (Js.toString fractionToString
                    (Js.Number (Js.mathFloor (u * 1000000)%float))),
       mkWorld (random w) m)
    else (seed, w) in
  (Js.toString fractionToString seedToUse, w').

(** *** addGrain: the four loops *)

Definition colorGrainBody (i : nat) (st : list Z * Generator) : list Z * Generator :=
  let '(px, g) := st in
  let rMin := (-25)%float in
  let rMax := 25%float in
  let '(d, g) := range rMin rMax g in
  let px := Js.set px (i + 0) (Js.get px (i + 0) + d)%float in
  let '(d, g) := range rMin rMax g in
  let px := Js.set px (i + 1) (Js.get px (i + 1) + d)%float in
  let '(d, g) := range rMin rMax g in
  let px := Js.set px (i + 2) (Js.get px (i + 2) + d)%float in
  let px := Js.set px (i + 3) 255%float in
  (px, g).

Definition parallelGrainBody (i : nat) (st : list Z * Generator) : list Z * Generator :=
  let '(px, g) := st in
  let '(variant, g) := range (-15)%float 15%float g in
  let px := Js.set px (i + 0) (Js.get px (i + 0) + variant)%float in
  let px := Js.set px (i + 1) (Js.get px (i + 1) + variant)%float in
  let px := Js.set px (i + 2) (Js.get px (i + 2) + variant)%float in
  let px := Js.set px (i + 3) 255%float in
  (px, g).

Definition redGrainBody (i : nat) (st : list Z * Generator) : list Z * Generator :=
  let '(px, g) := st in
  let '(variant, g) := range 50%float 100%float g in
  let px := Js.set px (i + 0) (Js.get px (i + 0) + variant)%float in
  let px := Js.set px (i + 1) (Js.get px (i + 1) - variant * 0.5)%float in
  let px := Js.set px (i + 2) (Js.get px (i + 2) - variant * 0.5)%float in
  (px, g).

Definition invertBody (i : nat) (st : list Z * Generator) : list Z * Generator :=
  let '(px, g) := st in
  let px := Js.set px i (255 - Js.get px i)%float in
  let px := Js.set px (i + 1) (255 - Js.get px (i + 1))%float in
  let px := Js.set px (i + 2) (255 - Js.get px (i + 2))%float in
  (px, g).

(** An inner function of [addGrain]: its loop over [grainPixels], then
    [context.putImageData(grain, 0, 0)], where [grain.data] is the array
    the loop has just changed. *)
Definition grainLoop (body : nat -> list Z * Generator -> list Z * Generator)
    (ctx : Context) (grain : ImageData) (px : list Z) (w : World)
  : Outcome Context World :=
  let '(px', g') := for4 (length px) body 0%nat (px, random w) in
  mkOutcome
    (putImageData ctx (mkImageData (width grain) (height grain) px') 0 0)
    px'
    (mkWorld g' (math w)).

Definition colorGrain := grainLoop colorGrainBody.
Definition parallelGrain := grainLoop parallelGrainBody.
Definition redGrain := grainLoop redGrainBody.
Definition invert := grainLoop invertBody.

(** The default of the parameter [style]. *)
Definition defaultStyle : string := "parallelGrain".

(** [addGrain(context, size, style)]; [None] is the call without a
    third argument.  The [switch] has no [default]: any other string
    falls through, and neither the array nor the canvas is written. *)
Definition addGrain (ctx : Context) (size : float * float)
    (styleArg : option string) (w : World) : Outcome Context World :=
  let style := default defaultStyle styleArg in
  let grain := getImageData ctx 0 0 (fst size) (snd size) in
  let grainPixels := data grain in
  if String.eqb style "colorful" then colorGrain ctx grain grainPixels w
  else if String.eqb style "parallel" then parallelGrain ctx grain grainPixels w
  else if String.eqb style "red" then redGrain ctx grain grainPixels w
  else if String.eqb style "invert" then invert ctx grain grainPixels w
  else mkOutcome ctx grainPixels w.

End Helpers.

Arguments mkWorld {Generator MathState} _ _.
Arguments random {Generator MathState} _.
Arguments math {Generator MathState} _.
Arguments after {Generator} range lo hi n g.
Arguments draw {Generator} range lo hi n g.
Arguments initiateSeed {Generator MathState} mathRandom fractionToString seedArg w.
Arguments colorGrainBody {Generator} range i st.
Arguments parallelGrainBody {Generator} range i st.
Arguments redGrainBody {Generator} range i st.
Arguments invertBody {Generator} i st.
Arguments grainLoop {Context} putImageData {Generator MathState} body ctx grain px w.
Arguments colorGrain {Context} putImageData {Generator} range {MathState} ctx grain px w : rename.
Arguments parallelGrain {Context} putImageData {Generator} range {MathState} ctx grain px w : rename.
Arguments redGrain {Context} putImageData {Generator} range {MathState} ctx grain px w : rename.
Arguments invert {Context} putImageData {Generator MathState} ctx grain px w : rename.
Arguments addGrain {Context} getImageData putImageData {Generator} range {MathState}
  ctx size styleArg w.

(** ** Concrete canvases and generators, for the scenarios *)

(** A canvas that is just its bitmap: reading returns it in full,
    writing replaces it. *)
Definition bitmapGet (c : list Z) (_ _ w h : float) : ImageData := mkImageData w h c.
Definition bitmapPut (_ : list Z) (img : ImageData) (_ _ : float) : list Z := data img.

(** A generator that returns the numbers of a list in turn (and zero
    once the list is used up), whatever the bounds asked for. *)
Definition scripted (_ _ : float) (g : list float) : float * list float :=
  match g with
  | [] => (0%float, [])
  | d :: g' => (d, g')
  end.

(** [addGrain] on a bitmap canvas with scripted draws. *)
Definition runGrain (size : float * float) (style : option string)
    (px : list Z) (draws : list float)
  : Outcome (list Z) (@World (list float) unit) :=
  addGrain bitmapGet bitmapPut scripted px size style (mkWorld draws tt).

(** The array [addGrain] works on:
    [context.getImageData(0, 0, size[0], size[1]).data]. *)
Definition inputPixels {Context : Type}
    (getImageData : Context -> float -> float -> float -> float -> ImageData)
    (ctx : Context) (size : float * float) : list Z :=
  data (getImageData ctx 0%float 0%float (fst size) (snd size)).

(** The styles the [switch] of [addGrain] has a case for. *)
Definition modes : list string := ["colorful"; "parallel"; "red"; "invert"].

(** Output minus input at index [j] of the array. *)
Definition delta (px out : list Z) (j : nat) : Z :=
  default 0 (out !! j) - default 0 (px !! j).

(** The number of iterations of the loop over an array of length [n]. *)
Definition passes (n : nat) : nat := ((n + 3) / 4)%nat.

(** ** What the loops compute, element by element *)

(** The element at offset [c] of a pixel after one iteration, from its
    old value [b] and the generator [g] the iteration starts with.  These
    four functions only state the lemmas about the loop bodies, which are
    proved to compute them. *)
Definition colorPixel {G : Type} (range : float -> float -> G -> float * G)
    (g : G) (c : nat) (b : Z) : Z :=
  match c with
  | 0%nat => Js.toUint8Clamp (Js.ofByte b + draw range (-25) 25 0 g)
  | 1%nat => Js.toUint8Clamp (Js.ofByte b + draw range (-25) 25 1 g)
  | 2%nat => Js.toUint8Clamp (Js.ofByte b + draw range (-25) 25 2 g)
  | _ => Js.toUint8Clamp 255
  end.

Definition parallelPixel {G : Type} (range : float -> float -> G -> float * G)
    (g : G) (c : nat) (b : Z) : Z :=
  match c with
  | 0%nat | 1%nat | 2%nat => Js.toUint8Clamp (Js.ofByte b + draw range (-15) 15 0 g)
  | _ => Js.toUint8Clamp 255
  end.

Definition redPixel {G : Type} (range : float -> float -> G -> float * G)
    (g : G) (c : nat) (b : Z) : Z :=
  match c with
  | 0%nat => Js.toUint8Clamp (Js.ofByte b + draw range 50 100 0 g)
  | 1%nat | 2%nat => Js.toUint8Clamp (Js.ofByte b - draw range 50 100 0 g * 0.5)
  | _ => b
  end.

Definition invertPixel (c : nat) (b : Z) : Z :=
  match c with
  | 0%nat | 1%nat | 2%nat => Js.toUint8Clamp (255 - Js.ofByte b)
  | _ => b
  end.

(** The mantissa of 1000000 as a binary64 value: [10^6 * 2^33]. *)
Definition millionMantissa : positive := 8589934592000000.

(** Two loop states to compare: equal arrays, and generators related by
    [sameDraws]. *)
Definition sameDrawsState {G1 G2 : Type} (sameDraws : G1 -> G2 -> Prop)
    (s1 : list Z * G1) (s2 : list Z * G2) : Prop :=
  fst s1 = fst s2 /\ sameDraws (snd s1) (snd s2).

(** A generator with a single state that always draws zero. *)
Definition zeros (_ _ : float) (g : unit) : float * unit := (0%float, g).

(** A [Math.random] that always returns one half. *)
Definition halves (s : nat) : float * nat := (0.5%float, S s).

(** ** helpers.js: myColors *)

(** An entry of the table [riso-colors]; its other properties are never
    read. *)
Module Riso.
Record entry : Type := mkEntry { name : string; hex : string }.
End Riso.

(** A colour object as the functions pass it around: the properties the
    code reads, each of them possibly missing. *)
Record Color : Type := mkColor {
  name : option string;
  hex : option string;
  alpha : option float
}.

(** The double quote, for the text of the warning. *)
Definition quote : string := String (Ascii.ascii_of_nat 34) "".

Section MyColors.

Variable Generator : Type.

(** [random.pick(array)]: an element, or [undefined] for an empty
    array. *)
Variable pick : list Riso.entry -> Generator -> option Riso.entry * Generator.

(** The table the package [riso-colors] exports. *)
Variable risoColors : list Riso.entry.

(** [String.prototype.toLowerCase]. *)
Variable toLowerCase : string -> string.

(** [Color.parse(name)] of canvas-sketch-util, where it gives a colour,
    and [Color.style(parsed.rgb)]. *)
Variable Rgb : Type.
Variable parse : string -> option Rgb.
Variable style : Rgb -> string.

(** [{ ...color, alpha }]. *)
Definition withAlpha (color : option Riso.entry) (alpha : float) : Color :=
  match color with
  | Some c => mkColor (Some (Riso.name c)) (Some (Riso.hex c)) (Some alpha)
  | None => mkColor None None (Some alpha)
  end.

(** [myColors(colorName = "", alpha = 1)], with the generator and the
    lines [console.warn] has printed. *)
Definition myColors (colorNameArg : option string) (alphaArg : option float)
    (g : Generator) (console : list string)
  : Color * Generator * list string :=
  let colorName := default "" colorNameArg in
  let alpha := default 1%float alphaArg in
  let '(color, g, console) :=
    if String.eqb colorName "" then
      let '(c, g) := pick risoColors g in (c, g, console)
    else
      let risoColor :=
        find (fun c => String.eqb (toLowerCase (Riso.name c)) (toLowerCase colorName))
          risoColors in
      match risoColor with
      | Some c => (Some c, g, console)
      | None =>
          match parse colorName with
          | Some rgb => (Some (Riso.mkEntry colorName (style rgb)), g, console)
          | None =>
              let console :=
                console ++ ["Farbe " +:+ quote +:+ colorName +:+ quote
                            +:+ " nicht gefunden, wähle zufällige Riso-Farbe."] in
              let '(c, g) := pick risoColors g in (c, g, console)
          end
      end in
  (withAlpha color alpha, g, console).

End MyColors.
Arguments myColors {Generator} pick risoColors toLowerCase {Rgb} parse style
  colorNameArg alphaArg g console.

(** For the scenarios: a table of three entries, an ASCII [toLowerCase],
    a parser that knows two names, and a [pick] that takes the first
    element. *)
Definition demoRiso : list Riso.entry :=
  [Riso.mkEntry "Black" "#000000"; Riso.mkEntry "Red" "#ff665e";
   Riso.mkEntry "red" "#111111"].

Fixpoint lowerAscii (s : string) : string :=
  match s with
  | EmptyString => EmptyString
  | String a rest =>
      let n := Ascii.nat_of_ascii a in
      String (if (65 <=? n)%nat && (n <=? 90)%nat then Ascii.ascii_of_nat (n + 32) else a)
        (lowerAscii rest)
  end.

Definition demoParse (s : string) : option unit :=
  if String.eqb s "red" || String.eqb s "tomato" then Some tt else None.

Definition firstPick (l : list Riso.entry) (g : nat) : option Riso.entry * nat :=
  (head l, S g).

(** ** The 2D context *)

(** How a call ends: it returns, it throws, or (for a loop run with too
    little fuel) it has not finished. *)
Inductive Exception : Type := IndexSizeError | SyntaxError | TypeError.

Inductive Completion (S A : Type) : Type :=
| Returns (a : A) (s : S)
| Throws (e : Exception) (s : S)
| OutOfFuel.
Arguments Returns {S A} a s.
Arguments Throws {S A} e s.
Arguments OutOfFuel {S A}.

(** Code that runs on a state [S] and may throw. *)
Definition Run (S A : Type) : Type := S -> Completion S A.

Definition ret {S A : Type} (a : A) : Run S A := fun s => Returns a s.

Definition bind {S A B : Type} (m : Run S A) (k : A -> Run S B) : Run S B :=
  fun s =>
    match m s with
    | Returns a s' => k a s'
    | Throws e s' => Throws e s'
    | OutOfFuel => OutOfFuel
    end.

Notation "x <- m ;; k" := (bind m (fun x => k))
  (at level 100, m at next level, right associativity).
Notation "m ;;; k" := (bind m (fun _ => k))
  (at level 100, right associativity).

(** The part of [CanvasRenderingContext2D] the functions use, with the
    behaviour the HTML standard gives it. *)
Module Canvas.

Record Gradient : Type := mkGradient {
  x0 : float; y0 : float; r0 : float;
  x1 : float; y1 : float; r1 : float;
  stops : list (float * string)
}.

Inductive Style : Type :=
| Css (colour : string)
| Grad (g : Gradient).

(** The drawing state, as far as the functions set it: [save] pushes a
    copy of it, [restore] pops one.  [transform] lists the translations
    applied, the latest first. *)
Record State : Type := mkState {
  transform : list (float * float);
  fillStyle : Style;
  strokeStyle : Style;
  globalAlpha : float;
  lineWidth : float;
  globalCompositeOperation : string;
  font : string
}.

Record Arc : Type := mkArc {
  centre : float * float;
  radius : float;
  startAngle : float;
  endAngle : float;
  counterclockwise : bool;
  under : list (float * float)
}.

(** What reaches the bitmap, with the drawing state it is painted
    with. *)
Inductive Op : Type :=
| Fill (path : list Arc) (s : State)
| Stroke (path : list Arc) (s : State)
| FillRect (x y w h : float) (s : State)
| FillText (text : string) (x y : float) (s : State).

(** The context: the drawing state, the stack of saved states, the
    current path (which [save] does not save) and what has been drawn. *)
Record t : Type := mk {
  state : State;
  saved : list State;
  path : list Arc;
  drawn : list Op
}.

Definition withState (f : State -> State) (c : t) : t :=
  mk (f (state c)) (saved c) (path c) (drawn c).

Definition save (c : t) : t := mk (state c) (state c :: saved c) (path c) (drawn c).

(** [restore] on an empty stack does nothing. *)
Definition restore (c : t) : t :=
  match saved c with
  | [] => c
  | s :: rest => mk s rest (path c) (drawn c)
  end.

(** The composite operations and blend modes a context takes; the setter
    ignores any other string. *)
Definition compositeOperations : list string :=
  ["source-over"; "source-in"; "source-out"; "source-atop";
   "destination-over"; "destination-in"; "destination-out"; "destination-atop";
   "lighter"; "copy"; "xor"; "multiply"; "screen"; "overlay"; "darken";
   "lighten"; "color-dodge"; "color-burn"; "hard-light"; "soft-light";
   "difference"; "exclusion"; "hue"; "saturation"; "color"; "luminosity"].

Section Api.

(** Whether a string parses as a CSS colour, and as a CSS font. *)
Variable validColor : string -> bool.
Variable validFont : string -> bool.

(** The setters ignore a value they cannot take. *)
Definition setFillStyle (v : string) : t -> t :=
  withState (fun s =>
    if validColor v
    then mkState (transform s) (Css v) (strokeStyle s) (globalAlpha s)
           (lineWidth s) (globalCompositeOperation s) (font s)
    else s).

Definition setFillGradient (g : Gradient) : t -> t :=
  withState (fun s =>
    mkState (transform s) (Grad g) (strokeStyle s) (globalAlpha s)
      (lineWidth s) (globalCompositeOperation s) (font s)).

Definition setStrokeStyle (v : string) : t -> t :=
  withState (fun s =>
    if validColor v
    then mkState (transform s) (fillStyle s) (Css v) (globalAlpha s)
           (lineWidth s) (globalCompositeOperation s) (font s)
    else s).

(** [globalAlpha]: a value outside [0, 1], infinite or NaN is ignored. *)
Definition setGlobalAlpha (x : float) : t -> t :=
  withState (fun s =>
    if (0 <=? x)%float && (x <=? 1)%float
    then mkState (transform s) (fillStyle s) (strokeStyle s) x
           (lineWidth s) (globalCompositeOperation s) (font s)
    else s).

(** [lineWidth]: zero, a negative, an infinite value or NaN is ignored. *)
Definition setLineWidth (x : float) : t -> t :=
  withState (fun s =>
    if (0 <? x)%float && PrimFloat.is_finite x
    then mkState (transform s) (fillStyle s) (strokeStyle s) (globalAlpha s)
           x (globalCompositeOperation s) (font s)
    else s).

Definition setGlobalCompositeOperation (v : string) : t -> t :=
  withState (fun s =>
    if bool_decide (v ∈ compositeOperations)
    then mkState (transform s) (fillStyle s) (strokeStyle s) (globalAlpha s)
           (lineWidth s) v (font s)
    else s).

Definition setFont (v : string) : t -> t :=
  withState (fun s =>
    if validFont v
    then mkState (transform s) (fillStyle s) (strokeStyle s) (globalAlpha s)
           (lineWidth s) (globalCompositeOperation s) v
    else s).

(** [translate]: an infinite or NaN argument makes it a no-op. *)
Definition translate (x y : float) : t -> t :=
  withState (fun s =>
    if PrimFloat.is_finite x && PrimFloat.is_finite y
    then mkState ((x, y) :: transform s) (fillStyle s) (strokeStyle s)
           (globalAlpha s) (lineWidth s) (globalCompositeOperation s) (font s)
    else s).

Definition beginPath (c : t) : t := mk (state c) (saved c) [] (drawn c).

(** [arc]: an infinite or NaN argument makes it a no-op; a negative
    radius throws. *)
Definition arc (x y r a0 a1 : float) (ccw : bool) : Run t unit :=
  fun c =>
    if negb (PrimFloat.is_finite x && PrimFloat.is_finite y && PrimFloat.is_finite r
             && PrimFloat.is_finite a0 && PrimFloat.is_finite a1)
    then Returns tt c
    else if (r <? 0)%float then Throws IndexSizeError c
    else Returns tt
           (mk (state c) (saved c)
              (path c ++ [mkArc (x, y) r a0 a1 ccw (transform (state c))])
              (drawn c)).

Definition fill (c : t) : t :=
  mk (state c) (saved c) (path c) (drawn c ++ [Fill (path c) (state c)]).

Definition stroke (c : t) : t :=
  mk (state c) (saved c) (path c) (drawn c ++ [Stroke (path c) (state c)]).

(** [fillRect]: nothing for an infinite or NaN argument, nothing for a
    width or height of zero. *)
Definition fillRect (x y w h : float) (c : t) : t :=
  if negb (PrimFloat.is_finite x && PrimFloat.is_finite y
           && PrimFloat.is_finite w && PrimFloat.is_finite h)
  then c
  else if (w =? 0)%float || (h =? 0)%float then c
  else mk (state c) (saved c) (path c) (drawn c ++ [FillRect x y w h (state c)]).

Definition fillText (text : string) (x y : float) (c : t) : t :=
  if negb (PrimFloat.is_finite x && PrimFloat.is_finite y) then c
  else mk (state c) (saved c) (path c) (drawn c ++ [FillText text x y (state c)]).

(** [createRadialGradient]: its arguments are not "unrestricted", so an
    infinite or NaN one is a [TypeError]; a negative radius throws. *)
Definition createRadialGradient (x0 y0 r0 x1 y1 r1 : float) : Run t Gradient :=
  fun c =>
    if negb (PrimFloat.is_finite x0 && PrimFloat.is_finite y0 && PrimFloat.is_finite r0
             && PrimFloat.is_finite x1 && PrimFloat.is_finite y1 && PrimFloat.is_finite r1)
    then Throws TypeError c
    else if (r0 <? 0)%float || (r1 <? 0)%float then Throws IndexSizeError c
    else Returns (mkGradient x0 y0 r0 x1 y1 r1 []) c.

(** [addColorStop]: an offset outside [0, 1] throws, and so does a
    colour that does not parse. *)
Definition addColorStop (offset : float) (colour : string) (g : Gradient)
  : Run t Gradient :=
  fun c =>
    if negb (PrimFloat.is_finite offset) then Throws TypeError c
    else if (offset <? 0)%float || (1 <? offset)%float then Throws IndexSizeError c
    else if negb (validColor colour) then Throws SyntaxError c
    else Returns (mkGradient (x0 g) (y0 g) (r0 g) (x1 g) (y1 g) (r1 g)
                    (stops g ++ [(offset, colour)])) c.

End Api.

End Canvas.

(** ** Loops with a counter *)

(** [i++] on a counter that starts at 0 or 1: a double holds every
    integer up to 2^53 exactly, and [2^53 + 1] rounds back to [2^53]. *)
Definition increment (i : Z) : Z := if i <? 2 ^ 53 then i + 1 else i.

(** [for (let i = start; guard(i); i++) body(i)].  The loop may never
    end, so it runs on fuel; [OutOfFuel] is a loop that has not ended. *)
Fixpoint forLoop {S : Type} (fuel : nat) (guard : Z -> bool)
    (body : Z -> Run S unit) (i : Z) : Run S unit :=
  match fuel with
  | O => fun _ => OutOfFuel
  | S fuel' =>
      if guard i
      then body i ;;; forLoop fuel' guard body (increment i)
      else ret tt
  end.

(** [array.forEach(f)]. *)
Fixpoint forEach {S A : Type} (f : A -> Run S unit) (array : list A) : Run S unit :=
  match array with
  | [] => ret tt
  | x :: rest => f x ;;; forEach f rest
  end.

(** ** dots.js (version 2.2.0) and the rest of helpers.js *)

(** [Math.PI]. *)
Definition PI : float := 3.141592653589793%float.

(** [color.alpha || 1]. *)
Definition alphaOr1 (alpha : option float) : float :=
  match alpha with
  | Some x => if Js.toBoolean (Js.Number x) then x else 1%float
  | None => 1%float
  end.

(** A property assigned to [fillStyle] or [strokeStyle]: a missing one
    is [undefined], which the setter reads as the string "undefined". *)
Definition styleString (hex : option string) : string := default "undefined" hex.

(** [Math.min(x, y)]. *)
Definition mathMin (x y : float) : float :=
  if PrimFloat.is_nan x || PrimFloat.is_nan y then PrimFloat.nan
  else if (x <? y)%float then x
  else if (y <? x)%float then y
  else if PrimFloat.get_sign x then x else y.

(** What the functions run on: the context they are given and the
    generator of the module. *)
Definition Sketch (Generator : Type) : Type := Canvas.t * Generator.

Definition onContext {Generator : Type} (f : Canvas.t -> Canvas.t)
  : Run (Sketch Generator) unit :=
  fun s => Returns tt (f (fst s), snd s).

Definition onContextRun {Generator A : Type} (m : Run Canvas.t A)
  : Run (Sketch Generator) A :=
  fun s =>
    match m (fst s) with
    | Returns a c => Returns a (c, snd s)
    | Throws e c => Throws e (c, snd s)
    | OutOfFuel => OutOfFuel
    end.

Definition rnd {Generator : Type} (f : Generator -> float * Generator)
  : Run (Sketch Generator) float :=
  fun s => let '(x, g) := f (snd s) in Returns x (fst s, g).

(** The object [seeds] of [printFooter], as far as it is read. *)
Module Seeds.
Record t : Type := mk { color : Js.value; shape : Js.value }.
End Seeds.

Section Dots.

Variable validColor : string -> bool.
Variable validFont : string -> bool.

(** [Math.cos] and [Math.sin]. *)
Variable cos : float -> float.
Variable sin : float -> float.

(** The generator of canvas-sketch-util: [random.range] and
    [random.gaussian]. *)
Variable Generator : Type.
Variable range : float -> float -> Generator -> float * Generator.
Variable gaussian : float -> float -> Generator -> float * Generator.

Variable fractionToString : float -> string.

Definition drawSingleDot (radius : float) (color : Color) : Run (Sketch Generator) unit :=
  onContext Canvas.save ;;;
  onContext (Canvas.setFillStyle validColor (styleString (hex color))) ;;;
  onContext (Canvas.setGlobalAlpha (alphaOr1 (alpha color))) ;;;
  onContext Canvas.beginPath ;;;
  onContextRun (Canvas.arc 0 0 radius 0 (PI * 2) false) ;;;
  onContext Canvas.fill ;;;
  onContext Canvas.restore.

(** [drawArc(context, radius, color, lineWidth, startAngle, endAngle,
    isClockwise = false)]. *)
Definition drawArc (radius : float) (color : Color) (lineWidth startAngle endAngle : float)
    (isClockwiseArg : option bool) : Run (Sketch Generator) unit :=
  let isClockwise := default false isClockwiseArg in
  onContext Canvas.save ;;;
  onContext (Canvas.setLineWidth lineWidth) ;;;
  onContext (Canvas.setStrokeStyle validColor (styleString (hex color))) ;;;
  onContext (Canvas.setGlobalAlpha (alphaOr1 (alpha color))) ;;;
  onContext Canvas.beginPath ;;;
  onContextRun (Canvas.arc 0 0 radius startAngle endAngle isClockwise) ;;;
  onContext Canvas.stroke ;;;
  onContext Canvas.restore.

Definition drawOutline (radius : float) (color : Color) (lineWidth : float)
  : Run (Sketch Generator) unit :=
  onContext Canvas.save ;;;
  onContext (Canvas.setStrokeStyle validColor (styleString (hex color))) ;;;
  onContext (Canvas.setGlobalAlpha (alphaOr1 (alpha color))) ;;;
  onContext (Canvas.setLineWidth lineWidth) ;;;
  onContext Canvas.beginPath ;;;
  onContextRun (Canvas.arc 0 0 radius 0 (PI * 2) false) ;;;
  onContext Canvas.stroke ;;;
  onContext Canvas.restore.

Definition drawCircumpunct (outerRadius : float) (color : Color)
    (innerRadius lineWidth : float) : Run (Sketch Generator) unit :=
  drawOutline outerRadius color lineWidth ;;;
  drawSingleDot innerRadius color.

Definition drawConcentricDots (fuel : nat) (maxRadius : float) (color : Color)
    (numCircles lineWidth : float) (ordered : bool) : Run (Sketch Generator) unit :=
  forLoop fuel (fun i => (Js.ofZ i <=? numCircles)%float)
    (fun i =>
       radius <- (if ordered
                  then ret (Js.ofZ i / numCircles * maxRadius)%float
                  else (d <- rnd (range 0.1 1) ;; ret (d * maxRadius)%float)) ;;
       drawOutline radius color lineWidth)
    1.

Definition drawSegmentedDots (fuel : nat) (radius : float) (color : Color)
    (dotRadius numSegments lineWidth : float) : Run (Sketch Generator) unit :=
  forLoop fuel (fun i => (Js.ofZ i <? numSegments)%float)
    (fun i =>
       let angle := (Js.ofZ i / numSegments * PI * 2)%float in
       let x := (cos angle * radius)%float in
       let y := (sin angle * radius)%float in
       onContext Canvas.save ;;;
       onContext (Canvas.translate x y) ;;;
       (if (0 <? lineWidth)%float
        then drawOutline dotRadius color lineWidth
        else drawSingleDot dotRadius color) ;;;
       onContext Canvas.restore)
    0.

Definition drawSplash (fuel : nat) (maxRadius : float) (color : Color)
    (density dotSizeFactor : float) : Run (Sketch Generator) unit :=
  let numDots := (200 * density)%float in
  forLoop fuel (fun i => (Js.ofZ i <? numDots)%float)
    (fun i =>
       angle <- rnd (range 0 (PI * 2)) ;;
       r1 <- rnd (range 0 maxRadius) ;;
       r2 <- rnd (range 0 1) ;;
       let radius := (r1 * PrimFloat.sqrt r2)%float in
       let x := (cos angle * radius)%float in
       let y := (sin angle * radius)%float in
       gauss <- rnd (gaussian 0 (maxRadius * 0.05 * dotSizeFactor)) ;;
       let dotRadius := PrimFloat.abs gauss in
       onContext Canvas.save ;;;
       onContext (Canvas.translate x y) ;;;
       drawSingleDot dotRadius color ;;;
       onContext Canvas.restore)
    0.

Definition drawRadialGradient (radius : float) (color : Color) : Run (Sketch Generator) unit :=
  onContext Canvas.save ;;;
  gradient <- onContextRun (Canvas.createRadialGradient 0 0 0 0 0 radius) ;;
  gradient <- onContextRun (Canvas.addColorStop validColor 0 (styleString (hex color)) gradient) ;;
  gradient <- onContextRun (Canvas.addColorStop validColor 1 "rgba(255, 255, 255, 0)" gradient) ;;
  onContext (Canvas.setFillGradient gradient) ;;;
  onContext Canvas.beginPath ;;;
  onContextRun (Canvas.arc 0 0 radius 0 (PI * 2) false) ;;;
  onContext Canvas.fill ;;;
  onContext Canvas.restore.

Definition drawRadialVignette (radius : float) (color : Color) : Run (Sketch Generator) unit :=
  onContext Canvas.save ;;;
  gradient <- onContextRun (Canvas.createRadialGradient 0 0 0 0 0 radius) ;;
  gradient <- onContextRun (Canvas.addColorStop validColor 0 "rgba(255, 255, 255, 0)" gradient) ;;
  gradient <- onContextRun (Canvas.addColorStop validColor 1 (styleString (hex color)) gradient) ;;
  onContext (Canvas.setFillGradient gradient) ;;;
  onContext Canvas.beginPath ;;;
  onContextRun (Canvas.arc 0 0 radius 0 (PI * 2) false) ;;;
  onContext Canvas.fill ;;;
  onContext Canvas.restore.

(** *** helpers.js: addGrain2 *)

(** [addGrain2(context, width, height, density = 0.25, grainSize = 1)]. *)
Definition addGrain2 (fuel : nat) (width height : float)
    (densityArg grainSizeArg : option float) : Run (Sketch Generator) unit :=
  let density := default 0.25%float densityArg in
  let grainSize := default 1%float grainSizeArg in
  onContext Canvas.save ;;;
  onContext (Canvas.setGlobalCompositeOperation "multiply") ;;;
  let totalPixels := (width * height)%float in
  let amount := Js.mathFloor (totalPixels * density / (grainSize * grainSize))%float in
  forLoop fuel (fun i => (Js.ofZ i <? amount)%float)
    (fun i =>
       x <- rnd (range 0 width) ;;
       y <- rnd (range 0 height) ;;
       alpha <- rnd (range 0.5 0.9) ;;
       onContext (Canvas.setFillStyle validColor
              ("rgba(0, 0, 0, " +:+ Js.numberToString fractionToString alpha +:+ ")")) ;;;
       onContext (Canvas.fillRect x y grainSize grainSize))
    0 ;;;
  onContext Canvas.restore.

(** *** helpers.js: printFooter *)

(** A property of a colour object inside a template literal. *)
Definition shown (text : option string) : string := default "undefined" text.

Definition shownNumber (x : option float) : string :=
  match x with
  | Some x => Js.numberToString fractionToString x
  | None => "undefined"
  end.

(** The arrow function [drawLine] of [printFooter], with the constants
    it closes over. *)
Definition drawLine (fontSize boxHeight padding boxWidth : float)
    (text : string) (colorObj : option Color) : Run (Sketch Generator) unit :=
  onContext (Canvas.translate 0 (- boxHeight - padding / 2)) ;;;
  onContext (Canvas.setFillStyle validColor "rgba(255, 255, 255, 0.85)") ;;;
  onContext (Canvas.fillRect 0 0 boxWidth boxHeight) ;;;
  (match colorObj with
   | Some c =>
       onContext (Canvas.setFillStyle validColor (styleString (hex c))) ;;;
       onContext (Canvas.fillRect padding (padding / 2) fontSize fontSize)
   | None => ret tt
   end) ;;;
  onContext (Canvas.setFillStyle validColor "rgba(0, 0, 0, 0.8)") ;;;
  let textX := match colorObj with
               | Some _ => (padding * 2 + fontSize)%float
               | None => padding
               end in
  onContext (Canvas.fillText text textX (padding + fontSize * 0.8)).

(** [printFooter(context, width, height, seeds, settings, colorList)]:
    [seeds] is [None] for a value that is not an object, [dimensions] is
    [None] when [settings.dimensions] is [undefined], which makes the
    read of its first element throw. *)
Definition printFooter (width height : float) (seeds : option Seeds.t)
    (dimensions : option (Js.value * Js.value)) (colorList : list Color)
  : Run (Sketch Generator) unit :=
  onContext Canvas.save ;;;
  onContext (Canvas.setGlobalCompositeOperation "source-over") ;;;
  let fontSize := (mathMin width height * 0.015)%float in
  let boxHeight := (fontSize * 1.5)%float in
  let padding := (fontSize * 0.5)%float in
  let boxWidth := (width * 0.4)%float in
  onContext (Canvas.setFont validFont
               (Js.numberToString fractionToString fontSize +:+ "px Inter, sans-serif")) ;;;
  let currentY := (height - padding)%float in
  let drawLine := drawLine fontSize boxHeight padding boxWidth in
  onContext (Canvas.translate padding currentY) ;;;
  dimText <- match dimensions with
             | Some (d0, d1) =>
                 ret (Js.toString fractionToString d0 +:+ "x"
                      +:+ Js.toString fractionToString d1 +:+ "px")
             | None => fun s => Throws TypeError s
             end ;;
  drawLine dimText None ;;;
  (match seeds with
   | Some sd =>
       if Js.toBoolean (Seeds.color sd)
       then drawLine ("Color Seed: " +:+ Js.toString fractionToString (Seeds.color sd)) None
       else ret tt
   | None => ret tt
   end) ;;;
  (match seeds with
   | Some sd =>
       if Js.toBoolean (Seeds.shape sd)
       then drawLine ("Shape Seed: " +:+ Js.toString fractionToString (Seeds.shape sd)) None
       else ret tt
   | None => ret tt
   end) ;;;
  forEach
    (fun color =>
       let colorText :=
         shown (name color) +:+ " (" +:+ shown (hex color) +:+ ", α="
         +:+ shownNumber (alpha color) +:+ ")" in
       drawLine colorText (Some color))
    (rev colorList) ;;;
  onContext Canvas.restore.

End Dots.

Arguments drawSingleDot validColor {Generator} radius color.
Arguments drawArc validColor {Generator} radius color lineWidth startAngle endAngle
  isClockwiseArg.
Arguments drawOutline validColor {Generator} radius color lineWidth.
Arguments drawCircumpunct validColor {Generator} outerRadius color innerRadius lineWidth.
Arguments drawConcentricDots validColor {Generator} range fuel maxRadius color numCircles
  lineWidth ordered.
Arguments drawSegmentedDots validColor cos sin {Generator} fuel radius color dotRadius
  numSegments lineWidth.
Arguments drawSplash validColor cos sin {Generator} range gaussian fuel maxRadius color
  density dotSizeFactor.
Arguments drawRadialGradient validColor {Generator} radius color.
Arguments drawRadialVignette validColor {Generator} radius color.
Arguments drawLine validColor {Generator} fontSize boxHeight padding boxWidth text colorObj.
Arguments printFooter validColor validFont {Generator} fractionToString width height seeds
  dimensions colorList.
Arguments addGrain2 validColor {Generator} range fractionToString fuel width height
  densityArg grainSizeArg.

(** ** What the properties are stated with *)

(** What [addGrain] with the given style computes at index [j], from the
    generator the call starts with and the old value: the four
    element-wise functions above, and the identity for a style that has
    no case. *)
Definition stylePixel {G : Type} (range : float -> float -> G -> float * G)
    (style : string) (g : G) (j : nat) (b : Z) : Z :=
  if String.eqb style "colorful"
  then colorPixel range (after range (-25) 25 (3 * (j / 4)) g) (j mod 4) b
  else if String.eqb style "parallel"
  then parallelPixel range (after range (-15) 15 (j / 4) g) (j mod 4) b
  else if String.eqb style "red"
  then redPixel range (after range 50 100 (j / 4) g) (j mod 4) b
  else if String.eqb style "invert"
  then invertPixel (j mod 4) b
  else b.

(** No entry of the table has the name, case apart. *)
Definition unlisted (toLowerCase : string -> string) (colorName : string)
    (table : list Riso.entry) : Prop :=
  Forall (fun c => toLowerCase (Riso.name c) <> toLowerCase colorName) table.

(** What a piece of code guarantees about the state it ends in: [Rr]
    relates the state before to the state after when it returns, [Rt]
    when it throws. *)
Definition ensures {S A : Type} (Rr Rt : S -> S -> Prop) (m : Run S A) : Prop :=
  forall s,
    match m s with
    | Returns _ s' => Rr s s'
    | Throws _ s' => Rt s s'
    | OutOfFuel => True
    end.

(** The drawing state and the stack of saved states are what they
    were. *)
Definition sameDrawingState {G : Type} (s s' : Sketch G) : Prop :=
  Canvas.state (fst s') = Canvas.state (fst s)
  /\ Canvas.saved (fst s') = Canvas.saved (fst s).

(** The stack holds the caller's drawing state on top of the caller's
    stack, under whatever else was saved since. *)
Definition callerStateSaved {G : Type} (s s' : Sketch G) : Prop :=
  exists extra,
    Canvas.saved (fst s') = extra ++ Canvas.state (fst s) :: Canvas.saved (fst s).

(** Code that pairs its [save] with a [restore]: when it returns, the
    drawing state and the stack are the caller's; when it throws, the
    caller's state is still on the stack. *)
Definition balanced {G A : Type} (m : Run (Sketch G) A) : Prop :=
  ensures sameDrawingState callerStateSaved m.

(** The stack is what it was, or has grown. *)
Definition sameStack {G : Type} (s s' : Sketch G) : Prop :=
  Canvas.saved (fst s') = Canvas.saved (fst s).

Definition stackGrown {G : Type} (s s' : Sketch G) : Prop :=
  exists extra, Canvas.saved (fst s') = extra ++ Canvas.saved (fst s).

Definition kept {G A : Type} (m : Run (Sketch G) A) : Prop :=
  ensures sameStack stackGrown m.

(** Code that ends by restoring what the [save] before it has pushed. *)
Definition closes {G A : Type} (m : Run (Sketch G) A) : Prop :=
  forall s st rest,
    Canvas.saved (fst s) = st :: rest ->
    match m s with
    | Returns _ s' => Canvas.state (fst s') = st /\ Canvas.saved (fst s') = rest
    | Throws _ s' => exists extra, Canvas.saved (fst s') = extra ++ st :: rest
    | OutOfFuel => True
    end.

(** The generator is the one the call started with. *)
Definition sameGenerator {G : Type} (s s' : Sketch G) : Prop := snd s' = snd s.

Definition drawsNothing {G A : Type} (m : Run (Sketch G) A) : Prop :=
  ensures sameGenerator sameGenerator m.

(** What a call has painted: the operations it has added. *)
Definition paintedBy {G A : Type} (m : Run (Sketch G) A) (s : Sketch G) : list Canvas.Op :=
  match m s with
  | Returns _ s' | Throws _ s' =>
      drop (length (Canvas.drawn (fst s))) (Canvas.drawn (fst s'))
  | OutOfFuel => []
  end.

(** The drawing state an operation is painted with. *)
Definition paintedWith (op : Canvas.Op) : Canvas.State :=
  match op with
  | Canvas.Fill _ st | Canvas.Stroke _ st
  | Canvas.FillRect _ _ _ _ st | Canvas.FillText _ _ _ st => st
  end.

Definition isFill (op : Canvas.Op) : bool :=
  match op with Canvas.Fill _ _ => true | _ => false end.

Definition isStroke (op : Canvas.Op) : bool :=
  match op with Canvas.Stroke _ _ => true | _ => false end.

(** A rectangle of the given side, painted with the given composite
    operation. *)
Definition isGrain (side : float) (operation : string) (op : Canvas.Op) : Prop :=
  exists x y st,
    op = Canvas.FillRect x y side side st
    /\ Canvas.globalCompositeOperation st = operation.

(** The texts among the operations, in the order they were painted. *)
Definition textsOf (ops : list Canvas.Op) : list string :=
  omap (fun op => match op with Canvas.FillText text _ _ _ => Some text | _ => None end) ops.

(** The full circle the functions draw at the origin. *)
Definition circle (radius : float) (under : list (float * float)) : Canvas.Arc :=
  Canvas.mkArc (0, 0)%float radius 0 (PI * 2) false under.

(** [globalAlpha] after [context.globalAlpha = color.alpha || 1], from
    the one before. *)
Definition alphaAfter (a : option float) (current : float) : float :=
  if (0 <=? alphaOr1 a)%float && (alphaOr1 a <=? 1)%float then alphaOr1 a else current.

Section Painting.

Variable validColor : string -> bool.
Context {G : Type}.

(** The context when [drawSingleDot] reaches [arc]. *)
Definition dotReady (color : Color) (c : Canvas.t) : Canvas.t :=
  Canvas.beginPath
    (Canvas.setGlobalAlpha (alphaOr1 (alpha color))
       (Canvas.setFillStyle validColor (styleString (hex color)) (Canvas.save c))).

(** The context when [drawOutline] and [drawArc] reach [arc]. *)
Definition outlineReady (color : Color) (lineWidth : float) (c : Canvas.t) : Canvas.t :=
  Canvas.beginPath
    (Canvas.setLineWidth lineWidth
       (Canvas.setGlobalAlpha (alphaOr1 (alpha color))
          (Canvas.setStrokeStyle validColor (styleString (hex color)) (Canvas.save c)))).

Definition arcReady (color : Color) (lineWidth : float) (c : Canvas.t) : Canvas.t :=
  Canvas.beginPath
    (Canvas.setGlobalAlpha (alphaOr1 (alpha color))
       (Canvas.setStrokeStyle validColor (styleString (hex color))
          (Canvas.setLineWidth lineWidth (Canvas.save c)))).

(** What the two gradient functions come to, with the colours of their
    stops: the lemmas [drawRadialGradient_run] and
    [drawRadialVignette_run] prove that they compute it. *)
Definition gradientRun (first second : string) (radius : float) (s : Sketch G)
  : Completion (Sketch G) unit :=
  let c := Canvas.save (fst s) in
  if negb (PrimFloat.is_finite radius) then Throws TypeError (c, snd s)
  else if (radius <? 0)%float then Throws IndexSizeError (c, snd s)
  else if negb (validColor first) then Throws SyntaxError (c, snd s)
  else if negb (validColor second) then Throws SyntaxError (c, snd s)
  else
    let g := Canvas.mkGradient 0 0 0 0 0 radius [(0%float, first); (1%float, second)] in
    let c := Canvas.beginPath (Canvas.setFillGradient g c) in
    Returns tt
      (Canvas.restore
         (Canvas.fill
            (Canvas.mk (Canvas.state c) (Canvas.saved c)
               [circle radius (Canvas.transform (Canvas.state c))]
               (Canvas.drawn c))), snd s).

End Painting.

(** The generator after the four draws of one dot of [drawSplash]. *)
Definition splashDraws {G : Type} (range gaussian : float -> float -> G -> float * G)
    (maxRadius dotSizeFactor : float) (g : G) : G :=
  let g := snd (range 0 (PI * 2) g)%float in
  let g := snd (range 0 maxRadius g)%float in
  let g := snd (range 0 1 g)%float in
  snd (gaussian 0 (maxRadius * 0.05 * dotSizeFactor) g)%float.

(** The generator after the three draws of one grain of [addGrain2]. *)
Definition grainDraws {G : Type} (range : float -> float -> G -> float * G)
    (width height : float) (g : G) : G :=
  let g := snd (range 0 width g)%float in
  let g := snd (range 0 height g)%float in
  snd (range 0.5 0.9 g)%float.

(** The number of grains [addGrain2] asks for. *)
Definition grainAmount (width height density grainSize : float) : float :=
  Js.mathFloor (width * height * density / (grainSize * grainSize))%float.

(** The lines [printFooter] writes, the first at the bottom; the values
    in them are printed by [Js.toString]. *)
Definition footerLines (fractionToString : float -> string) (seeds : option Seeds.t)
    (d0 d1 : Js.value) (colorList : list Color) : list string :=
  [Js.toString fractionToString d0 +:+ "x" +:+ Js.toString fractionToString d1 +:+ "px"]
  ++ match seeds with
     | Some sd =>
         (if Js.toBoolean (Seeds.color sd)
          then ["Color Seed: " +:+ Js.toString fractionToString (Seeds.color sd)] else [])
         ++ (if Js.toBoolean (Seeds.shape sd)
             then ["Shape Seed: " +:+ Js.toString fractionToString (Seeds.shape sd)] else [])
     | None => []
     end
  ++ map (fun color =>
            shown (name color) +:+ " (" +:+ shown (hex color) +:+ ", α="
            +:+ shownNumber fractionToString (alpha color) +:+ ")")
       (rev colorList).

(** A run that returns with the stack and the generator it started
    with, having added [lines] to the texts when [finite] holds. *)
Definition writes {G : Type} (finite : Prop) (lines : list string)
    (m : Run (Sketch G) unit) : Prop :=
  forall s, exists c',
    m s = Returns tt (c', snd s)
    /\ Canvas.saved c' = Canvas.saved (fst s)
    /\ (finite -> textsOf (Canvas.drawn c') = textsOf (Canvas.drawn (fst s)) ++ lines).

(** ** Scenarios for the canvas functions *)

(** A context as it is created: black styles, full alpha, a line width
    of 1, nothing saved and nothing drawn. *)
Definition blank : Canvas.t :=
  Canvas.mk
    (Canvas.mkState [] (Canvas.Css "#000000") (Canvas.Css "#000000") 1 1 "source-over"
       "10px sans-serif")
    [] [] [].

(** A colour parser that takes what starts with [#] or with [r]. *)
Definition cssLike (s : string) : bool := String.prefix "#" s || String.prefix "r" s.

(** Stand-ins for [Math.cos] and [Math.sin]: their values at angle 0. *)
Definition cosZero (_ : float) : float := 1%float.
Definition sinZero (_ : float) : float := 0%float.

Definition bright : Color := mkColor (Some "Bright Red") (Some "#f15060") (Some 0.5%float).
Definition transparentRed : Color :=
  mkColor (Some "Bright Red") (Some "#f15060") (Some 0%float).
Definition unknown : Color := mkColor None None None.

(** A sketch on a blank context whose generator will return the given
    numbers. *)
Definition sketch (draws : list float) : Sketch (list float) := (blank, draws).

(** * Properties *)

(** ** The pixel loop *)

Lemma for4_step {S : Type} (len : nat) (body : nat -> S -> S) (i : nat) (s : S) :
  for4 len body i s
  = if decide (i < len)%nat then for4 len body (i + 4)%nat (body i s) else s.
Proof.
  rewrite for4_equation_1.
  destruct (decide (i < len)%nat);
    [apply for4_clause_1_equation_1 | apply for4_clause_1_equation_2].
Qed.

Section PixelLoop.

Context {G : Type}.
Variable body : nat -> list Z * G -> list Z * G.
Variable F : G -> nat -> Z -> Z.
Variable next : G -> G.

(** One iteration rewrites the four elements from [i] on, each from its
    own old value and the generator, and steps the generator. *)
Hypothesis body_lookup : forall i px g (j : nat),
  fst (body i (px, g)) !! j
  = if decide (i <= j < i + 4)%nat then F g (j - i) <$> px !! j else px !! j.
Hypothesis body_next : forall i px g, snd (body i (px, g)) = next g.

Lemma body_length i px g : length (fst (body i (px, g))) = length px.
Proof.
  destruct (Nat.lt_trichotomy (length (fst (body i (px, g)))) (length px))
    as [Hlt | [Heq | Hgt]]; [exfalso | exact Heq | exfalso].
  - apply lookup_lt_is_Some_2 in Hlt as [x Hx].
    pose proof (body_lookup i px g (length (fst (body i (px, g))))) as H.
    rewrite lookup_ge_None_2 in H by lia.
    rewrite Hx in H. case_decide; simplify_eq/=.
  - apply lookup_lt_is_Some_2 in Hgt as [x Hx].
    pose proof (body_lookup i px g (length px)) as H.
    rewrite Hx, (lookup_ge_None_2 px) in H by lia.
    case_decide; simplify_eq/=.
Qed.

Lemma for4_pixels (n : nat) : forall i px g,
  (length px - i <= n)%nat ->
  let out := for4 (length px) body i (px, g) in
  (forall j : nat, fst out !! j
     = if decide (i <= j)%nat
       then F (Nat.iter ((j - i) / 4) next g) ((j - i) mod 4) <$> px !! j
       else px !! j)
  /\ snd out = Nat.iter ((length px - i + 3) / 4) next g.
Proof.
  induction n as [|n IH]; intros i px g Hn; rewrite for4_step.
  - destruct (decide (i < length px)%nat) as [Hlt | Hge]; [lia |]. cbn [fst snd].
    split.
    + intros j. case_decide; [| done].
      rewrite lookup_ge_None_2 by lia. done.
    + replace ((length px - i + 3) / 4)%nat with 0%nat; [done |].
      symmetry. apply Nat.div_small. lia.
  - destruct (decide (i < length px)%nat) as [Hlt | Hge]; cbn [fst snd].
    + destruct (body i (px, g)) as [px1 g1] eqn:Hb.
      assert (Hlen : length px1 = length px).
      { pose proof (body_length i px g) as H. by rewrite Hb in H. }
      assert (Hg1 : g1 = next g).
      { pose proof (body_next i px g) as H. by rewrite Hb in H. }
      assert (Hpx1 : forall j : nat, px1 !! j
        = if decide (i <= j < i + 4)%nat then F g (j - i) <$> px !! j else px !! j).
      { intros j. pose proof (body_lookup i px g j) as H. by rewrite Hb in H. }
      rewrite <- Hlen.
      destruct (IH (i + 4)%nat px1 g1 ltac:(lia)) as [IH1 IH2].
      split.
      * intros j. rewrite IH1, Hpx1. subst g1.
        destruct (decide (i + 4 <= j)%nat) as [H4 | H4].
        -- rewrite decide_False by lia. rewrite decide_True by lia.
           rewrite <- Nat.iter_succ_r.
           replace (S ((j - (i + 4)) / 4)) with ((j - i) / 4)%nat.
           2:{ replace (j - i)%nat with (1 * 4 + (j - (i + 4)))%nat by lia.
               rewrite Nat.div_add_l by lia. lia. }
           replace ((j - (i + 4)) mod 4)%nat with ((j - i) mod 4)%nat.
           2:{ replace (j - i)%nat with ((j - (i + 4)) + 1 * 4)%nat by lia.
               by rewrite Nat.Div0.mod_add. }
           done.
        -- destruct (decide (i <= j)%nat) as [Hij | Hij].
           ++ rewrite decide_True by lia.
              rewrite (Nat.div_small (j - i) 4) by lia.
              rewrite (Nat.mod_small (j - i) 4) by lia. done.
           ++ rewrite decide_False by lia. done.
      * rewrite IH2, Hlen. subst g1. rewrite <- Nat.iter_succ_r.
        f_equal.
        destruct (decide (length px <= i + 4)%nat) as [Hlast | Hmore].
        -- replace (length px - (i + 4) + 3)%nat with 3%nat by lia.
           replace (length px - i + 3)%nat with (1 * 4 + (length px - i - 1))%nat by lia.
           rewrite Nat.div_add_l by lia.
           rewrite (Nat.div_small (length px - i - 1)) by lia. done.
        -- replace (length px - i + 3)%nat
             with (1 * 4 + (length px - (i + 4) + 3))%nat by lia.
           rewrite Nat.div_add_l by lia. lia.
    + split.
      * intros j. case_decide; [| done].
        rewrite lookup_ge_None_2 by lia. done.
      * replace ((length px - i + 3) / 4)%nat with 0%nat; [done |].
        symmetry. apply Nat.div_small. lia.
Qed.

End PixelLoop.

(** ** Reads and writes of the array *)

Lemma lookup_set (a : list Z) (i j : nat) (x : float) :
  Js.set a i x !! j
  = if decide (i = j) then (fun _ => Js.toUint8Clamp x) <$> a !! j else a !! j.
Proof.
  unfold Js.set. rewrite list_lookup_insert.
  destruct (decide (i = j)) as [-> | Hne].
  - destruct (decide (j < length a)%nat) as [Hlt | Hge].
    + rewrite decide_True by done.
      apply lookup_lt_is_Some_2 in Hlt as [b ->]. done.
    + rewrite decide_False by tauto.
      rewrite lookup_ge_None_2 by lia. done.
  - rewrite decide_False by tauto. done.
Qed.

Lemma get_set_ne (a : list Z) (i j : nat) (x : float) :
  i <> j -> Js.get (Js.set a i x) j = Js.get a j.
Proof.
  intros Hne. unfold Js.get. rewrite lookup_set.
  rewrite decide_False by done. done.
Qed.

Lemma get_lookup (a : list Z) (i : nat) (b : Z) :
  a !! i = Some b -> Js.get a i = Js.ofByte b.
Proof. unfold Js.get. by intros ->. Qed.

(** ** The four loop bodies, element by element *)

Ltac offset_cases i j :=
  let c := fresh "c" in
  let Hc := fresh "Hc" in
  destruct (decide (i <= j < i + 4)%nat) as [Hc | Hc];
  [ assert (exists c : nat, j = (i + c)%nat /\ (c < 4)%nat) as (c & -> & ?)
      by (exists (j - i)%nat; lia);
    replace (i + c - i)%nat with c by lia;
    destruct c as [|[|[|[|?]]]]; [| | | | lia]
  | ].

Ltac body_lookup_tac :=
  rewrite ?lookup_set, ?Nat.add_0_r;
  repeat (rewrite get_set_ne by lia);
  repeat (rewrite decide_False by lia);
  repeat (rewrite decide_True by lia);
  repeat (rewrite decide_False by lia);
  try done.

Ltac pixel_value_tac px :=
  match goal with
  | |- context [px !! ?k] =>
      let b := fresh "b" in
      let Hb := fresh "Hb" in
      destruct (px !! k) as [b|] eqn:Hb; cbn [fmap option_fmap option_map];
      [ rewrite ?Nat.add_0_r in *; try rewrite (get_lookup _ _ _ Hb); done | done ]
  end.

Section Bodies.

Context {G : Type}.
Variable range : float -> float -> G -> float * G.

Lemma colorGrainBody_lookup i px g (j : nat) :
  fst (colorGrainBody range i (px, g)) !! j
  = if decide (i <= j < i + 4)%nat
    then colorPixel range g (j - i) <$> px !! j else px !! j.
Proof.
  unfold colorGrainBody, colorPixel, draw, after. cbv [Nat.iter nat_rect].
  destruct (range (-25) 25 g) as [d0 g1]. cbn [fst snd].
  destruct (range (-25) 25 g1) as [d1 g2]. cbn [fst snd].
  destruct (range (-25) 25 g2) as [d2 g3]. cbn [fst snd].
  offset_cases i j; body_lookup_tac; pixel_value_tac px.
Qed.

Lemma colorGrainBody_next i px g :
  snd (colorGrainBody range i (px, g)) = after range (-25) 25 3 g.
Proof.
  unfold colorGrainBody, after. cbv [Nat.iter nat_rect].
  destruct (range (-25) 25 g) as [d0 g1]. cbn [fst snd].
  destruct (range (-25) 25 g1) as [d1 g2]. cbn [fst snd].
  destruct (range (-25) 25 g2) as [d2 g3]. done.
Qed.

Lemma parallelGrainBody_lookup i px g (j : nat) :
  fst (parallelGrainBody range i (px, g)) !! j
  = if decide (i <= j < i + 4)%nat
    then parallelPixel range g (j - i) <$> px !! j else px !! j.
Proof.
  unfold parallelGrainBody, parallelPixel, draw, after. cbv [Nat.iter nat_rect].
  destruct (range (-15) 15 g) as [d0 g1]. cbn [fst snd].
  offset_cases i j; body_lookup_tac; pixel_value_tac px.
Qed.

Lemma parallelGrainBody_next i px g :
  snd (parallelGrainBody range i (px, g)) = after range (-15) 15 1 g.
Proof.
  unfold parallelGrainBody, after. cbv [Nat.iter nat_rect].
  destruct (range (-15) 15 g) as [d0 g1]. done.
Qed.

Lemma redGrainBody_lookup i px g (j : nat) :
  fst (redGrainBody range i (px, g)) !! j
  = if decide (i <= j < i + 4)%nat
    then redPixel range g (j - i) <$> px !! j else px !! j.
Proof.
  unfold redGrainBody, redPixel, draw, after. cbv [Nat.iter nat_rect].
  destruct (range 50 100 g) as [d0 g1]. cbn [fst snd].
  offset_cases i j; body_lookup_tac; pixel_value_tac px.
Qed.

Lemma redGrainBody_next i px g :
  snd (redGrainBody range i (px, g)) = after range 50 100 1 g.
Proof.
  unfold redGrainBody, after. cbv [Nat.iter nat_rect].
  destruct (range 50 100 g) as [d0 g1]. done.
Qed.

Lemma invertBody_lookup i px (g : G) (j : nat) :
  fst (invertBody i (px, g)) !! j
  = if decide (i <= j < i + 4)%nat
    then invertPixel (j - i) <$> px !! j else px !! j.
Proof.
  unfold invertBody, invertPixel. cbn [fst snd].
  offset_cases i j; body_lookup_tac; pixel_value_tac px.
Qed.

Lemma invertBody_next i px (g : G) : snd (invertBody i (px, g)) = g.
Proof. done. Qed.

End Bodies.

(** ** The four loops *)

Section Loops.

Context {G : Type}.
Variable range : float -> float -> G -> float * G.

Lemma after_iter lo hi (m k : nat) (g : G) :
  Nat.iter k (after range lo hi m) g = after range lo hi (m * k) g.
Proof.
  induction k as [|k IH].
  - by rewrite Nat.mul_0_r.
  - rewrite Nat.iter_succ, IH. unfold after.
    rewrite <- Nat.iter_add. f_equal. lia.
Qed.

Lemma iter_id (k : nat) (g : G) : Nat.iter k (fun g' : G => g') g = g.
Proof. induction k as [|k IH]; [done | by rewrite Nat.iter_succ]. Qed.

Lemma colorLoop px g :
  let out := for4 (length px) (colorGrainBody range) 0%nat (px, g) in
  (forall j : nat, fst out !! j
     = colorPixel range (after range (-25) 25 (3 * (j / 4)) g) (j mod 4) <$> px !! j)
  /\ snd out = after range (-25) 25 (3 * passes (length px)) g.
Proof.
  destruct (for4_pixels (colorGrainBody range) (colorPixel range)
              (after range (-25) 25 3) (colorGrainBody_lookup range)
              (colorGrainBody_next range) (length px) 0%nat px g ltac:(lia))
    as [H1 H2].
  split.
  - intros j. rewrite H1, decide_True by lia.
    by rewrite Nat.sub_0_r, after_iter.
  - rewrite H2, Nat.sub_0_r. apply after_iter.
Qed.

Lemma parallelLoop px g :
  let out := for4 (length px) (parallelGrainBody range) 0%nat (px, g) in
  (forall j : nat, fst out !! j
     = parallelPixel range (after range (-15) 15 (j / 4) g) (j mod 4) <$> px !! j)
  /\ snd out = after range (-15) 15 (passes (length px)) g.
Proof.
  destruct (for4_pixels (parallelGrainBody range) (parallelPixel range)
              (after range (-15) 15 1) (parallelGrainBody_lookup range)
              (parallelGrainBody_next range) (length px) 0%nat px g ltac:(lia))
    as [H1 H2].
  split.
  - intros j. rewrite H1, decide_True by lia.
    by rewrite Nat.sub_0_r, after_iter, Nat.mul_1_l.
  - rewrite H2, Nat.sub_0_r, after_iter. by rewrite Nat.mul_1_l.
Qed.

Lemma redLoop px g :
  let out := for4 (length px) (redGrainBody range) 0%nat (px, g) in
  (forall j : nat, fst out !! j
     = redPixel range (after range 50 100 (j / 4) g) (j mod 4) <$> px !! j)
  /\ snd out = after range 50 100 (passes (length px)) g.
Proof.
  destruct (for4_pixels (redGrainBody range) (redPixel range)
              (after range 50 100 1) (redGrainBody_lookup range)
              (redGrainBody_next range) (length px) 0%nat px g ltac:(lia))
    as [H1 H2].
  split.
  - intros j. rewrite H1, decide_True by lia.
    by rewrite Nat.sub_0_r, after_iter, Nat.mul_1_l.
  - rewrite H2, Nat.sub_0_r, after_iter. by rewrite Nat.mul_1_l.
Qed.

Lemma invertLoop px (g : G) :
  let out := for4 (length px) invertBody 0%nat (px, g) in
  (forall j : nat, fst out !! j = invertPixel (j mod 4) <$> px !! j)
  /\ snd out = g.
Proof.
  destruct (for4_pixels invertBody (fun _ : G => invertPixel) (fun g' : G => g')
              invertBody_lookup invertBody_next (length px) 0%nat px g ltac:(lia))
    as [H1 H2].
  split.
  - intros j. rewrite H1, decide_True by lia. by rewrite Nat.sub_0_r.
  - rewrite H2. apply iter_id.
Qed.

End Loops.

(** ** Numbers *)

(** A property of bytes that a computation decides holds of every byte
    once it is evaluated on the 256 of them. *)
Lemma for_all_bytes (P : Z -> bool) :
  forallb P (seqZ 0 256) = true -> forall b, Js.isByte b -> P b = true.
Proof.
  intros Hall b [Hlo Hhi].
  rewrite forallb_forall in Hall. apply Hall.
  apply list_elem_of_In, elem_of_seqZ. lia.
Qed.

(** [255 - a[i]] is computed exactly, and is a byte again. *)
Lemma invert_byte b : Js.isByte b -> Js.toUint8Clamp (255 - Js.ofByte b) = 255 - b.
Proof.
  intros Hb.
  apply Z.eqb_eq.
  apply (for_all_bytes (fun b => Js.toUint8Clamp (255 - Js.ofByte b) =? 255 - b)); [| done].
  vm_compute. reflexivity.
Qed.

(** An integer shift that keeps the sum a byte is stored as it is. *)
Lemma shift_byte b n :
  Js.isByte b -> -15 <= n <= 15 -> Js.isByte (b + n) ->
  Js.toUint8Clamp (Js.ofByte b + Js.ofZ n) = b + n.
Proof.
  intros Hb Hn Hbn.
  assert (Hn' : Js.isByte (n + 15)) by (unfold Js.isByte in *; lia).
  pose proof (for_all_bytes
    (fun b => forallb (fun m =>
       let n := m - 15 in
       negb ((0 <=? b + n) && (b + n <=? 255) && (n <=? 15))
       || (Js.toUint8Clamp (Js.ofByte b + Js.ofZ n) =? b + n)) (seqZ 0 256))
    ltac:(vm_compute; reflexivity) b Hb) as H.
  cbv beta in H.
  pose proof (for_all_bytes _ H (n + 15) Hn') as H'.
  cbv beta zeta in H'. replace (n + 15 - 15) with n in H' by lia.
  unfold Js.isByte in *.
  apply orb_true_iff in H' as [H' | H'].
  - apply negb_true_iff, andb_false_iff in H' as [H' | H'];
      [apply andb_false_iff in H' as [H' | H'] |]; lia.
  - by apply Z.eqb_eq.
Qed.

(** *** binary64 values *)

Lemma digits2_pos_bounds (m : positive) :
  2 ^ (Zpos (digits2_pos m) - 1) <= Zpos m < 2 ^ Zpos (digits2_pos m).
Proof.
  induction m as [m IH | m IH |]; cbn [digits2_pos].
  - rewrite Pos2Z.inj_succ, Z.pow_succ_r by lia.
    replace (Z.succ (Zpos (digits2_pos m)) - 1)
      with (Z.succ (Zpos (digits2_pos m) - 1)) by lia.
    rewrite Z.pow_succ_r by lia. lia.
  - rewrite Pos2Z.inj_succ, Z.pow_succ_r by lia.
    replace (Z.succ (Zpos (digits2_pos m)) - 1)
      with (Z.succ (Zpos (digits2_pos m) - 1)) by lia.
    rewrite Z.pow_succ_r by lia. lia.
  - cbn. lia.
Qed.

(** A finite binary64 value has at most 53 digits, an exponent no
    smaller than -1074, and 53 digits unless the exponent is -1074. *)
Lemma finite_canonical (x : float) s m e :
  Prim2SF x = S754_finite s m e ->
  Zpos (digits2_pos m) <= 53 /\ -1074 <= e <= 971
  /\ (e = -1074 \/ Zpos (digits2_pos m) = 53).
Proof.
  intros Hx. pose proof (Prim2SF_valid x) as Hv. rewrite Hx in Hv.
  cbn [valid_binary] in Hv. unfold bounded, canonical_mantissa, fexp in Hv.
  apply andb_true_iff in Hv as [Hc He].
  apply Z.eqb_eq in Hc. apply Z.leb_le in He.
  change (SpecFloat.emin prec emax) with (-1074) in Hc.
  unfold prec, emax in *. lia.
Qed.

Lemma finite_mantissa_lt (x : float) s m e :
  Prim2SF x = S754_finite s m e -> Zpos m < 2 ^ 53.
Proof.
  intros Hx. destruct (finite_canonical x s m e Hx) as (Hd & _ & _).
  pose proof (digits2_pos_bounds m) as [_ Hm].
  eapply Z.lt_le_trans; [exact Hm |].
  apply Z.pow_le_mono_r; lia.
Qed.

(** What a store keeps is a byte, whatever the number. *)
Lemma toUint8Clamp_byte (x : float) : Js.isByte (Js.toUint8Clamp x).
Proof.
  unfold Js.toUint8Clamp, Js.isByte.
  destruct (PrimFloat.is_nan x); [lia |].
  destruct (x <=? 0)%float eqn:H0; [lia |].
  destruct (255 <=? x)%float eqn:H255; [lia |].
  assert (Hf : 0 <= Js.floorZ x <= 254).
  { rewrite leb_spec in H0, H255. unfold Js.floorZ.
    change (Prim2SF 0) with (S754_zero false) in H0.
    change (Prim2SF 255) with (S754_finite false 8972014882652160 (-45)) in H255.
    destruct (Prim2SF x) as [sx | sx | | sx m e] eqn:Hx; try lia.
    pose proof (finite_mantissa_lt x sx m e Hx) as Hm.
    destruct sx; [done |].
    unfold SFleb, SFcompare in H255.
    destruct (Z.compare_spec (-45) e) as [He | He | He]; [| done |].
    - subst e.
      change (PosDef.Pos.compare_cont Eq 8972014882652160 m)
        with (Pos.compare 8972014882652160 m) in H255.
      destruct (Pos.compare_spec 8972014882652160 m) as [Hc | Hc | Hc]; try done.
      apply Pos2Z.pos_lt_pos in Hc.
      change (Z.shiftl (Zpos m) (-45)) with (Z.shiftr (Zpos m) 45).
      rewrite Z.shiftr_div_pow2 by lia.
      split; [apply Z.div_pos; lia |].
      assert (Zpos m / 2 ^ 45 < 255) by (apply Z.div_lt_upper_bound; lia). lia.
    - destruct e as [| pe | pe]; try lia.
      change (Z.shiftl (Zpos m) (Zneg pe)) with (Z.shiftr (Zpos m) (Zpos pe)).
      rewrite Z.shiftr_div_pow2 by lia.
      split; [apply Z.div_pos; lia |].
      assert (Zpos m / 2 ^ Zpos pe < 128); [| lia].
      apply Z.div_lt_upper_bound; [lia |].
      assert (2 ^ 46 <= 2 ^ Zpos pe) by (apply Z.pow_le_mono_r; lia).
      lia. }
  destruct (x <? Js.ofByte (Js.floorZ x) + 0.5)%float; [lia |].
  destruct (Js.ofByte (Js.floorZ x) + 0.5 <? x)%float; [lia |].
  destruct (Z.even (Js.floorZ x)); lia.
Qed.

(** *** Integers as binary64 values *)

Lemma iter_xO_value (p k : positive) : Zpos (Pos.iter xO p k) = Zpos p * 2 ^ Zpos k.
Proof.
  induction k as [|k IH] using Pos.peano_ind.
  - cbn [Pos.iter]. rewrite Pos2Z.inj_xO. change (2 ^ 1) with 2. lia.
  - rewrite Pos.iter_succ, Pos2Z.inj_xO, IH, Pos2Z.inj_succ, Z.pow_succ_r by lia.
    ring.
Qed.

Lemma iter_xO_digits (p k : positive) :
  digits2_pos (Pos.iter xO p k) = (digits2_pos p + k)%positive.
Proof.
  induction k as [|k IH] using Pos.peano_ind.
  - cbn [Pos.iter digits2_pos]. by rewrite Pos.add_1_r.
  - rewrite Pos.iter_succ. cbn [digits2_pos]. by rewrite IH, Pos.add_succ_r.
Qed.

Lemma digits2_pos_le (p : positive) (k : Z) :
  Zpos p < 2 ^ k -> Zpos (digits2_pos p) <= k.
Proof.
  intros Hp. pose proof (digits2_pos_bounds p) as [Hlo _].
  destruct (Z.le_gt_cases (Zpos (digits2_pos p)) k) as [| Hgt]; [done |].
  assert (2 ^ k <= 2 ^ (Zpos (digits2_pos p) - 1)) by (apply Z.pow_le_mono_r; lia).
  lia.
Qed.

(** A mantissa already in canonical form is not rounded. *)
Lemma binary_round_aux_exact (s : bool) (m : positive) (e : Z) :
  canonical_mantissa prec emax m e = true -> e <= 971 ->
  binary_round_aux prec emax s (Zpos m) e loc_Exact = S754_finite s m e.
Proof.
  intros Hc He. unfold canonical_mantissa in Hc. apply Z.eqb_eq in Hc.
  unfold binary_round_aux, shr_fexp. cbn [Zdigits2 shr_record_of_loc].
  rewrite Hc, Z.sub_diag. cbn [shr shr_m loc_of_shr_record round_nearest_even Zdigits2].
  rewrite Hc, Z.sub_diag. cbn [shr shr_m].
  replace (e <=? emax - prec) with true; [done |].
  symmetry. apply Z.leb_le. unfold emax, prec. lia.
Qed.

(** The number of a positive integer below 2^53 is that integer: a
    mantissa [m] and an exponent [e <= 0] with [m = n * 2^(-e)]. *)
Lemma Prim2SF_ofZ (n : Z) :
  0 < n < 2 ^ 53 ->
  exists m e, Prim2SF (Js.ofZ n) = S754_finite false m e
    /\ e <= 0 /\ Zpos m = n * 2 ^ (- e).
Proof.
  intros Hn. destruct n as [| p | p]; try lia.
  unfold Js.ofZ. rewrite of_uint63_spec, Uint63.of_Z_spec.
  rewrite Z.mod_small by (change Uint63.wB with (2 ^ 63); lia).
  cbn [binary_normalize]. unfold binary_round, shl_align, fexp.
  change (SpecFloat.emin prec emax) with (-1074). unfold prec.
  pose proof (digits2_pos_le p 53 ltac:(lia)) as Hd.
  set (d := Zpos (digits2_pos p)) in *.
  assert (0 < d) by (subst d; lia).
  rewrite Z.max_l by lia.
  destruct (d + 0 - 53 - 0) as [| k | k] eqn:Hk; try lia.
  - exists p, 0. split; [| split; [lia | cbn; lia]].
    apply binary_round_aux_exact; [| lia].
    unfold canonical_mantissa, fexp. apply Z.eqb_eq.
    change (SpecFloat.emin prec emax) with (-1074). unfold prec. fold d. lia.
  - exists (Pos.iter xO p k), (d + 0 - 53). split; [| split; [lia |]].
    + apply binary_round_aux_exact; [| lia].
      unfold canonical_mantissa, fexp. apply Z.eqb_eq.
      change (SpecFloat.emin prec emax) with (-1074). unfold prec.
      rewrite iter_xO_digits, Pos2Z.inj_add. fold d. lia.
    + rewrite iter_xO_value. f_equal. f_equal. lia.
Qed.

Lemma ofZ_integral (n : Z) :
  0 < n < 2 ^ 53 ->
  Js.isIntegral (Js.ofZ n) = true /\ Js.floorZ (Js.ofZ n) = n
  /\ exists m e, Prim2SF (Js.ofZ n) = S754_finite false m e.
Proof.
  intros Hn. destruct (Prim2SF_ofZ n Hn) as (m & e & Hx & He & Hm).
  unfold Js.isIntegral, Js.floorZ. rewrite Hx. split; [| split; [| eauto]].
  - apply orb_true_iff. right. apply Z.eqb_eq.
    rewrite Z.land_ones by lia. rewrite Hm. apply Z.mod_mul.
    apply Z.pow_nonzero; lia.
  - rewrite Z.shiftl_div_pow2 by lia. rewrite Hm. apply Z.div_mul.
    apply Z.pow_nonzero; lia.
Qed.

(** Its mantissa has all 53 digits. *)
Lemma Prim2SF_ofZ_normal (n : Z) :
  0 < n < 2 ^ 53 ->
  exists m e, Prim2SF (Js.ofZ n) = S754_finite false m e
    /\ e <= 0 /\ Zpos m = n * 2 ^ (- e) /\ 2 ^ 52 <= Zpos m < 2 ^ 53.
Proof.
  intros Hn. destruct (Prim2SF_ofZ n Hn) as (m & e & Hx & He & Hm).
  exists m, e. split; [done |]. split; [done |]. split; [done |].
  pose proof (finite_mantissa_lt _ _ _ _ Hx) as Hlt.
  split; [| done].
  destruct (finite_canonical _ _ _ _ Hx) as (_ & _ & [-> | Hd]).
  - exfalso.
    assert (2 ^ 53 <= 2 ^ (- -1074)) by (apply Z.pow_le_mono_r; lia).
    nia.
  - pose proof (digits2_pos_bounds m) as [Hlo _]. rewrite Hd in Hlo. exact Hlo.
Qed.

(** *** Rounding of a product *)

Lemma shr_1_spec (mrs : shr_record) :
  0 <= shr_m mrs ->
  shr_m (shr_1 mrs) = shr_m mrs / 2 /\ shr_r (shr_1 mrs) = Z.odd (shr_m mrs).
Proof.
  destruct mrs as [m r s]. cbn [shr_m]. intros Hm.
  destruct m as [| [p | p |] | p]; cbn [shr_1 shr_m shr_r]; try lia.
  - done.
  - split; [| done]. rewrite Pos2Z.inj_xI.
    apply (Z.div_unique _ 2 _ 1); lia.
  - split; [| done]. rewrite Pos2Z.inj_xO.
    apply (Z.div_unique _ 2 _ 0); lia.
  - done.
Qed.

Lemma iter_pos_shr_1 (p : positive) : forall mrs : shr_record,
  0 <= shr_m mrs ->
  shr_m (SpecFloat.iter_pos shr_1 p mrs) = shr_m mrs / 2 ^ Zpos p
  /\ shr_r (SpecFloat.iter_pos shr_1 p mrs) = Z.testbit (shr_m mrs) (Zpos p - 1).
Proof.
  induction p as [p IH | p IH |]; intros mrs Hm; cbn [SpecFloat.iter_pos].
  - destruct (shr_1_spec mrs Hm) as [H1 _].
    assert (H1' : 0 <= shr_m (shr_1 mrs)) by (rewrite H1; apply Z.div_pos; lia).
    destruct (IH _ H1') as [H2 _].
    assert (H2' : 0 <= shr_m (SpecFloat.iter_pos shr_1 p (shr_1 mrs))).
    { rewrite H2. apply Z.div_pos; lia. }
    destruct (IH _ H2') as [H3 H4].
    rewrite H3, H4, H2, H1. split.
    + rewrite !Z.div_div by lia. f_equal.
      replace (Zpos p~1) with (1 + Zpos p + Zpos p) by lia.
      rewrite !Z.pow_add_r by lia. change (2 ^ 1) with 2. ring.
    + rewrite Z.div_pow2_bits by lia.
      change 2 with (2 ^ 1) at 1. rewrite Z.div_pow2_bits by lia.
      f_equal. lia.
  - destruct (IH _ Hm) as [H2 _].
    assert (H2' : 0 <= shr_m (SpecFloat.iter_pos shr_1 p mrs)).
    { rewrite H2. apply Z.div_pos; lia. }
    destruct (IH _ H2') as [H3 H4].
    rewrite H3, H4, H2. split.
    + rewrite Z.div_div by lia. f_equal.
      rewrite <- Z.pow_add_r by lia. f_equal. lia.
    + rewrite Z.div_pow2_bits by lia. f_equal. lia.
  - destruct (shr_1_spec mrs Hm) as [H1 H2]. rewrite H1, H2.
    split; [done |]. symmetry. apply Z.bit0_odd.
Qed.

(** [shr]: a mantissa shifted right by [n] digits, the exponent raised
    by as much; the round bit is the last digit shifted out. *)
Lemma shr_spec (m e n : Z) :
  0 <= m ->
  let mrs := fst (shr (Build_shr_record m false false) e n) in
  snd (shr (Build_shr_record m false false) e n) = e + Z.max 0 n
  /\ shr_m mrs = m / 2 ^ Z.max 0 n
  /\ (0 < n -> shr_r mrs = Z.testbit m (n - 1))
  /\ (n <= 0 -> mrs = Build_shr_record m false false).
Proof.
  intros Hm. destruct n as [| p | p]; cbn [shr fst snd].
  - rewrite Z.max_l by lia. rewrite Z.div_1_r. cbn [shr_m].
    split; [lia |]. split; [done |]. split; [lia | done].
  - rewrite Z.max_r by lia.
    destruct (iter_pos_shr_1 p (Build_shr_record m false false) Hm) as [H1 H2].
    cbn [shr_m] in H1, H2.
    split; [done |]. split; [done |]. split; [done | lia].
  - rewrite Z.max_l by lia. rewrite Z.div_1_r. cbn [shr_m].
    split; [lia |]. split; [done |]. split; [lia | done].
Qed.

Lemma round_nearest_even_bounds (mrs : shr_record) :
  let m1 := round_nearest_even (shr_m mrs) (loc_of_shr_record mrs) in
  shr_m mrs <= m1 <= shr_m mrs + 1
  /\ (shr_r mrs = false -> m1 = shr_m mrs).
Proof.
  destruct mrs as [m [|] [|]]; cbn; try destruct (Z.even m); lia.
Qed.

Lemma Zdigits2_le (z k : Z) : 0 <= z < 2 ^ k -> 0 <= k -> Zdigits2 z <= k.
Proof.
  intros Hz Hk. destruct z as [| p | p]; cbn [Zdigits2]; try lia.
  apply digits2_pos_le. lia.
Qed.

Lemma pow2_split (a b : Z) : 0 <= a -> 0 <= b -> 2 ^ (a + b) = 2 ^ a * 2 ^ b.
Proof. intros. by apply Z.pow_add_r. Qed.

Lemma round_product (m : positive) (e : Z) :
  Zpos (digits2_pos m) <= 53 -> -1074 <= e <= -52 -> Zpos m < 2 ^ (- e) ->
  match binary_round_aux prec emax false (Zpos (m * millionMantissa)) (e + -33) loc_Exact with
  | S754_zero s => s = false
  | S754_finite s mf ef => s = false /\ 0 <= Z.shiftl (Zpos mf) ef <= 999999
  | _ => False
  end.
Proof.
  intros Hdm He Hm.
  unfold binary_round_aux, shr_fexp. cbn [Zdigits2 shr_record_of_loc].
  unfold fexp. change (SpecFloat.emin prec emax) with (-1074).
  unfold prec, emax.
  set (k := - e) in *. assert (Hk : 52 <= k <= 1074) by lia.
  set (C := Zpos millionMantissa).
  assert (HC : 2 ^ 52 < C < 2 ^ 53) by (subst C; unfold millionMantissa; lia).
  assert (HC33 : C = 1000000 * 2 ^ 33) by reflexivity.
  set (P := Zpos (m * millionMantissa)) in *.
  assert (HP : P = Zpos m * C) by (subst P C; lia).
  assert (Hm53 : Zpos m < 2 ^ 53).
  { pose proof (digits2_pos_bounds m) as [_ H].
    eapply Z.lt_le_trans; [exact H | apply Z.pow_le_mono_r; lia]. }
  assert (H2k : 0 < 2 ^ k) by (apply Z.pow_pos_nonneg; lia).
  assert (HPlt : P <= (2 ^ k - 1) * C).
  { rewrite HP. apply Z.mul_le_mono_nonneg_r; lia. }
  assert (HPge : C <= P).
  { rewrite HP. assert (1 * C <= Zpos m * C); [| lia].
    apply Z.mul_le_mono_nonneg_r; lia. }
  set (d := Zpos (digits2_pos (m * millionMantissa))) in *.
  pose proof (digits2_pos_bounds (m * millionMantissa)) as [Hdlo Hdhi].
  fold d P in Hdlo, Hdhi.
  assert (Hd53 : 53 <= d).
  { destruct (Z.le_gt_cases 53 d) as [| Hlt]; [done |].
    assert (2 ^ d <= 2 ^ 52) by (apply Z.pow_le_mono_r; lia). lia. }
  assert (Hdk : d <= 53 + k).
  { destruct (Z.le_gt_cases d (53 + k)) as [| Hgt]; [done |].
    assert (2 ^ (53 + k) <= 2 ^ (d - 1)) by (apply Z.pow_le_mono_r; lia).
    rewrite pow2_split in H by lia.
    assert ((2 ^ k - 1) * C < 2 ^ 53 * 2 ^ k); [| lia].
    assert (2 ^ k * C < 2 ^ k * 2 ^ 53) by (apply Z.mul_lt_mono_pos_l; lia).
    lia. }
  set (E := e + -33) in *.
  set (n1 := Z.max (d + E - 53) (-1074) - E) in *.
  pose proof (shr_spec P E n1 ltac:(lia)) as Hs1. cbv zeta in Hs1.
  destruct (shr {| shr_m := P; shr_r := false; shr_s := false |} E n1)
    as [mrs' e'] eqn:Hshr1.
  cbn [fst snd] in Hs1. destruct Hs1 as (He' & Hq & Hr & _).
  pose proof (round_nearest_even_bounds mrs') as Hrne. cbv zeta in Hrne.
  set (m1 := round_nearest_even (shr_m mrs') (loc_of_shr_record mrs')) in *.
  destruct Hrne as [Hm1 Hm1r].
  set (n := Z.max 0 n1) in *.
  assert (Hn : 0 <= n /\ d - 53 <= n /\ e' = E + n /\ -1074 <= e' <= -33)
    by (subst n n1 E k; lia).
  destruct Hn as (Hn0 & Hnd & He'n & He'r).
  assert (H2n : 0 < 2 ^ n) by (apply Z.pow_pos_nonneg; lia).
  assert (Hq0 : 0 <= shr_m mrs') by (rewrite Hq; apply Z.div_pos; lia).
  assert (Hq53 : shr_m mrs' < 2 ^ 53).
  { rewrite Hq. apply Z.div_lt_upper_bound; [lia |].
    assert (2 ^ d <= 2 ^ (n + 53)) by (apply Z.pow_le_mono_r; lia).
    rewrite pow2_split in H by lia. lia. }
  pose proof (shr_spec m1 e' (Z.max (Zdigits2 m1 + e' - 53) (-1074) - e')
                ltac:(lia)) as Hs2. cbv zeta in Hs2.
  set (n2 := Z.max (Zdigits2 m1 + e' - 53) (-1074) - e') in *.
  destruct (shr {| shr_m := m1; shr_r := false; shr_s := false |} e' n2)
    as [mrs'' e''] eqn:Hshr2.
  cbn [fst snd] in Hs2. destruct Hs2 as (He'' & Hmf & _ & _).
  assert (Hdm1 : Zdigits2 m1 <= 54).
  { apply Zdigits2_le; [| lia]. change (2 ^ 54) with (2 * 2 ^ 53). lia. }
  set (n2' := Z.max 0 n2) in *.
  assert (Hn2 : 0 <= n2' <= 1) by (subst n2' n2; lia).
  assert (H2n2 : 0 < 2 ^ n2') by (apply Z.pow_pos_nonneg; lia).
  assert (Hmf0 : 0 <= shr_m mrs'') by (rewrite Hmf; apply Z.div_pos; lia).
  destruct (shr_m mrs'') as [| mf | mf] eqn:Hmf'; [done | | lia].
  replace (e'' <=? 1024 - 53) with true by (symmetry; apply Z.leb_le; lia).
  split; [done |].
  rewrite Z.shiftl_div_pow2 by lia. rewrite Hmf.
  rewrite Z.div_div by (try apply Z.pow_pos_nonneg; lia).
  rewrite <- pow2_split by lia.
  replace (n2' + - e'') with (- e') by lia.
  assert (H2e : 0 < 2 ^ (- e')) by (apply Z.pow_pos_nonneg; lia).
  split; [apply Z.div_pos; lia |].
  destruct (Z.le_gt_cases e' (-34)) as [Hlow | Hhigh].
  - (* an exponent below that of 1000000: at most 2^53 * 2^-34 *)
    apply Z.div_le_upper_bound; [lia |].
    assert (2 ^ 34 <= 2 ^ (- e')) by (apply Z.pow_le_mono_r; lia).
    change (2 ^ 34) with 17179869184 in H.
    change (2 ^ 53) with 9007199254740992 in Hq53. lia.
  - (* the exponent of 1000000: the mantissa stays below its mantissa *)
    assert (He33 : e' = -33) by lia.
    assert (Hnk : n = k /\ n1 = k /\ d = 53 + k) by (subst n n1 E k; lia).
    destruct Hnk as (Hnk & Hn1k & Hdk').
    rewrite He33. change (- -33) with 33.
    assert (Hm1C : m1 <= C - 1);
      [| transitivity ((C - 1) / 2 ^ 33);
         [apply Z.div_le_mono; lia | subst C; reflexivity]].
    assert (HqC : shr_m mrs' < C).
    { rewrite Hq, Hnk. apply Z.div_lt_upper_bound; lia. }
    destruct (Z.eq_dec (shr_m mrs') (C - 1)) as [HqC1 | HqC1]; [| lia].
    rewrite Hm1r; [lia |].
    rewrite Hr by lia. rewrite Hn1k.
    assert (Hk53 : k <= 53).
    { destruct (Z.le_gt_cases k 53) as [| Hgt]; [done |].
      assert (2 ^ 53 <= 2 ^ (k - 1)) by (apply Z.pow_le_mono_r; lia).
      assert (Hpow : 2 ^ (d - 1) = 2 ^ 53 * 2 ^ (k - 1)).
      { rewrite <- pow2_split by lia. f_equal. lia. }
      assert (Zpos m * C < Zpos m * 2 ^ 53) by (apply Z.mul_lt_mono_pos_l; lia).
      assert (2 ^ 53 * 2 ^ (k - 1) < 2 ^ 53 * Zpos m) by lia.
      assert (2 ^ (k - 1) < Zpos m) by (apply (Z.mul_lt_mono_pos_l (2 ^ 53)); lia).
      lia. }
    assert (H2k1 : 2 ^ k = 2 * 2 ^ (k - 1)).
    { replace k with (1 + (k - 1)) at 1 by lia. rewrite pow2_split by lia. done. }
    assert (Hk152 : 2 ^ (k - 1) <= 2 ^ 52) by (apply Z.pow_le_mono_r; lia).
    assert (0 < 2 ^ (k - 1)) by (apply Z.pow_pos_nonneg; lia).
    pose proof (Z.div_mod P (2 ^ k) ltac:(lia)) as Hdiv.
    pose proof (Z.mod_pos_bound P (2 ^ k) ltac:(lia)) as Hrem.
    rewrite Hnk in Hq. rewrite <- Hq, HqC1 in Hdiv.
    set (rem := P mod 2 ^ k) in *.
    assert (Hrem' : rem < 2 ^ (k - 1)) by nia.
    apply Z.testbit_false; [lia |].
    replace (P / 2 ^ (k - 1)) with (2 * (C - 1)).
    + rewrite Z.mul_comm. apply Z.mod_mul. lia.
    + apply (Z.div_unique _ _ _ rem); [lia |]. rewrite Hdiv, H2k1. ring.
Qed.

(** ** addGrain *)

Lemma length_of_lookups {A B : Type} (f : nat -> A -> B) (l1 : list B) (l2 : list A) :
  (forall j : nat, l1 !! j = f j <$> l2 !! j) -> length l1 = length l2.
Proof.
  intros H.
  destruct (Nat.lt_trichotomy (length l1) (length l2)) as [Hlt | [Heq | Hgt]];
    [exfalso | exact Heq | exfalso].
  - apply lookup_lt_is_Some_2 in Hlt as [x Hx].
    specialize (H (length l1)). rewrite lookup_ge_None_2, Hx in H by lia. done.
  - apply lookup_lt_is_Some_2 in Hgt as [x Hx].
    specialize (H (length l2)). rewrite Hx, (lookup_ge_None_2 l2) in H by lia. done.
Qed.

Lemma mod4_cases (j : nat) :
  (j mod 4 = 0 \/ j mod 4 = 1 \/ j mod 4 = 2 \/ j mod 4 = 3)%nat.
Proof. pose proof (Nat.mod_upper_bound j 4). lia. Qed.

Lemma invertPixel_byte c b : Js.isByte b -> Js.isByte (invertPixel c b).
Proof.
  intros Hb. unfold invertPixel.
  destruct c as [|[|[|?]]]; try apply toUint8Clamp_byte. done.
Qed.

Lemma invertPixel_involutive c b :
  Js.isByte b -> invertPixel c (invertPixel c b) = b.
Proof.
  intros Hb. unfold invertPixel.
  destruct c as [|[|[|?]]]; try done;
    rewrite (invert_byte b Hb), invert_byte; unfold Js.isByte in *; lia.
Qed.

Lemma wellFormed_of_lookups (F : nat -> Z -> Z) (out px : list Z) :
  (forall j : nat, out !! j = F j <$> px !! j) ->
  (forall (j : nat) (b : Z), Js.isByte b -> Js.isByte (F j b)) ->
  Js.wellFormed px -> Js.wellFormed out.
Proof.
  intros Hout HF Hwf. apply Forall_lookup_2. intros j y Hy.
  rewrite Hout in Hy. destruct (px !! j) as [b|] eqn:Hb; [| done].
  cbn in Hy. injection Hy as <-. apply HF. eapply Forall_lookup_1; eauto.
Qed.

Lemma colorPixel_byte {G : Type} (range : float -> float -> G -> float * G) g c b :
  Js.isByte (colorPixel range g c b).
Proof. destruct c as [|[|[|?]]]; apply toUint8Clamp_byte. Qed.

Lemma parallelPixel_byte {G : Type} (range : float -> float -> G -> float * G) g c b :
  Js.isByte (parallelPixel range g c b).
Proof. destruct c as [|[|[|?]]]; apply toUint8Clamp_byte. Qed.

Lemma redPixel_byte {G : Type} (range : float -> float -> G -> float * G) g c b :
  Js.isByte b -> Js.isByte (redPixel range g c b).
Proof. intros Hb. destruct c as [|[|[|?]]]; try apply toUint8Clamp_byte. done. Qed.

Lemma not_a_mode (style : string) :
  style <> "colorful" -> style <> "parallel" -> style <> "red" ->
  style <> "invert" -> style ∉ modes.
Proof.
  intros H1 H2 H3 H4 Hin. apply list_elem_of_In in Hin.
  cbn [modes In] in Hin. intuition congruence.
Qed.

Section Properties.

Context {Ctx G M : Type}.
Variable getImageData : Ctx -> float -> float -> float -> float -> ImageData.
Variable putImageData : Ctx -> ImageData -> float -> float -> Ctx.
Variable range : float -> float -> G -> float * G.

Local Abbreviation grain := (@addGrain Ctx getImageData putImageData G range M).
Local Abbreviation pixelsOf := (inputPixels getImageData).

Lemma grainLoop_outcome body ctx img px (w : World G M) :
  let out := grainLoop putImageData body ctx img px w in
  let st := for4 (length px) body 0%nat (px, random w) in
  grainPixels out = fst st
  /\ random (world out) = snd st
  /\ math (world out) = math w
  /\ context out
     = putImageData ctx (mkImageData (width img) (height img) (fst st)) 0 0.
Proof.
  unfold grainLoop. destruct (for4 _ _ _ _) as [px' g']. done.
Qed.

Lemma mode_colorful ctx size (w : World G M) :
  grain ctx size (Some "colorful") w
  = grainLoop putImageData (colorGrainBody range) ctx
      (getImageData ctx 0 0 (fst size) (snd size)) (pixelsOf ctx size) w.
Proof. reflexivity. Qed.

Lemma mode_parallel ctx size (w : World G M) :
  grain ctx size (Some "parallel") w
  = grainLoop putImageData (parallelGrainBody range) ctx
      (getImageData ctx 0 0 (fst size) (snd size)) (pixelsOf ctx size) w.
Proof. reflexivity. Qed.

Lemma mode_red ctx size (w : World G M) :
  grain ctx size (Some "red") w
  = grainLoop putImageData (redGrainBody range) ctx
      (getImageData ctx 0 0 (fst size) (snd size)) (pixelsOf ctx size) w.
Proof. reflexivity. Qed.

Lemma mode_invert ctx size (w : World G M) :
  grain ctx size (Some "invert") w
  = grainLoop putImageData invertBody ctx
      (getImageData ctx 0 0 (fst size) (snd size)) (pixelsOf ctx size) w.
Proof. reflexivity. Qed.

Lemma invert_lookup ctx size (w : World G M) (j : nat) :
  grainPixels (grain ctx size (Some "invert") w) !! j
  = invertPixel (j mod 4) <$> pixelsOf ctx size !! j.
Proof.
  rewrite mode_invert.
  destruct (grainLoop_outcome invertBody ctx
              (getImageData ctx 0 0 (fst size) (snd size))
              (pixelsOf ctx size) w) as (-> & _).
  apply invertLoop.
Qed.

(** C1. In the mode "invert" every red, green and blue value [b] of the
    array becomes [255 - b] and every alpha value stays; the array keeps
    its length; inverting the result again gives the original array; and
    the 2x1 array [10,20,30,255, 200,200,200,0] becomes
    [245,235,225,255, 55,55,55,0]. *)
Theorem invert_mode ctx size (w : World G M) :
  let px := pixelsOf ctx size in
  let out := grain ctx size (Some "invert") w in
  Js.wellFormed px ->
  (forall (j : nat) (b : Z), px !! j = Some b ->
     grainPixels out !! j
     = Some (if decide (j mod 4 = 3)%nat then b else 255 - b))
  /\ length (grainPixels out) = length px
  /\ (forall ctx' size' (w' : World G M),
        pixelsOf ctx' size' = grainPixels out ->
        grainPixels (grain ctx' size' (Some "invert") w') = px)
  /\ grainPixels
       (runGrain (2%float, 1%float) (Some "invert")
          [10; 20; 30; 255; 200; 200; 200; 0] [])
     = [245; 235; 225; 255; 55; 55; 55; 0].
Proof.
  intros px out Hwf. subst out. split; [| split; [| split]].
  - intros j b Hb. rewrite invert_lookup. fold px. rewrite Hb.
    cbn [fmap option_fmap option_map]. f_equal.
    assert (Hbyte : Js.isByte b) by (eapply Forall_lookup_1; eauto).
    destruct (mod4_cases j) as [Hj | [Hj | [Hj | Hj]]]; rewrite Hj;
      cbn [invertPixel]; try rewrite (invert_byte b Hbyte); done.
  - apply (length_of_lookups (fun j => invertPixel (j mod 4))).
    intros j. apply invert_lookup.
  - intros ctx' size' w' Hin. apply list_eq. intros j.
    rewrite invert_lookup, Hin, invert_lookup. fold px.
    destruct (px !! j) as [b|] eqn:Hb; [| done].
    cbn [fmap option_fmap option_map]. f_equal.
    apply invertPixel_involutive. eapply Forall_lookup_1; eauto.
  - reflexivity.
Qed.

Lemma colorful_lookup ctx size (w : World G M) (j : nat) :
  grainPixels (grain ctx size (Some "colorful") w) !! j
  = colorPixel range (after range (-25) 25 (3 * (j / 4)) (random w)) (j mod 4)
      <$> pixelsOf ctx size !! j.
Proof.
  rewrite mode_colorful.
  destruct (grainLoop_outcome (colorGrainBody range) ctx
              (getImageData ctx 0 0 (fst size) (snd size))
              (pixelsOf ctx size) w) as (-> & _).
  apply colorLoop.
Qed.

Lemma parallel_lookup ctx size (w : World G M) (j : nat) :
  grainPixels (grain ctx size (Some "parallel") w) !! j
  = parallelPixel range (after range (-15) 15 (j / 4) (random w)) (j mod 4)
      <$> pixelsOf ctx size !! j.
Proof.
  rewrite mode_parallel.
  destruct (grainLoop_outcome (parallelGrainBody range) ctx
              (getImageData ctx 0 0 (fst size) (snd size))
              (pixelsOf ctx size) w) as (-> & _).
  apply parallelLoop.
Qed.

Lemma red_lookup ctx size (w : World G M) (j : nat) :
  grainPixels (grain ctx size (Some "red") w) !! j
  = redPixel range (after range 50 100 (j / 4) (random w)) (j mod 4)
      <$> pixelsOf ctx size !! j.
Proof.
  rewrite mode_red.
  destruct (grainLoop_outcome (redGrainBody range) ctx
              (getImageData ctx 0 0 (fst size) (snd size))
              (pixelsOf ctx size) w) as (-> & _).
  apply redLoop.
Qed.

Lemma draw_after lo hi (k n : nat) (g : G) :
  draw range lo hi k (after range lo hi n g) = draw range lo hi (k + n) g.
Proof. unfold draw, after. by rewrite <- Nat.iter_add. Qed.

Lemma unrecognized style ctx size (w : World G M) :
  style ∉ modes ->
  grain ctx size (Some style) w = mkOutcome ctx (pixelsOf ctx size) w.
Proof.
  intros Hnot. unfold addGrain. cbv [default from_option id].
  repeat match goal with
  | |- context [String.eqb style ?m] =>
      destruct (String.eqb_spec style m) as [-> | _];
      [exfalso; apply Hnot; apply list_elem_of_In; cbn [modes In]; auto 6 |]
  end.
  reflexivity.
Qed.

(** C3. A style string outside "colorful", "parallel", "red" and
    "invert" makes [addGrain] a no-op: the array is the one read from the
    canvas, and neither the canvas nor the generators change.  The
    function has no failing path. *)
Theorem unrecognized_mode_noop (style : string) ctx size (w : World G M) :
  style ∉ modes ->
  let out := grain ctx size (Some style) w in
  grainPixels out = pixelsOf ctx size
  /\ context out = ctx
  /\ world out = w.
Proof.
  intros Hnot out. subst out. rewrite (unrecognized style ctx size w Hnot).
  done.
Qed.

(** C4. After the modes "colorful" and "parallel" every alpha value of
    the array is 255, whatever it was. *)
Theorem alpha_forced (style : string) ctx size (w : World G M) :
  style = "colorful" \/ style = "parallel" ->
  let px := pixelsOf ctx size in
  let out := grain ctx size (Some style) w in
  length (grainPixels out) = length px
  /\ forall j : nat, (j < length px)%nat -> (j mod 4 = 3)%nat ->
       grainPixels out !! j = Some 255.
Proof.
  intros [-> | ->] px out; subst out; split.
  - apply (length_of_lookups (fun j =>
      colorPixel range (after range (-25) 25 (3 * (j / 4)) (random w)) (j mod 4))).
    intros j. apply colorful_lookup.
  - intros j Hj H3. rewrite colorful_lookup. fold px.
    apply lookup_lt_is_Some_2 in Hj as [b ->]. rewrite H3. reflexivity.
  - apply (length_of_lookups (fun j =>
      parallelPixel range (after range (-15) 15 (j / 4) (random w)) (j mod 4))).
    intros j. apply parallel_lookup.
  - intros j Hj H3. rewrite parallel_lookup. fold px.
    apply lookup_lt_is_Some_2 in Hj as [b ->]. rewrite H3. reflexivity.
Qed.

(** C9. The default of [style] is "parallelGrain", which the [switch]
    has no case for: a call without a style leaves the array, the canvas
    and the generators as they were.  The mode "parallel" does not: on
    the pixel [10,20,30,40] with the draw 5 it gives [15,25,35,255]. *)
Theorem default_style_noop ctx size (w : World G M) :
  defaultStyle = "parallelGrain"
  /\ (defaultStyle ∉ modes)
  /\ grain ctx size None w = mkOutcome ctx (pixelsOf ctx size) w
  /\ grainPixels (runGrain (1%float, 1%float) None [10; 20; 30; 40] [5%float])
     = [10; 20; 30; 40]
  /\ grainPixels
       (runGrain (1%float, 1%float) (Some "parallel") [10; 20; 30; 40] [5%float])
     = [15; 25; 35; 255].
Proof.
  assert (Hnot : defaultStyle ∉ modes).
  { unfold defaultStyle, modes. intros Hin.
    repeat (apply elem_of_cons in Hin as [Hin | Hin]; [discriminate Hin |]).
    by apply elem_of_nil in Hin. }
  split; [reflexivity |]. split; [exact Hnot |]. split.
  - change (grain ctx size None w) with (grain ctx size (Some defaultStyle) w).
    by apply unrecognized.
  - split; reflexivity.
Qed.

(** C7, as the code has it.  In the mode "colorful" the loop draws
    three numbers per pixel with [random.range(-25, 25)], in the order
    red, green, blue: element [j] of colour takes draw number
    [3 * (j / 4) + j mod 4] of the stream, and becomes the stored sum
    ToUint8Clamp(old + draw), not the sum itself; alpha becomes 255.  The
    three draws of a pixel are separate: on [100,100,100,0] with the draws
    1, 2, 3 the result is [101,102,103,255]. *)
Theorem colorful_mode ctx size (w : World G M) :
  let px := pixelsOf ctx size in
  let out := grain ctx size (Some "colorful") w in
  (forall (j : nat) (b : Z), px !! j = Some b ->
     grainPixels out !! j
     = Some (if decide (j mod 4 = 3)%nat then 255
             else Js.toUint8Clamp
                    (Js.ofByte b
                     + draw range (-25) 25 (3 * (j / 4) + j mod 4) (random w))))
  /\ random (world out) = after range (-25) 25 (3 * passes (length px)) (random w)
  /\ grainPixels
       (runGrain (1%float, 1%float) (Some "colorful") [100; 100; 100; 0]
          [1%float; 2%float; 3%float])
     = [101; 102; 103; 255].
Proof.
  intros px out. subst out. split; [| split].
  - intros j b Hb. rewrite colorful_lookup. fold px. rewrite Hb.
    cbn [fmap option_fmap option_map]. f_equal.
    destruct (mod4_cases j) as [Hj | [Hj | [Hj | Hj]]]; rewrite Hj;
      cbn [colorPixel]; rewrite ?draw_after;
      try (rewrite decide_False by lia; do 3 f_equal; lia).
    rewrite decide_True by done. reflexivity.
  - rewrite mode_colorful.
    destruct (grainLoop_outcome (colorGrainBody range) ctx
                (getImageData ctx 0 0 (fst size) (snd size))
                (pixelsOf ctx size) w) as (_ & -> & _).
    apply colorLoop.
  - reflexivity.
Qed.

(** C6, as the code has it.  In the mode "red" the loop draws one number
    [v] per pixel with [random.range(50, 100)]; red becomes the stored sum
    ToUint8Clamp(red + v), green and blue become
    ToUint8Clamp(old - v * 0.5), and alpha is not written. *)
Theorem red_mode ctx size (w : World G M) :
  let px := pixelsOf ctx size in
  let out := grain ctx size (Some "red") w in
  (forall (j : nat) (b : Z), px !! j = Some b ->
     let v := draw range 50 100 (j / 4) (random w) in
     grainPixels out !! j
     = Some (match (j mod 4)%nat with
             | 0%nat => Js.toUint8Clamp (Js.ofByte b + v)
             | 1%nat | 2%nat => Js.toUint8Clamp (Js.ofByte b - v * 0.5)
             | _ => b
             end))
  /\ random (world out) = after range 50 100 (passes (length px)) (random w).
Proof.
  intros px out. subst out. split.
  - intros j b Hb v. subst v. rewrite red_lookup. fold px. rewrite Hb.
    cbn [fmap option_fmap option_map]. unfold redPixel.
    destruct (mod4_cases j) as [Hj | [Hj | [Hj | Hj]]]; rewrite Hj;
      rewrite ?draw_after, ?Nat.add_0_l; reflexivity.
  - rewrite mode_red.
    destruct (grainLoop_outcome (redGrainBody range) ctx
                (getImageData ctx 0 0 (fst size) (snd size))
                (pixelsOf ctx size) w) as (_ & -> & _).
    apply redLoop.
Qed.

(** C5, as the code has it.  In the mode "parallel" the loop draws one
    number per pixel with [random.range(-15, 15)] and each of red, green
    and blue becomes the stored sum ToUint8Clamp(old + draw) with that
    same draw; alpha becomes 255.  When the draw is an integer [n] and the
    three sums stay within 0..255, the three differences between output
    and input are all [n]. *)
Theorem parallel_mode ctx size (w : World G M) :
  let px := pixelsOf ctx size in
  let out := grain ctx size (Some "parallel") w in
  (forall (j : nat) (b : Z), px !! j = Some b ->
     grainPixels out !! j
     = Some (if decide (j mod 4 = 3)%nat then 255
             else Js.toUint8Clamp
                    (Js.ofByte b + draw range (-15) 15 (j / 4) (random w))))
  /\ random (world out) = after range (-15) 15 (passes (length px)) (random w)
  /\ (forall (k : nat) (n r g b : Z),
        Js.wellFormed px ->
        draw range (-15) 15 k (random w) = Js.ofZ n -> -15 <= n <= 15 ->
        px !! (4 * k)%nat = Some r -> px !! (4 * k + 1)%nat = Some g ->
        px !! (4 * k + 2)%nat = Some b ->
        Js.isByte (r + n) -> Js.isByte (g + n) -> Js.isByte (b + n) ->
        delta px (grainPixels out) (4 * k) = n
        /\ delta px (grainPixels out) (4 * k + 1) = n
        /\ delta px (grainPixels out) (4 * k + 2) = n).
Proof.
  intros px out. subst out.
  assert (Hlookup : forall (j : nat) (b : Z), px !! j = Some b ->
    grainPixels (grain ctx size (Some "parallel") w) !! j
    = Some (if decide (j mod 4 = 3)%nat then 255
            else Js.toUint8Clamp
                   (Js.ofByte b + draw range (-15) 15 (j / 4) (random w)))).
  { intros j b Hb. rewrite parallel_lookup. fold px. rewrite Hb.
    cbn [fmap option_fmap option_map]. f_equal.
    destruct (mod4_cases j) as [Hj | [Hj | [Hj | Hj]]]; rewrite Hj;
      cbn [parallelPixel]; rewrite ?draw_after;
      try (rewrite decide_False by lia; reflexivity).
    rewrite decide_True by done. reflexivity. }
  split; [exact Hlookup |]. split.
  - rewrite mode_parallel.
    destruct (grainLoop_outcome (parallelGrainBody range) ctx
                (getImageData ctx 0 0 (fst size) (snd size))
                (pixelsOf ctx size) w) as (_ & -> & _).
    apply parallelLoop.
  - intros k n r g b Hwf Hdraw Hn Hr Hg Hb Hrn Hgn Hbn.
    assert (Hdiv : forall c : nat, (c < 4)%nat ->
      ((4 * k + c) / 4 = k /\ (4 * k + c) mod 4 = c)%nat).
    { intros c Hc. rewrite (Nat.mul_comm 4 k).
      rewrite Nat.div_add_l by lia.
      rewrite (Nat.div_small c 4) by lia.
      rewrite (Nat.add_comm (k * 4) c), Nat.Div0.mod_add, Nat.mod_small by lia.
      lia. }
    unfold delta.
    pose proof (Hlookup _ _ Hr) as Hr'. pose proof (Hlookup _ _ Hg) as Hg'.
    pose proof (Hlookup _ _ Hb) as Hb'.
    destruct (Hdiv 0%nat ltac:(lia)) as [Hd0 Hm0]. rewrite Nat.add_0_r in Hd0, Hm0.
    destruct (Hdiv 1%nat ltac:(lia)) as [Hd1 Hm1].
    destruct (Hdiv 2%nat ltac:(lia)) as [Hd2 Hm2].
    rewrite Hd0, Hm0 in Hr'. rewrite Hd1, Hm1 in Hg'. rewrite Hd2, Hm2 in Hb'.
    rewrite decide_False in Hr' by lia. rewrite decide_False in Hg' by lia.
    rewrite decide_False in Hb' by lia.
    rewrite Hdraw in Hr', Hg', Hb'.
    rewrite shift_byte in Hr', Hg', Hb'
      by (try done; eapply Forall_lookup_1; eauto).
    rewrite Hr', Hg', Hb', Hr, Hg, Hb. cbn [default from_option id]. lia.
Qed.

(** C2, as the code has it.  The array is a [Uint8ClampedArray]: in
    every mode each value [addGrain] leaves in it is a byte, so a sum or
    difference outside 0..255 is stored clamped; and the pixel
    [0,0,0,255] in the mode "red" with the draw 100 becomes
    [100,0,0,255]. *)
Theorem stored_values_clamped (styleArg : option string) ctx size (w : World G M) :
  Js.wellFormed (pixelsOf ctx size) ->
  Js.wellFormed (grainPixels (grain ctx size styleArg w))
  /\ grainPixels
       (runGrain (1%float, 1%float) (Some "red") [0; 0; 0; 255] [100%float])
     = [100; 0; 0; 255].
Proof.
  intros Hwf. split; [| reflexivity].
  assert (Hnoop : forall style, style ∉ modes ->
    Js.wellFormed (grainPixels (grain ctx size (Some style) w))).
  { intros style Hnot. by rewrite (unrecognized style ctx size w Hnot). }
  destruct styleArg as [style |].
  - destruct (String.eqb_spec style "colorful") as [-> | H1].
    { eapply wellFormed_of_lookups; [apply colorful_lookup | | exact Hwf].
      intros j b _. apply colorPixel_byte. }
    destruct (String.eqb_spec style "parallel") as [-> | H2].
    { eapply wellFormed_of_lookups; [apply parallel_lookup | | exact Hwf].
      intros j b _. apply parallelPixel_byte. }
    destruct (String.eqb_spec style "red") as [-> | H3].
    { eapply wellFormed_of_lookups; [apply red_lookup | | exact Hwf].
      intros j b Hb. by apply redPixel_byte. }
    destruct (String.eqb_spec style "invert") as [-> | H4].
    { eapply wellFormed_of_lookups; [apply invert_lookup | | exact Hwf].
      intros j b Hb. by apply invertPixel_byte. }
    apply Hnoop. by apply not_a_mode.
  - change (grain ctx size None w) with (grain ctx size (Some defaultStyle) w).
    apply Hnoop. by apply not_a_mode.
Qed.

End Properties.

(** ** Determinism *)

Lemma for4_related {S1 S2 : Type} (Rel : S1 -> S2 -> Prop) (len : nat)
    (body1 : nat -> S1 -> S1) (body2 : nat -> S2 -> S2) :
  (forall i s1 s2, Rel s1 s2 -> Rel (body1 i s1) (body2 i s2)) ->
  forall (n i : nat) s1 s2, (len - i <= n)%nat -> Rel s1 s2 ->
    Rel (for4 len body1 i s1) (for4 len body2 i s2).
Proof.
  intros Hbody n. induction n as [|n IH]; intros i s1 s2 Hn Hrel;
    rewrite (for4_step len body1), (for4_step len body2);
    destruct (decide (i < len)%nat) as [Hlt | Hge]; try done; try lia.
  apply IH; [lia |]. by apply Hbody.
Qed.

Section Determinism.

Context {Ctx G1 G2 M1 M2 : Type}.
Variable getImageData : Ctx -> float -> float -> float -> float -> ImageData.
Variable putImageData : Ctx -> ImageData -> float -> float -> Ctx.
Variable range1 : float -> float -> G1 -> float * G1.
Variable range2 : float -> float -> G2 -> float * G2.

(** Two generators in states that give the same draws from now on. *)
Variable sameDraws : G1 -> G2 -> Prop.
Hypothesis sameDraws_step : forall lo hi g1 g2, sameDraws g1 g2 ->
  fst (range1 lo hi g1) = fst (range2 lo hi g2)
  /\ sameDraws (snd (range1 lo hi g1)) (snd (range2 lo hi g2)).

Local Abbreviation sameState := (sameDrawsState sameDraws).

Ltac step_draw lo hi g1 g2 H :=
  let d1 := fresh "d" in
  let d2 := fresh "d" in
  let E1 := fresh "E" in
  let E2 := fresh "E" in
  let Hd := fresh "Hd" in
  pose proof (sameDraws_step lo hi g1 g2 H) as [Hd ?];
  destruct (range1 lo hi g1) as [d1 ?] eqn:E1;
  destruct (range2 lo hi g2) as [d2 ?] eqn:E2;
  cbn [fst snd] in *; subst d2.

Lemma colorGrainBody_related i s1 s2 :
  sameState s1 s2 ->
  sameState (colorGrainBody range1 i s1) (colorGrainBody range2 i s2).
Proof.
  destruct s1 as [px g1], s2 as [px2 g2]. intros [Hpx Hg].
  cbn [fst snd] in Hpx, Hg. subst px2. unfold colorGrainBody.
  step_draw (-25)%float 25%float g1 g2 Hg.
  do 2 match goal with H : sameDraws ?a ?b |- context [range1 _ _ ?a] =>
    step_draw (-25)%float 25%float a b H end.
  split; [done | assumption].
Qed.

Lemma parallelGrainBody_related i s1 s2 :
  sameState s1 s2 ->
  sameState (parallelGrainBody range1 i s1) (parallelGrainBody range2 i s2).
Proof.
  destruct s1 as [px g1], s2 as [px2 g2]. intros [Hpx Hg].
  cbn [fst snd] in Hpx, Hg. subst px2. unfold parallelGrainBody.
  step_draw (-15)%float 15%float g1 g2 Hg.
  split; [done | assumption].
Qed.

Lemma redGrainBody_related i s1 s2 :
  sameState s1 s2 ->
  sameState (redGrainBody range1 i s1) (redGrainBody range2 i s2).
Proof.
  destruct s1 as [px g1], s2 as [px2 g2]. intros [Hpx Hg].
  cbn [fst snd] in Hpx, Hg. subst px2. unfold redGrainBody.
  step_draw 50%float 100%float g1 g2 Hg.
  split; [done | assumption].
Qed.

Lemma invertBody_related i s1 s2 :
  sameState s1 s2 -> sameState (invertBody i s1) (invertBody i s2).
Proof.
  destruct s1 as [px g1], s2 as [px2 g2]. intros [Hpx Hg].
  cbn [fst snd] in Hpx, Hg. subst px2. done.
Qed.

Lemma grainLoop_related body1 body2 ctx1 ctx2 img1 img2 px
    (w1 : World G1 M1) (w2 : World G2 M2) :
  (forall i s1 s2, sameState s1 s2 -> sameState (body1 i s1) (body2 i s2)) ->
  sameDraws (random w1) (random w2) ->
  let out1 := grainLoop putImageData body1 ctx1 img1 px w1 in
  let out2 := grainLoop putImageData body2 ctx2 img2 px w2 in
  grainPixels out1 = grainPixels out2
  /\ sameDraws (random (world out1)) (random (world out2))
  /\ math (world out1) = math w1 /\ math (world out2) = math w2.
Proof.
  intros Hbody Hg out1 out2. subst out1 out2.
  pose proof (for4_related sameState (length px) body1 body2 Hbody
                (length px) 0%nat (px, random w1) (px, random w2)
                ltac:(lia) ltac:(by split)) as [Hpx Hg'].
  unfold grainLoop.
  destruct (for4 (length px) body1 0%nat (px, random w1)) as [px1 g1'].
  destruct (for4 (length px) body2 0%nat (px, random w2)) as [px2 g2'].
  done.
Qed.

(** C8. Two runs of [addGrain] on the same input array with the same
    style, with generators in states that give the same draws, leave the
    same array, and generators that again give the same draws; the state
    behind [Math.random] is not touched.  Nothing else enters the result:
    the worlds of the two runs may differ in everything but the draws. *)
Theorem addGrain_deterministic (styleArg : option string) ctx1 ctx2 size1 size2
    (w1 : World G1 M1) (w2 : World G2 M2) :
  inputPixels getImageData ctx1 size1 = inputPixels getImageData ctx2 size2 ->
  sameDraws (random w1) (random w2) ->
  let out1 := addGrain getImageData putImageData range1 ctx1 size1 styleArg w1 in
  let out2 := addGrain getImageData putImageData range2 ctx2 size2 styleArg w2 in
  grainPixels out1 = grainPixels out2
  /\ sameDraws (random (world out1)) (random (world out2))
  /\ math (world out1) = math w1 /\ math (world out2) = math w2.
Proof.
  intros Hpx Hg out1 out2. subst out1 out2. unfold addGrain.
  fold (inputPixels getImageData ctx1 size1).
  fold (inputPixels getImageData ctx2 size2).
  rewrite <- Hpx.
  destruct (String.eqb _ "colorful");
    [apply grainLoop_related; [apply colorGrainBody_related | done] |].
  destruct (String.eqb _ "parallel");
    [apply grainLoop_related; [apply parallelGrainBody_related | done] |].
  destruct (String.eqb _ "red");
    [apply grainLoop_related; [apply redGrainBody_related | done] |].
  destruct (String.eqb _ "invert");
    [apply grainLoop_related; [apply invertBody_related | done] |].
  done.
Qed.

End Determinism.

(** ** Scenarios *)

Lemma wellFormed_bytes (px : list Z) :
  forallb (fun b => (0 <=? b) && (b <=? 255)) px = true -> Js.wellFormed px.
Proof.
  intros H. apply Forall_forall. intros b Hb.
  rewrite forallb_forall in H. apply list_elem_of_In in Hb.
  specialize (H b Hb). unfold Js.isByte. lia.
Qed.

Lemma invert_mode_witness :
  Js.wellFormed [10; 20; 30; 255]
  /\ grainPixels (runGrain (1%float, 1%float) (Some "invert") [10; 20; 30; 255] [])
       !! 1%nat = Some 235.
Proof.
  assert (Hwf : Js.wellFormed [10; 20; 30; 255])
    by (apply wellFormed_bytes; reflexivity).
  split; [exact Hwf |].
  exact (proj1 (invert_mode bitmapGet bitmapPut scripted [10; 20; 30; 255]
                  (1%float, 1%float) (mkWorld [] tt) Hwf) 1%nat 20 eq_refl).
Defined.

Lemma unrecognized_mode_noop_witness :
(("nonsense" : string) ∉ modes)
  /\ grainPixels
       (runGrain (1%float, 1%float) (Some "nonsense") [1; 2; 3; 4] [7%float])
     = [1; 2; 3; 4].
Proof.
  assert (Hnot : ("nonsense" : string) ∉ modes)
    by (apply not_a_mode; discriminate).
  split; [exact Hnot |].
  exact (proj1 (unrecognized_mode_noop bitmapGet bitmapPut scripted "nonsense"
                  [1; 2; 3; 4] (1%float, 1%float) (mkWorld [7%float] tt) Hnot)).
Defined.

Lemma alpha_forced_witness :
  grainPixels
    (runGrain (1%float, 1%float) (Some "colorful") [1; 2; 3; 4]
       [1%float; 1%float; 1%float]) !! 3%nat = Some 255.
Proof.
  apply (proj2 (alpha_forced bitmapGet bitmapPut scripted "colorful"
                  [1; 2; 3; 4] (1%float, 1%float)
                  (mkWorld [1%float; 1%float; 1%float] tt) (or_introl eq_refl))
           3%nat).
  - cbn. lia.
  - reflexivity.
Defined.

(** C5, as stated, fails.  On the pixel [250,10,100,255] with the draw
    10, red is stored as 255: it changes by 5, green and blue by 10. *)
Lemma parallel_deltas_differ :
  let px := [250; 10; 100; 255] in
  let out := grainPixels (runGrain (1%float, 1%float) (Some "parallel") px [10%float]) in
  out = [255; 20; 110; 255]
  /\ delta px out 0 = 5 /\ delta px out 1 = 10 /\ delta px out 2 = 10
  /\ delta px out 0 <> delta px out 1.
Proof. vm_compute. repeat split; discriminate. Qed.

Lemma parallel_mode_witness :
  let px := [100; 10; 200; 0] in
  let out := grainPixels (runGrain (1%float, 1%float) (Some "parallel") px [(-7)%float]) in
  delta px out 0 = -7 /\ delta px out 1 = -7 /\ delta px out 2 = -7.
Proof.
  intros px out.
  assert (Hwf : Js.wellFormed px) by (apply wellFormed_bytes; reflexivity).
  apply (proj2 (proj2 (parallel_mode bitmapGet bitmapPut scripted px
                         (1%float, 1%float) (mkWorld [(-7)%float] tt)))
           0%nat (-7) 100 10 200 Hwf);
    try reflexivity; unfold Js.isByte; lia.
Defined.

(** C6, as stated, fails.  On the pixel [200,10,10,7] with the draw 60,
    red is stored as 255, not 260, and green and blue as 0, not -20. *)
Lemma red_shift_is_clamped :
  let px := [200; 10; 10; 7] in
  let out := grainPixels (runGrain (1%float, 1%float) (Some "red") px [60%float]) in
  out = [255; 0; 0; 7]
  /\ delta px out 0 <> 60 /\ delta px out 1 <> -30 /\ delta px out 2 <> -30.
Proof. vm_compute. repeat split; discriminate. Qed.

Lemma red_mode_witness :
  grainPixels
    (runGrain (1%float, 1%float) (Some "red") [10; 200; 30; 40] [60%float])
    !! 1%nat = Some 170.
Proof.
  exact (proj1 (red_mode bitmapGet bitmapPut scripted [10; 200; 30; 40]
                  (1%float, 1%float) (mkWorld [60%float] tt)) 1%nat 200 eq_refl).
Defined.

Lemma colorful_mode_witness :
  grainPixels
    (runGrain (1%float, 1%float) (Some "colorful") [10; 200; 30; 40]
       [1%float; (-2)%float; 3%float])
    !! 1%nat = Some 198.
Proof.
  exact (proj1 (colorful_mode bitmapGet bitmapPut scripted [10; 200; 30; 40]
                  (1%float, 1%float)
                  (mkWorld [1%float; (-2)%float; 3%float] tt)) 1%nat 200 eq_refl).
Defined.

(** C7, as stated, fails.  On the pixel [250,0,128,255] with the draws
    20, -20 and 0.5, red is stored as 255, green as 0 and blue as 128:
    none of the three draws is what its channel changes by. *)
Lemma colorful_sum_is_stored_clamped :
  let px := [250; 0; 128; 255] in
  let out :=
    grainPixels (runGrain (1%float, 1%float) (Some "colorful") px
                   [20%float; (-20)%float; 0.5%float]) in
  out = [255; 0; 128; 255]
  /\ delta px out 0 <> 20 /\ delta px out 1 <> -20
  /\ Js.ofByte (default 0 (out !! 2%nat)) <> (Js.ofByte 128 + 0.5)%float.
Proof.
  vm_compute. repeat split; discriminate.
Qed.

(** C2, as stated, fails.  The pixel [0,0,0,255] in the mode "red" with
    the draw 100 does not become [100,-50,-50,255]. *)
Lemma red_scenario_is_clamped :
  grainPixels (runGrain (1%float, 1%float) (Some "red") [0; 0; 0; 255] [100%float])
  <> [100; -50; -50; 255].
Proof. vm_compute. discriminate. Qed.

Lemma stored_values_clamped_witness :
  Js.wellFormed [0; 0; 0; 255]
  /\ Js.wellFormed
       (grainPixels
          (runGrain (1%float, 1%float) (Some "red") [0; 0; 0; 255] [100%float])).
Proof.
  assert (Hwf : Js.wellFormed [0; 0; 0; 255])
    by (apply wellFormed_bytes; reflexivity).
  split; [exact Hwf |].
  exact (proj1 (stored_values_clamped bitmapGet bitmapPut scripted (Some "red")
                  [0; 0; 0; 255] (1%float, 1%float) (mkWorld [100%float] tt) Hwf)).
Defined.

Lemma addGrain_deterministic_witness :
  grainPixels (runGrain (1%float, 1%float) (Some "colorful") [9; 8; 7; 6] [])
  = grainPixels
      (addGrain bitmapGet bitmapPut zeros [9; 8; 7; 6] (1%float, 1%float)
         (Some "colorful") (mkWorld tt 5%nat)).
Proof.
  apply (addGrain_deterministic bitmapGet bitmapPut scripted zeros
           (fun (g1 : list float) (_ : unit) => g1 = [])).
  - intros lo hi g1 g2 ->. split; reflexivity.
  - reflexivity.
  - reflexivity.
Defined.

(** ** initiateSeed *)

(** A number in [0, 1) times 1000000 is zero or a positive number whose
    integer part is at most 999999: the rounding of the product cannot
    reach 1000000. *)
Lemma product_floor (u : float) :
  (0 <=? u)%float = true -> (u <? 1)%float = true ->
  let y := (u * 1000000)%float in
  (exists s, Prim2SF y = S754_zero s)
  \/ (exists mf ef, Prim2SF y = S754_finite false mf ef /\ 0 <= Js.floorZ y <= 999999).
Proof.
  intros H0 H1 y. subst y. unfold Js.floorZ.
  rewrite leb_spec in H0. rewrite ltb_spec in H1. rewrite mul_spec.
  change (Prim2SF 0) with (S754_zero false) in H0.
  change (Prim2SF 1) with (S754_finite false 4503599627370496 (-52)) in H1.
  change (Prim2SF 1000000) with (S754_finite false millionMantissa (-33)).
  destruct (Prim2SF u) as [s | s | | s m e] eqn:Hu.
  - left. exists (xorb s false). reflexivity.
  - destruct s; discriminate.
  - discriminate.
  - destruct s; [discriminate |].
    destruct (finite_canonical u false m e Hu) as (Hd & He & _).
    pose proof (finite_mantissa_lt u false m e Hu) as Hm53.
    assert (Hlt : e <= -52 /\ Zpos m < 2 ^ (- e)).
    { unfold SFltb, SFcompare in H1.
      destruct (Z.compare_spec e (-52)) as [-> | Hlt | Hgt]; [| | discriminate].
      - change (PosDef.Pos.compare_cont Eq m 4503599627370496)
          with (Pos.compare_cont Eq m 4503599627370496) in H1.
        rewrite Pos.compare_cont_spec in H1.
        destruct (Pos.compare_spec m 4503599627370496) as [| Hc |]; try discriminate.
        apply Pos2Z.pos_lt_pos in Hc. split; [lia |].
        change (2 ^ (- -52)) with 4503599627370496. lia.
      - split; [lia |].
        assert (2 ^ 53 <= 2 ^ (- e)) by (apply Z.pow_le_mono_r; lia). lia. }
    destruct Hlt as [He52 Hm].
    pose proof (round_product m e Hd ltac:(lia) Hm) as Hround.
    unfold SF64mul, SFmul. cbn [xorb].
    destruct (binary_round_aux prec emax false (Zpos (m * millionMantissa))
                (e + -33) loc_Exact) as [s' | s' | | s' mf ef]; try done.
    + left. by exists s'.
    + right. destruct Hround as [-> Hfloor]. by exists mf, ef.
Qed.

(** Two positive numbers compare by exponent, then by mantissa. *)
Lemma SFcompare_positive (m1 m2 : positive) (e1 e2 : Z) :
  SFcompare (S754_finite false m1 e1) (S754_finite false m2 e2)
  = Some match e1 ?= e2 with
         | Lt => Lt
         | Gt => Gt
         | Eq => Zpos m1 ?= Zpos m2
         end.
Proof.
  reflexivity.
Qed.

(** The integer part [n] of a positive number [y] below 2^52 is the
    integer with [n <= y < n + 1], as numbers compare. *)
Lemma floor_between (y : float) (mf : positive) (ef : Z) :
  Prim2SF y = S754_finite false mf ef ->
  0 <= Js.floorZ y < 2 ^ 52 ->
  (Js.ofZ (Js.floorZ y) <=? y)%float = true
  /\ (y <? Js.ofZ (Js.floorZ y + 1))%float = true.
Proof.
  intros Hy Hn. rewrite leb_spec, ltb_spec. unfold SFleb, SFltb.
  unfold Js.floorZ in *. rewrite Hy in *.
  destruct (finite_canonical y false mf ef Hy) as (_ & _ & Hnorm).
  pose proof (finite_mantissa_lt y false mf ef Hy) as Hmf.
  assert (Hdigits : Zpos (digits2_pos mf) = 53 -> 2 ^ 52 <= Zpos mf).
  { intros Hd. pose proof (digits2_pos_bounds mf) as [Hlo _].
    by rewrite Hd in Hlo. }
  assert (Hef : ef < 0).
  { destruct (Z.lt_ge_cases ef 0) as [| Hge]; [done | exfalso].
    rewrite Z.shiftl_mul_pow2 in Hn by done.
    assert (1 <= 2 ^ ef) by (apply (Z.pow_le_mono_r 2 0 ef); lia).
    destruct Hnorm as [-> | Hd]; [lia |]. specialize (Hdigits Hd). nia. }
  rewrite Z.shiftl_div_pow2 in * by lia.
  set (a := - ef) in *. assert (Ha : 0 < a) by lia.
  assert (Hpa : 0 < 2 ^ a) by (apply Z.pow_pos_nonneg; lia).
  set (n := Zpos mf / 2 ^ a) in *.
  assert (Hlo : n * 2 ^ a <= Zpos mf) by (rewrite Z.mul_comm; apply Z.mul_div_le; lia).
  assert (Hhi : Zpos mf < (n + 1) * 2 ^ a).
  { rewrite Z.mul_comm. replace (n + 1) with (Z.succ n) by lia.
    apply Z.mul_succ_div_gt; lia. }
  assert (Hpow : forall b c, 0 <= b -> 0 <= c -> 2 ^ (b + c) = 2 ^ b * 2 ^ c)
    by (intros; apply Z.pow_add_r; lia).
  clearbody n.
  destruct (Z.eq_dec n 0) as [-> | Hn0].
  - change (0 + 1) with 1.
    change (Prim2SF (Js.ofZ 0)) with (S754_zero false).
    change (Prim2SF (Js.ofZ 1)) with (S754_finite false 4503599627370496 (-52)).
    split; [reflexivity |]. rewrite SFcompare_positive.
    destruct (Z.compare_spec ef (-52)) as [He | He | He]; [| done |].
    + replace a with 52 in Hhi by lia.
      assert (Hc : (Zpos mf ?= 4503599627370496) = Lt).
      { apply Z.compare_lt_iff. change (2 ^ 52) with 4503599627370496 in Hhi. lia. }
      by rewrite Hc.
    + exfalso. destruct Hnorm as [-> | Hd]; [lia |]. specialize (Hdigits Hd).
      assert (2 ^ a <= 2 ^ 52) by (apply Z.pow_le_mono_r; lia). lia.
  - assert (Hnormal : 2 ^ 52 <= Zpos mf).
    { destruct Hnorm as [-> | Hd]; [| by apply Hdigits]. exfalso.
      assert (2 ^ 53 <= 2 ^ a) by (apply Z.pow_le_mono_r; lia). nia. }
    destruct (Prim2SF_ofZ_normal n) as (mn & en & Hxn & Hen & Hmn & Hn52 & Hn53); [lia |].
    destruct (Prim2SF_ofZ_normal (n + 1)) as (mp & ep & Hxp & Hep & Hmp & Hp52 & Hp53);
      [lia |].
    rewrite Hxn, Hxp, !SFcompare_positive. split.
    + destruct (Z.compare_spec en ef) as [He | He | He]; [| done |].
      * subst en. fold a in Hmn.
        destruct (Z.compare_spec (Zpos mn) (Zpos mf)) as [| | Hc]; [done | done | lia].
      * exfalso. set (b := - en) in *.
        assert (Hsplit : 2 ^ a = 2 ^ (a - b - 1) * 2 * 2 ^ b).
        { replace a with ((a - b - 1) + 1 + b) at 1 by lia.
          rewrite !Hpow by lia. reflexivity. }
        assert (0 < 2 ^ (a - b - 1)) by (apply Z.pow_pos_nonneg; lia).
        assert (0 < 2 ^ b) by (apply Z.pow_pos_nonneg; lia).
        set (P := 2 ^ b) in *. set (Q := 2 ^ (a - b - 1)) in *.
        assert (2 * (n * P) <= 2 * (n * P) * Q) by nia.
        rewrite Hsplit in Hlo. change (2 ^ 53) with (2 * 2 ^ 52) in Hmf. nia.
    + destruct (Z.compare_spec ef ep) as [He | He | He]; [| done |].
      * subst ep. fold a in Hmp.
        assert (Hc : (Zpos mf ?= Zpos mp) = Lt) by (apply Z.compare_lt_iff; lia).
        by rewrite Hc.
      * exfalso. set (c := - ep) in *.
        assert (Hsplit : 2 ^ c = 2 ^ (c - a - 1) * 2 * 2 ^ a).
        { replace c with ((c - a - 1) + 1 + a) at 1 by lia.
          rewrite !Hpow by lia. reflexivity. }
        assert (0 < 2 ^ (c - a - 1)) by (apply Z.pow_pos_nonneg; lia).
        set (P := 2 ^ a) in *. set (Q := 2 ^ (c - a - 1)) in *.
        assert (2 * ((n + 1) * P) <= 2 * ((n + 1) * P) * Q) by nia.
        rewrite Hsplit in Hmp. change (2 ^ 53) with (2 * 2 ^ 52) in Hp53. nia.
Qed.

(** [String(Math.floor(u * 1000000))] for [u] in [0, 1): the decimal
    digits of the integer [n] with [n <= u * 1000000 < n + 1], which is
    one from 0 to 999999. *)
Lemma floor_digits (fractionToString : float -> string) (u : float) :
  (0 <=? u)%float = true -> (u <? 1)%float = true ->
  let y := (u * 1000000)%float in
  let n := Js.floorZ y in
  0 <= n <= 999999
  /\ (Js.ofZ n <=? y)%float = true
  /\ (y <? Js.ofZ (n + 1))%float = true
  /\ Js.numberToString fractionToString (Js.mathFloor y) = pretty n.
Proof.
  intros H0 H1 y n. subst n.
  destruct (product_floor u H0 H1) as [[s Hy] | (mf & ef & Hy & Hn)]; fold y in Hy.
  - assert (Hfloor : Js.floorZ y = 0) by (unfold Js.floorZ; by rewrite Hy).
    rewrite Hfloor. split; [lia |].
    rewrite leb_spec, ltb_spec, Hy.
    split; [reflexivity |]. split; [reflexivity |].
    unfold Js.mathFloor. rewrite Hy. unfold Js.numberToString. by rewrite Hy.
  - fold y in Hn. split; [done |].
    destruct (floor_between y mf ef Hy) as [Hle Hlt]; [lia |].
    split; [done |]. split; [done |].
    unfold Js.mathFloor. rewrite Hy.
    destruct (Js.isIntegral y) eqn:Hint.
    + unfold Js.numberToString. rewrite Hy, Hint.
      replace (Z.abs (Js.floorZ y) <? 2 ^ 53) with true; [done |].
      symmetry. apply Z.ltb_lt. lia.
    + set (n := Js.floorZ y) in *.
      destruct (Z.eq_dec n 0) as [-> | Hn0]; [reflexivity |].
      destruct (ofZ_integral n ltac:(lia)) as (Hi & Hf & m & e & Hx).
      unfold Js.numberToString. rewrite Hx, Hi, Hf.
      replace (Z.abs n <? 2 ^ 53) with true; [done |].
      symmetry. apply Z.ltb_lt. lia.
Qed.

Lemma floor_prints (fractionToString : float -> string) (u : float) :
  (0 <=? u)%float = true -> (u <? 1)%float = true ->
  exists n, 0 <= n <= 999999
    /\ Js.numberToString fractionToString (Js.mathFloor (u * 1000000)) = pretty n.
Proof.
  intros H0 H1.
  destruct (floor_digits fractionToString u H0 H1) as (Hn & _ & _ & Hs).
  eexists. split; [exact Hn | exact Hs].
Qed.

Section Seed.

Context {G M : Type}.
Variable mathRandom : M -> float * M.
Variable fractionToString : float -> string.

(** [Math.random()] returns a number from 0 up to but not including 1. *)
Hypothesis mathRandom_unit : forall s,
  (0 <=? fst (mathRandom s))%float = true /\ (fst (mathRandom s) <? 1)%float = true.

Lemma truthy_not_zero (v : Js.value) :
  Js.toBoolean v = true -> Js.strictEqZero v = false.
Proof.
  destruct v as [| | b | x | s]; try done.
  cbn [Js.toBoolean Js.strictEqZero]. intros H.
  apply negb_true_iff, orb_false_iff in H as [_ H]. exact H.
Qed.

(** C10. [initiateSeed] leaves the seeded generator as it is; for a
    truthy seed it returns [String(seed)] and changes nothing; for 0 and
    every other falsy seed (and for no seed) it makes one call of
    [Math.random] and returns the decimal digits of the integer [n] with
    [n <= u * 1000000 < n + 1], where [u] is the number that call
    returned and the product is the rounded one; that integer is one
    from 0 to 999999. *)
Theorem initiateSeed_spec (seedArg : Js.value) (w : World G M) :
  let res := initiateSeed mathRandom fractionToString seedArg w in
  let u := fst (mathRandom (math w)) in
  random (snd res) = random w
  /\ (Js.toBoolean seedArg = true ->
      res = (Js.toString fractionToString seedArg, w))
  /\ (Js.toBoolean seedArg = false ->
      exists n, 0 <= n <= 999999
        /\ (Js.ofZ n <=? u * 1000000)%float = true
        /\ (u * 1000000 <? Js.ofZ (n + 1))%float = true
        /\ fst res = pretty n
        /\ snd res = mkWorld (random w) (snd (mathRandom (math w)))).
Proof.
  intros res u. subst res u. unfold initiateSeed.
  destruct (Js.toBoolean seedArg) eqn:Hb.
  - assert (Hseed : match seedArg with Js.Undefined => Js.Number 0 | v => v end = seedArg)
      by (destruct seedArg; done).
    rewrite Hseed, (truthy_not_zero seedArg Hb), Hb. cbn [orb negb].
    split; [done |]. split; [done | discriminate].
  - assert (Hcond : Js.strictEqZero
        match seedArg with Js.Undefined => Js.Number 0 | v => v end
      || negb (Js.toBoolean
        match seedArg with Js.Undefined => Js.Number 0 | v => v end) = true).
    { destruct seedArg; try reflexivity; cbn [Js.toBoolean] in *;
        rewrite Hb; apply orb_true_r. }
    rewrite Hcond.
    destruct (mathRandom_unit (math w)) as [H0 H1].
    destruct (mathRandom (math w)) as [u m']. cbn [fst snd] in *.
    split; [done |]. split; [discriminate |]. intros _.
    destruct (floor_digits fractionToString u H0 H1) as (Hn & Hle & Hlt & Hs).
    exists (Js.floorZ (u * 1000000)).
    split; [exact Hn |]. split; [exact Hle |]. split; [exact Hlt |].
    split; [| done]. cbn [Js.toString]. exact Hs.
Qed.

End Seed.

Lemma initiateSeed_spec_witness :
  (forall s, (0 <=? fst (halves s))%float = true
             /\ (fst (halves s) <? 1)%float = true)
  /\ exists n, 0 <= n <= 999999
       /\ (Js.ofZ n <=? 0.5 * 1000000)%float = true
       /\ (0.5 * 1000000 <? Js.ofZ (n + 1))%float = true
       /\ fst (initiateSeed halves (fun _ => "") (Js.Number 0)
                 (mkWorld ([] : list float) 0%nat)) = pretty n
       /\ pretty n = "500000".
Proof.
  assert (H : forall s, (0 <=? fst (halves s))%float = true
                        /\ (fst (halves s) <? 1)%float = true)
    by (intros s; split; reflexivity).
  split; [exact H |].
  destruct (initiateSeed_spec halves (fun _ => "") H (Js.Number 0)
              (mkWorld ([] : list float) 0%nat)) as (_ & _ & Hfalsy).
  destruct (Hfalsy eq_refl) as (n & Hn & Hle & Hlt & Hs & _).
  exists n. split; [exact Hn |]. split; [exact Hle |]. split; [exact Hlt |].
  split; [exact Hs |]. rewrite <- Hs. reflexivity.
Defined.

(** * Further properties *)

(** ** addGrain, element by element *)

Section MoreGrain.

Context {Ctx G M : Type}.
Variable getImageData : Ctx -> float -> float -> float -> float -> ImageData.
Variable putImageData : Ctx -> ImageData -> float -> float -> Ctx.
Variable range : float -> float -> G -> float * G.

Local Abbreviation grain := (@addGrain Ctx getImageData putImageData G range M).
Local Abbreviation pixelsOf := (inputPixels getImageData).

Lemma style_lookup (styleArg : option string) ctx size (w : World G M) (j : nat) :
  grainPixels (grain ctx size styleArg w) !! j
  = stylePixel range (default defaultStyle styleArg) (random w) j <$> pixelsOf ctx size !! j.
Proof.
  assert (Hsome : forall style,
    grainPixels (grain ctx size (Some style) w) !! j
    = stylePixel range style (random w) j <$> pixelsOf ctx size !! j).
  { intros style. unfold stylePixel.
    destruct (String.eqb_spec style "colorful") as [-> | H1];
      [apply colorful_lookup |].
    destruct (String.eqb_spec style "parallel") as [-> | H2];
      [apply parallel_lookup |].
    destruct (String.eqb_spec style "red") as [-> | H3]; [apply red_lookup |].
    destruct (String.eqb_spec style "invert") as [-> | H4];
      [apply invert_lookup |].
    rewrite (unrecognized getImageData putImageData range style ctx size w)
      by (by apply not_a_mode).
    cbn [grainPixels]. by destruct (pixelsOf ctx size !! j). }
  destruct styleArg as [style |]; [apply Hsome |].
  change (grain ctx size None w) with (grain ctx size (Some defaultStyle) w).
  apply Hsome.
Qed.

Lemma recognised_outcome (style : string) ctx size (w : World G M) :
  style ∈ modes ->
  exists body,
    grain ctx size (Some style) w
    = grainLoop putImageData body ctx
        (getImageData ctx 0 0 (fst size) (snd size)) (pixelsOf ctx size) w.
Proof.
  intros Hin. apply list_elem_of_In in Hin. cbn [modes In] in Hin.
  destruct Hin as [<- | [<- | [<- | [<- | []]]]].
  - exists (colorGrainBody range). reflexivity.
  - exists (parallelGrainBody range). reflexivity.
  - exists (redGrainBody range). reflexivity.
  - exists invertBody. reflexivity.
Qed.

(** X1 (addGrain). Whatever the style, the array [addGrain] ends with has
    the length of the one it read. For a style with a case the context is
    the result of one [putImageData] of that array at (0, 0), with the width
    and the height that were read; for any other style the context is left
    as it was. *)
Theorem addGrain_keeps_shape (styleArg : option string) ctx size (w : World G M) :
  let img := getImageData ctx 0 0 (fst size) (snd size) in
  let out := grain ctx size styleArg w in
  length (grainPixels out) = length (data img)
  /\ (default defaultStyle styleArg ∈ modes ->
      context out
      = putImageData ctx
          (mkImageData (width img) (height img) (grainPixels out)) 0 0)
  /\ (default defaultStyle styleArg ∉ modes -> context out = ctx).
Proof.
  intros img out. subst out. split; [| split].
  - apply (length_of_lookups
             (stylePixel range (default defaultStyle styleArg) (random w))).
    intros j. apply style_lookup.
  - intros Hin.
    change (grain ctx size styleArg w)
      with (grain ctx size (Some (default defaultStyle styleArg)) w).
    destruct (recognised_outcome _ ctx size w Hin) as [body ->].
    destruct (grainLoop_outcome putImageData body ctx img (pixelsOf ctx size) w)
      as (Hpx & _ & _ & Hctx).
    subst img. rewrite Hctx, Hpx. reflexivity.
  - intros Hnot.
    change (grain ctx size styleArg w)
      with (grain ctx size (Some (default defaultStyle styleArg)) w).
    by rewrite (unrecognized getImageData putImageData range _ ctx size w Hnot).
Qed.

(** X2 (addGrain, style "invert"). The invert loop draws no random number:
    the generator and the state of [Math.random] are left as they were. *)
Theorem invert_draws_nothing ctx size (w : World G M) :
  world (grain ctx size (Some "invert") w) = w.
Proof.
  rewrite (mode_invert getImageData putImageData range).
  destruct (grainLoop_outcome putImageData invertBody ctx
              (getImageData ctx 0 0 (fst size) (snd size))
              (pixelsOf ctx size) w) as (_ & Hg & Hm & _).
  destruct (invertLoop (pixelsOf ctx size) (random w)) as [_ Hsame].
  rewrite Hsame in Hg.
  destruct (world _) as [g' m'], w as [g m]. cbn [random math] in *.
  by subst.
Qed.

(** X3 (addGrain, style "parallel"). Two colour channels of one pixel that
    held the same value hold the same value afterwards: a grey pixel stays
    grey. *)
Theorem parallel_keeps_equal_channels ctx size (w : World G M) (j1 j2 : nat) :
  let px := pixelsOf ctx size in
  let out := grainPixels (grain ctx size (Some "parallel") w) in
  (j1 / 4 = j2 / 4)%nat -> (j1 mod 4 <> 3)%nat -> (j2 mod 4 <> 3)%nat ->
  px !! j1 = px !! j2 ->
  out !! j1 = out !! j2.
Proof.
  intros px out Hpix H1 H2 Heq. subst out.
  rewrite !(parallel_lookup getImageData putImageData range). fold px.
  rewrite Heq, Hpix.
  destruct (px !! j2) as [b |]; [| done]. cbn [fmap option_fmap option_map].
  f_equal.
  destruct (mod4_cases j1) as [-> | [-> | [-> | ?]]]; [| | | done];
    destruct (mod4_cases j2) as [-> | [-> | [-> | ?]]]; done.
Qed.

(** X4 (addGrain). What [addGrain] leaves at an index depends only on the
    style, the index, the value that was there and the generator the call
    starts with: not on the context, not on the size, not on any other
    element. *)
Theorem addGrain_is_pixelwise (styleArg : option string) ctx1 ctx2 size1 size2
    (w1 w2 : World G M) (j : nat) :
  random w1 = random w2 ->
  pixelsOf ctx1 size1 !! j = pixelsOf ctx2 size2 !! j ->
  grainPixels (grain ctx1 size1 styleArg w1) !! j
  = grainPixels (grain ctx2 size2 styleArg w2) !! j.
Proof.
  intros Hg Hj. rewrite !style_lookup. by rewrite Hg, Hj.
Qed.

End MoreGrain.

(** ** initiateSeed, again *)

Lemma pretty_N_go_nonempty (x : N) : forall s : string,
  s <> "" -> pretty_N_go x s <> "".
Proof.
  induction (N.lt_wf_0 x) as [x _ IH]. intros s Hs.
  destruct (N.eq_dec x 0%N) as [-> | Hx].
  - by rewrite pretty_N_go_0.
  - rewrite pretty_N_go_step by lia.
    apply IH; [| discriminate]. apply N.div_lt; lia.
Qed.

Lemma pretty_nonempty (n : Z) : pretty n <> "".
Proof.
  assert (Hpos : forall p : positive, pretty p <> "").
  { intros p. unfold pretty, pretty_positive, pretty, pretty_N.
    rewrite decide_False by lia.
    rewrite pretty_N_go_step by lia. apply pretty_N_go_nonempty. discriminate. }
  destruct n as [| p | p]; unfold pretty, pretty_Z; [discriminate | apply Hpos |].
  discriminate.
Qed.

Section SeedAgain.

Context {G M : Type}.
Variable mathRandom : M -> float * M.
Variable fractionToString : float -> string.

Hypothesis mathRandom_unit : forall s,
  (0 <=? fst (mathRandom s))%float = true /\ (fst (mathRandom s) <? 1)%float = true.

(** X5 (initiateSeed). A seed that [initiateSeed] has returned, unless it is
    the empty string, comes back unchanged when it is passed in again, and
    that call leaves [Math.random] alone; and the seed generated for a falsy
    argument is never the empty string. *)
Theorem initiateSeed_round_trip (seedArg : Js.value) (w : World G M) :
  let res := initiateSeed mathRandom fractionToString seedArg w in
  (fst res <> "" ->
   initiateSeed mathRandom fractionToString (Js.String (fst res)) (snd res) = res)
  /\ (Js.toBoolean seedArg = false -> fst res <> "").
Proof.
  intros res. split.
  - intros Hne. destruct res as [s w']. cbn [fst snd] in *.
    unfold initiateSeed. cbn [Js.strictEqZero Js.toBoolean orb].
    destruct (String.eqb_spec s "") as [-> | _]; [done |]. reflexivity.
  - intros Hb. subst res. unfold initiateSeed.
    assert (Hcond : Js.strictEqZero
        match seedArg with Js.Undefined => Js.Number 0 | v => v end
      || negb (Js.toBoolean
        match seedArg with Js.Undefined => Js.Number 0 | v => v end) = true).
    { destruct seedArg; try reflexivity; cbn [Js.toBoolean] in *;
        rewrite Hb; apply orb_true_r. }
    rewrite Hcond.
    destruct (mathRandom_unit (math w)) as [H0 H1].
    destruct (mathRandom (math w)) as [u m']. cbn [fst snd] in *.
    destruct (floor_prints fractionToString u H0 H1) as (n & _ & Hs).
    cbn [Js.toString]. rewrite Hs. apply pretty_nonempty.
Qed.

End SeedAgain.

(** ** myColors *)

Section MyColorsProperties.

Context {Generator Rgb : Type}.
Variable pick : list Riso.entry -> Generator -> option Riso.entry * Generator.
Variable risoColors : list Riso.entry.
Variable toLowerCase : string -> string.
Variable parse : string -> option Rgb.
Variable style : Rgb -> string.

Local Abbreviation colors := (myColors pick risoColors toLowerCase parse style).

Lemma find_unlisted colorName table :
  unlisted toLowerCase colorName table ->
  find (fun c => String.eqb (toLowerCase (Riso.name c)) (toLowerCase colorName)) table = None.
Proof.
  induction 1 as [| c table Hc _ IH]; [done |]. cbn [find].
  by destruct (String.eqb_spec (toLowerCase (Riso.name c)) (toLowerCase colorName)).
Qed.

Lemma find_first colorName before c rest :
  unlisted toLowerCase colorName before ->
  toLowerCase (Riso.name c) = toLowerCase colorName ->
  find (fun c => String.eqb (toLowerCase (Riso.name c)) (toLowerCase colorName))
    (before ++ c :: rest) = Some c.
Proof.
  intros Hbefore Hc. induction Hbefore as [| b before Hb _ IH]; cbn [app find].
  - by rewrite Hc, String.eqb_refl.
  - by destruct (String.eqb_spec (toLowerCase (Riso.name b)) (toLowerCase colorName)).
Qed.

Lemma not_empty (colorName : string) : colorName <> "" -> String.eqb colorName "" = false.
Proof. intros H. by destruct (String.eqb_spec colorName ""). Qed.

(** X6 (myColors). A name that is not empty and equals, case apart, the name
    of an entry of the riso table gives the first such entry, with the alpha
    asked for (1 when none is given). Nothing is drawn from the generator,
    nothing is printed, and the name is not tried as a CSS colour. *)
Theorem riso_name_wins colorName alphaArg g console before c rest :
  colorName <> "" ->
  risoColors = before ++ c :: rest ->
  unlisted toLowerCase colorName before ->
  toLowerCase (Riso.name c) = toLowerCase colorName ->
  colors (Some colorName) alphaArg g console
  = (mkColor (Some (Riso.name c)) (Some (Riso.hex c)) (Some (default 1%float alphaArg)),
     g, console).
Proof.
  intros Hname Htable Hbefore Hc. unfold myColors. cbn [default from_option id].
  rewrite (not_empty _ Hname), Htable, (find_first _ _ _ _ Hbefore Hc). reflexivity.
Qed.

(** X7 (myColors). A name that is not empty, that no entry of the table has,
    and that parses as a colour comes back as the caller spelled it, with
    the style string of the parsed colour as [hex]. Nothing is drawn and
    nothing is printed. *)
Theorem css_name_kept colorName alphaArg g console rgb :
  colorName <> "" ->
  unlisted toLowerCase colorName risoColors ->
  parse colorName = Some rgb ->
  colors (Some colorName) alphaArg g console
  = (mkColor (Some colorName) (Some (style rgb)) (Some (default 1%float alphaArg)),
     g, console).
Proof.
  intros Hname Htable Hparse. unfold myColors. cbn [default from_option id].
  rewrite (not_empty _ Hname), (find_unlisted _ _ Htable), Hparse. reflexivity.
Qed.

(** X8 (myColors). A name that is not empty, that no entry has and that does
    not parse gives what the call without a name gives (the same colour, the
    same generator afterwards), after one warning that quotes the name. The
    call without a name prints nothing. *)
Theorem unknown_name_falls_back colorName alphaArg g console :
  colorName <> "" ->
  unlisted toLowerCase colorName risoColors ->
  parse colorName = None ->
  let fallback := colors None alphaArg g console in
  colors (Some colorName) alphaArg g console
  = (fst (fst fallback), snd (fst fallback),
     console ++ ["Farbe " +:+ quote +:+ colorName +:+ quote
                 +:+ " nicht gefunden, wähle zufällige Riso-Farbe."])
  /\ snd fallback = console.
Proof.
  intros Hname Htable Hparse. unfold myColors. cbn [default from_option id].
  rewrite (not_empty _ Hname), (find_unlisted _ _ Htable), Hparse.
  change (String.eqb "" "") with true. cbv iota.
  by destruct (pick risoColors g).
Qed.

Lemma myColors_alpha colorNameArg alphaArg g console :
  alpha (fst (fst (colors colorNameArg alphaArg g console))) = Some (default 1%float alphaArg).
Proof.
  unfold myColors.
  destruct (String.eqb _ ""); [by destruct (pick risoColors g) as [[c |] g'] |].
  destruct (find _ _) as [c |]; [done |].
  destruct (parse _); [done |].
  by destruct (pick risoColors g) as [[c |] g'].
Qed.

End MyColorsProperties.

(** ** The 2D context: save and restore *)

Section Ensures.

Context {S : Type}.
Variables Rr Rt : S -> S -> Prop.
Hypothesis Rr_refl : forall s, Rr s s.
Hypothesis Rr_trans : forall s1 s2 s3, Rr s1 s2 -> Rr s2 s3 -> Rr s1 s3.
Hypothesis Rr_Rt : forall s1 s2 s3, Rr s1 s2 -> Rt s2 s3 -> Rt s1 s3.

Lemma ensures_ret {A : Type} (a : A) : ensures Rr Rt (ret a).
Proof. intros s. apply Rr_refl. Qed.

Lemma ensures_bind {A B : Type} (m : Run S A) (k : A -> Run S B) :
  ensures Rr Rt m -> (forall a, ensures Rr Rt (k a)) -> ensures Rr Rt (bind m k).
Proof.
  intros Hm Hk s. unfold bind. specialize (Hm s).
  destruct (m s) as [a s1 | e s1 |]; [| done | done].
  specialize (Hk a s1). destruct (k a s1) as [b s2 | e s2 |]; eauto.
Qed.

Lemma ensures_forLoop (fuel : nat) (guard : Z -> bool) (body : Z -> Run S unit) :
  (forall i, ensures Rr Rt (body i)) ->
  forall i, ensures Rr Rt (forLoop fuel guard body i).
Proof.
  intros Hbody. induction fuel as [| fuel IH]; intros i; cbn [forLoop].
  - by intros s.
  - destruct (guard i); [| apply ensures_ret].
    apply ensures_bind; [apply Hbody | intros _; apply IH].
Qed.

End Ensures.

Section Balance.

Context {G : Type}.
Implicit Types s : Sketch G.

Lemma sameStack_refl s : sameStack s s.
Proof. done. Qed.
Lemma sameStack_trans s1 s2 s3 : sameStack s1 s2 -> sameStack s2 s3 -> sameStack s1 s3.
Proof. unfold sameStack. congruence. Qed.
Lemma sameStack_grown s1 s2 s3 : sameStack s1 s2 -> stackGrown s2 s3 -> stackGrown s1 s3.
Proof. unfold sameStack, stackGrown. intros H [x Hx]. exists x. congruence. Qed.

Lemma same_refl s : sameDrawingState s s.
Proof. done. Qed.
Lemma same_trans s1 s2 s3 :
  sameDrawingState s1 s2 -> sameDrawingState s2 s3 -> sameDrawingState s1 s3.
Proof. unfold sameDrawingState. intros [] []. split; congruence. Qed.
Lemma same_saved s1 s2 s3 :
  sameDrawingState s1 s2 -> callerStateSaved s2 s3 -> callerStateSaved s1 s3.
Proof.
  unfold sameDrawingState, callerStateSaved. intros [H1 H2] [x Hx]. exists x. congruence.
Qed.

Lemma kept_bind {A B : Type} (m : Run (Sketch G) A) (k : A -> Run (Sketch G) B) :
  kept m -> (forall a, kept (k a)) -> kept (bind m k).
Proof.
  apply ensures_bind; [apply sameStack_trans | apply sameStack_grown].
Qed.

Lemma kept_ret {A : Type} (a : A) : kept (ret (S := Sketch G) a).
Proof. by intros s. Qed.

Lemma balanced_bind {A B : Type} (m : Run (Sketch G) A) (k : A -> Run (Sketch G) B) :
  balanced m -> (forall a, balanced (k a)) -> balanced (bind m k).
Proof. apply ensures_bind; [apply same_trans | apply same_saved]. Qed.

Lemma balanced_forLoop (fuel : nat) (guard : Z -> bool) (body : Z -> Run (Sketch G) unit) :
  (forall i, balanced (body i)) -> forall i, balanced (forLoop fuel guard body i).
Proof. apply ensures_forLoop; [apply same_refl | apply same_trans | apply same_saved]. Qed.

Lemma balanced_kept {A : Type} (m : Run (Sketch G) A) : balanced m -> kept m.
Proof.
  intros Hm s. specialize (Hm s). destruct (m s) as [a s1 | e s1 |]; [| | done].
  - apply Hm.
  - destruct Hm as [x Hx]. exists (x ++ [Canvas.state (fst s)]).
    by rewrite <- app_assoc.
Qed.

(** A call of the context that leaves the stack alone. *)
Lemma kept_onContext (f : Canvas.t -> Canvas.t) :
  (forall c, Canvas.saved (f c) = Canvas.saved c) -> kept (onContext (Generator := G) f).
Proof. intros Hf s. apply Hf. Qed.

Lemma kept_onContextRun {A : Type} (m : Run Canvas.t A) :
  (forall c, match m c with
             | Returns _ c' | Throws _ c' => Canvas.saved c' = Canvas.saved c
             | OutOfFuel => True
             end) ->
  kept (onContextRun (Generator := G) m).
Proof.
  intros Hm s. unfold onContextRun. specialize (Hm (fst s)).
  destruct (m (fst s)); [done | by exists [] | done].
Qed.

Lemma kept_rnd (f : G -> float * G) : kept (rnd f).
Proof. intros s. unfold rnd. by destruct (f (snd s)). Qed.

Lemma balanced_rnd (f : G -> float * G) : balanced (rnd f).
Proof. intros s. unfold rnd. by destruct (f (snd s)). Qed.

(** Code that ends with the [restore] of a [save] made before it. *)
Lemma closes_restore : closes (onContext (Generator := G) Canvas.restore).
Proof.
  intros s st rest Hs. unfold onContext, Canvas.restore. cbn. by rewrite Hs.
Qed.

Lemma closes_bind {A B : Type} (m : Run (Sketch G) A) (k : A -> Run (Sketch G) B) :
  kept m -> (forall a, closes (k a)) -> closes (bind m k).
Proof.
  intros Hm Hk s st rest Hs. unfold bind. specialize (Hm s).
  destruct (m s) as [a s1 | e s1 |]; [| | done].
  - unfold sameStack in Hm. apply Hk. congruence.
  - destruct Hm as [x Hx]. exists x. congruence.
Qed.

Lemma balanced_save {A : Type} (m : Run (Sketch G) A) :
  closes m -> balanced (onContext Canvas.save ;;; m).
Proof.
  intros Hm s. unfold bind, onContext.
  specialize (Hm (Canvas.save (fst s), snd s) (Canvas.state (fst s))
                (Canvas.saved (fst s)) eq_refl).
  by destruct (m _) as [a s1 | e s1 |].
Qed.

End Balance.

(** ** dots.js: save and restore *)

Section DotsBalance.

Variable validColor : string -> bool.
Variables cos sin : float -> float.
Context {G : Type}.
Variables range gaussian : float -> float -> G -> float * G.
Variable fractionToString : float -> string.

Lemma kept_arc x y r a0 a1 ccw :
  kept (onContextRun (Generator := G) (Canvas.arc x y r a0 a1 ccw)).
Proof.
  apply kept_onContextRun. intros c. unfold Canvas.arc.
  destruct (negb _); [done |]. by destruct (r <? 0)%float.
Qed.

Lemma kept_createRadialGradient x0 y0 r0 x1 y1 r1 :
  kept (onContextRun (Generator := G) (Canvas.createRadialGradient x0 y0 r0 x1 y1 r1)).
Proof.
  apply kept_onContextRun. intros c. unfold Canvas.createRadialGradient.
  destruct (negb _); [done |]. by destruct (_ || _).
Qed.

Lemma kept_addColorStop offset colour g :
  kept (onContextRun (Generator := G) (Canvas.addColorStop validColor offset colour g)).
Proof.
  apply kept_onContextRun. intros c. unfold Canvas.addColorStop.
  destruct (negb _); [done |]. destruct (_ || _); [done |]. by destruct (negb _).
Qed.

Lemma kept_fillRect x y w h : kept (onContext (Generator := G) (Canvas.fillRect x y w h)).
Proof.
  apply kept_onContext. intros c. unfold Canvas.fillRect.
  destruct (negb _); [done |]. by destruct (_ || _).
Qed.

Lemma kept_fillText text x y : kept (onContext (Generator := G) (Canvas.fillText text x y)).
Proof.
  apply kept_onContext. intros c. unfold Canvas.fillText. by destruct (negb _).
Qed.

Ltac kept_leaf :=
  first
    [ apply kept_arc
    | apply kept_createRadialGradient
    | apply kept_addColorStop
    | apply kept_fillRect
    | apply kept_fillText
    | apply kept_rnd
    | apply kept_ret
    | apply kept_onContext; intros ?; reflexivity ].

Ltac frame :=
  apply balanced_save;
  repeat (apply closes_bind; [kept_leaf | intros ?]);
  apply closes_restore.

Lemma drawSingleDot_balanced radius color :
  balanced (drawSingleDot (Generator := G) validColor radius color).
Proof. unfold drawSingleDot. frame. Qed.

Lemma drawArc_balanced radius color lineWidth a0 a1 cw :
  balanced (drawArc (Generator := G) validColor radius color lineWidth a0 a1 cw).
Proof. unfold drawArc. frame. Qed.

Lemma drawOutline_balanced radius color lineWidth :
  balanced (drawOutline (Generator := G) validColor radius color lineWidth).
Proof. unfold drawOutline. frame. Qed.

Lemma drawCircumpunct_balanced outer color inner lineWidth :
  balanced (drawCircumpunct (Generator := G) validColor outer color inner lineWidth).
Proof.
  apply balanced_bind; [apply drawOutline_balanced |].
  intros _. apply drawSingleDot_balanced.
Qed.

Lemma drawConcentricDots_balanced fuel maxRadius color numCircles lineWidth ordered :
  balanced (drawConcentricDots validColor range fuel maxRadius color numCircles
              lineWidth ordered).
Proof.
  apply balanced_forLoop. intros i. apply balanced_bind.
  - destruct ordered; [by intros s |].
    apply balanced_bind; [apply balanced_rnd | by intros d s].
  - intros radius. apply drawOutline_balanced.
Qed.

Lemma drawSegmentedDots_balanced fuel radius color dotRadius numSegments lineWidth :
  balanced (drawSegmentedDots validColor cos sin (Generator := G) fuel radius color
              dotRadius numSegments lineWidth).
Proof.
  apply balanced_forLoop. intros i. apply balanced_save.
  apply closes_bind; [kept_leaf | intros _].
  apply closes_bind; [| intros _; apply closes_restore].
  apply balanced_kept.
  destruct (0 <? lineWidth)%float;
    [apply drawOutline_balanced | apply drawSingleDot_balanced].
Qed.

Lemma drawSplash_balanced fuel maxRadius color density dotSizeFactor :
  balanced (drawSplash validColor cos sin range gaussian fuel maxRadius color density
              dotSizeFactor).
Proof.
  apply balanced_forLoop. intros i.
  repeat (cbv zeta; apply balanced_bind; [apply balanced_rnd | intros ?]).
  cbv zeta.
  apply balanced_save.
  apply closes_bind; [kept_leaf | intros _].
  apply closes_bind; [| intros _; apply closes_restore].
  apply balanced_kept, drawSingleDot_balanced.
Qed.

Lemma drawRadialGradient_balanced radius color :
  balanced (drawRadialGradient (Generator := G) validColor radius color).
Proof. unfold drawRadialGradient. frame. Qed.

Lemma drawRadialVignette_balanced radius color :
  balanced (drawRadialVignette (Generator := G) validColor radius color).
Proof. unfold drawRadialVignette. frame. Qed.


End DotsBalance.

(** X9 (dots.js). Every function of dots.js pairs its [save] with a
    [restore], for all arguments: when it returns, the drawing state and the
    stack of saved states are the caller's. The only way out that skips the
    [restore] is an exception, and then the caller's drawing state is still
    on the stack, under the states saved since. *)
Theorem dots_balanced {G : Type} (validColor : string -> bool) (cos sin : float -> float)
    (range gaussian : float -> float -> G -> float * G)
    fuel radius color lineWidth a0 a1 cw inner numCircles ordered dotRadius numSegments
    density dotSizeFactor :
  balanced (drawSingleDot (Generator := G) validColor radius color)
  /\ balanced (drawArc (Generator := G) validColor radius color lineWidth a0 a1 cw)
  /\ balanced (drawOutline (Generator := G) validColor radius color lineWidth)
  /\ balanced (drawCircumpunct (Generator := G) validColor radius color inner lineWidth)
  /\ balanced (drawConcentricDots validColor range fuel radius color numCircles lineWidth
                 ordered)
  /\ balanced (drawSegmentedDots (Generator := G) validColor cos sin fuel radius color
                 dotRadius numSegments lineWidth)
  /\ balanced (drawSplash validColor cos sin range gaussian fuel radius color density
                 dotSizeFactor)
  /\ balanced (drawRadialGradient (Generator := G) validColor radius color)
  /\ balanced (drawRadialVignette (Generator := G) validColor radius color).
Proof.
  repeat split.
  - apply drawSingleDot_balanced.
  - apply drawArc_balanced.
  - apply drawOutline_balanced.
  - apply drawCircumpunct_balanced.
  - apply drawConcentricDots_balanced.
  - apply drawSegmentedDots_balanced.
  - apply drawSplash_balanced.
  - apply drawRadialGradient_balanced.
  - apply drawRadialVignette_balanced.
Qed.

(** ** Loops *)

(** *** Loop counters as binary64 values *)

Lemma ofZ_compare (i n : Z) :
  0 <= i < 2 ^ 53 -> 0 <= n < 2 ^ 53 ->
  SFcompare (Prim2SF (Js.ofZ i)) (Prim2SF (Js.ofZ n)) = Some (i ?= n).
Proof.
  intros Hi Hn.
  destruct (Z.eq_dec i 0) as [-> | Hi0]; destruct (Z.eq_dec n 0) as [-> | Hn0].
  - reflexivity.
  - destruct (Prim2SF_ofZ_normal n) as (m & e & Hx & _); [lia |].
    rewrite Hx. change (Prim2SF (Js.ofZ 0)) with (S754_zero false). cbn [SFcompare].
    f_equal. symmetry. apply Z.compare_lt_iff. lia.
  - destruct (Prim2SF_ofZ_normal i) as (m & e & Hx & _); [lia |].
    rewrite Hx. change (Prim2SF (Js.ofZ 0)) with (S754_zero false). cbn [SFcompare].
    f_equal. symmetry. apply Z.compare_gt_iff. lia.
  - destruct (Prim2SF_ofZ_normal i) as (m1 & e1 & Hx1 & He1 & Hm1 & Hlo1 & Hhi1); [lia |].
    destruct (Prim2SF_ofZ_normal n) as (m2 & e2 & Hx2 & He2 & Hm2 & Hlo2 & Hhi2); [lia |].
    rewrite Hx1, Hx2. cbn [SFcompare]. f_equal.
    assert (Hpow : forall a b, 0 <= a -> 0 <= b -> 2 ^ (a + b) = 2 ^ a * 2 ^ b)
      by (intros; apply Z.pow_add_r; lia).
    destruct (Z.compare_spec e1 e2) as [He | He | He].
    + subst e2. change (PosDef.Pos.compare_cont Eq m1 m2) with (Pos.compare_cont Eq m1 m2).
      rewrite Pos.compare_cont_spec.
      replace (Pos.switch_Eq Eq (m1 ?= m2)%positive) with (Zpos m1 ?= Zpos m2)
        by (change (Zpos m1 ?= Zpos m2) with (m1 ?= m2)%positive;
            by destruct (m1 ?= m2)%positive).
      rewrite Hm1, Hm2.
      assert (0 < 2 ^ (- e1)) by (apply Z.pow_pos_nonneg; lia).
      destruct (Z.compare_spec i n) as [Hc | Hc | Hc].
      * subst. apply Z.compare_refl.
      * apply Z.compare_lt_iff. nia.
      * apply Z.compare_gt_iff. nia.
    + symmetry. apply Z.compare_lt_iff.
      assert (0 < 2 ^ (- e2)) by (apply Z.pow_pos_nonneg; lia).
      replace (- e1) with ((- e1 - - e2 - 1) + 1 + - e2) in Hm1 by lia.
      rewrite !Hpow in Hm1 by lia. change (2 ^ 1) with 2 in Hm1.
      assert (0 < 2 ^ (- e1 - - e2 - 1)) by (apply Z.pow_pos_nonneg; lia).
      set (P := 2 ^ (- e2)) in *. set (Q := 2 ^ (- e1 - - e2 - 1)) in *.
      assert (i * Q * P < n * P) by lia.
      assert (i * Q < n) by (apply (Z.mul_lt_mono_pos_r P); lia).
      nia.
    + symmetry. apply Z.compare_gt_iff.
      assert (0 < 2 ^ (- e1)) by (apply Z.pow_pos_nonneg; lia).
      replace (- e2) with ((- e2 - - e1 - 1) + 1 + - e1) in Hm2 by lia.
      rewrite !Hpow in Hm2 by lia. change (2 ^ 1) with 2 in Hm2.
      assert (0 < 2 ^ (- e2 - - e1 - 1)) by (apply Z.pow_pos_nonneg; lia).
      set (P := 2 ^ (- e1)) in *. set (Q := 2 ^ (- e2 - - e1 - 1)) in *.
      assert (n * Q * P < i * P) by lia.
      assert (n * Q < i) by (apply (Z.mul_lt_mono_pos_r P); lia).
      nia.
Qed.

(** Counters and bounds below 2^53 compare as the integers they are. *)
Lemma ofZ_ltb (i n : Z) :
  0 <= i < 2 ^ 53 -> 0 <= n < 2 ^ 53 -> (Js.ofZ i <? Js.ofZ n)%float = (i <? n).
Proof.
  intros Hi Hn. rewrite ltb_spec. unfold SFltb. rewrite ofZ_compare by done.
  unfold Z.ltb. by destruct (i ?= n).
Qed.

Lemma ofZ_leb (i n : Z) :
  0 <= i < 2 ^ 53 -> 0 <= n < 2 ^ 53 -> (Js.ofZ i <=? Js.ofZ n)%float = (i <=? n).
Proof.
  intros Hi Hn. rewrite leb_spec. unfold SFleb. rewrite ofZ_compare by done.
  unfold Z.leb. by destruct (i ?= n).
Qed.

(** Every value a counter takes is below [Infinity]. *)
Lemma ofZ_lt_infinity (i : Z) :
  0 <= i <= 2 ^ 53 -> (Js.ofZ i <? infinity)%float = true.
Proof.
  intros Hi. rewrite ltb_spec.
  destruct (Z.eq_dec i 0) as [-> | H0]; [reflexivity |].
  destruct (Z.eq_dec i (2 ^ 53)) as [-> | H53]; [reflexivity |].
  destruct (Prim2SF_ofZ i) as (m & e & Hx & _); [lia |].
  by rewrite Hx.
Qed.

(** *** Loops with a known trip count *)

Lemma increment_below (i : Z) : i < 2 ^ 53 -> increment i = i + 1.
Proof. intros Hi. unfold increment. by rewrite (proj2 (Z.ltb_lt _ _) Hi). Qed.

Lemma forLoop_count {S : Type} (guard : Z -> bool) (body : Z -> Run S unit) (n : Z) :
  0 <= n < 2 ^ 53 ->
  (forall i, 0 <= i <= n -> guard i = (i <? n)) ->
  forall (fuel : nat) (i : Z) (s : S),
    0 <= i <= n ->
    (Z.to_nat (n - i) < fuel)%nat ->
    forLoop fuel guard body i s = forEach body (seqZ i (n - i)) s.
Proof.
  intros Hn Hguard. induction fuel as [| fuel IH]; intros i s Hi Hfuel; [lia |].
  cbn [forLoop]. rewrite Hguard by done.
  destruct (Z.ltb_spec i n) as [Hlt | Hge].
  - rewrite seqZ_cons by lia. cbn [forEach]. unfold bind.
    destruct (body i s) as [[] s1 | e s1 |]; [| done | done].
    rewrite increment_below by lia.
    rewrite IH by lia. f_equal. f_equal; lia.
  - replace (n - i) with 0 by lia. reflexivity.
Qed.

(** A loop whose guard holds for every value of the counter does not
    end. *)
Lemma forLoop_endless {S : Type} (guard : Z -> bool) (body : Z -> Run S unit) :
  (forall i, 0 <= i <= 2 ^ 53 -> guard i = true) ->
  (forall i s, exists s', body i s = Returns tt s') ->
  forall (fuel : nat) (i : Z) (s : S),
    0 <= i <= 2 ^ 53 -> forLoop fuel guard body i s = OutOfFuel.
Proof.
  intros Hguard Hbody. induction fuel as [| fuel IH]; intros i s Hi; [done |].
  cbn [forLoop]. rewrite Hguard by done. unfold bind.
  destruct (Hbody i s) as [s' ->]. apply IH.
  unfold increment. destruct (Z.ltb_spec i (2 ^ 53)); lia.
Qed.

(** An invariant [I k] of the state after [k] iterations. *)
Lemma forEach_invariant {S A : Type} (I : nat -> S -> Prop) (body : A -> Run S unit) :
  (forall i k s, I k s -> exists s', body i s = Returns tt s' /\ I (Datatypes.S k) s') ->
  forall (counters : list A) (k : nat) (s : S),
    I k s ->
    exists s', forEach body counters s = Returns tt s'
               /\ I (k + length counters)%nat s'.
Proof.
  intros Hbody. induction counters as [| i rest IH]; intros k s Hs.
  - exists s. split; [done |]. by rewrite Nat.add_0_r.
  - cbn [forEach]. unfold bind.
    destruct (Hbody i k s Hs) as (s1 & -> & Hs1).
    destruct (IH (Datatypes.S k) s1 Hs1) as (s2 & -> & Hs2).
    exists s2. split; [done |]. cbn [length].
    by replace (k + Datatypes.S (length rest))%nat with (Datatypes.S k + length rest)%nat by lia.
Qed.

(** ** Comparisons of binary64 values *)

Lemma SFcompare_antisym (x y : spec_float) :
  SFcompare y x = option_map CompOpp (SFcompare x y).
Proof.
  destruct x as [sx | sx | | sx mx ex], y as [sy | sy | | sy my ey];
    try destruct sx; try destruct sy; try reflexivity; cbn [SFcompare option_map];
    f_equal; rewrite (Z.compare_antisym ex ey);
    destruct (ex ?= ey) eqn:He; cbn [CompOpp]; try reflexivity;
    change (PosDef.Pos.compare_cont Eq my mx) with (Pos.compare_cont Eq my mx);
    change (PosDef.Pos.compare_cont Eq mx my) with (Pos.compare_cont Eq mx my);
    rewrite ?CompOpp_involutive.
  - by rewrite (Pos.compare_cont_antisym my mx Eq).
  - by rewrite (Pos.compare_cont_antisym mx my Eq).
Qed.

Lemma ltb_not_leb (x y : float) : (x <? y)%float = true -> (y <=? x)%float = false.
Proof.
  intros H. rewrite ltb_spec in H. rewrite leb_spec. unfold SFltb, SFleb in *.
  rewrite (SFcompare_antisym (Prim2SF x) (Prim2SF y)).
  by destruct (SFcompare (Prim2SF x) (Prim2SF y)) as [[] |].
Qed.

Lemma SFeqb_finite_refl (s : bool) (m : positive) (e : Z) :
  SFeqb (S754_finite s m e) (S754_finite s m e) = true.
Proof.
  unfold SFeqb, SFcompare. rewrite Z.compare_refl.
  change (PosDef.Pos.compare_cont Eq m m) with (Pos.compare_cont Eq m m).
  rewrite Pos.compare_cont_refl. by destruct s.
Qed.

Ltac float_class x :=
  unfold Js.toBoolean, PrimFloat.is_finite, PrimFloat.is_infinity, PrimFloat.is_nan,
    PrimFloat.is_zero in *;
  repeat first [rewrite FloatAxioms.ltb_spec in * | rewrite FloatAxioms.leb_spec in * | rewrite FloatAxioms.eqb_spec in *
               | rewrite abs_spec in *];
  change (Prim2SF 0) with (S754_zero false) in *;
  change (Prim2SF zero) with (S754_zero false) in *;
  change (Prim2SF infinity) with (S754_infinity false) in *;
  destruct (Prim2SF x) as [[] | [] | | [] ? ?];
  rewrite ?SFeqb_finite_refl in *.

(** A number above zero is neither NaN nor zero. *)
Lemma positive_truthy (x : float) :
  (0 <? x)%float = true ->
  Js.toBoolean (Js.Number x) = true /\ (0 <=? x)%float = true.
Proof. intros H. by float_class x. Qed.

Lemma negative_truthy (x : float) :
  (x <? 0)%float = true ->
  Js.toBoolean (Js.Number x) = true /\ (0 <=? x)%float = false.
Proof. intros H. by float_class x. Qed.

(** Zero and NaN are the numbers [||] replaces. *)
Lemma falsy_number (x : float) :
  Js.toBoolean (Js.Number x) = false <-> PrimFloat.is_nan x = true \/ (x =? 0)%float = true.
Proof.
  unfold Js.toBoolean. change (PrimFloat.is_zero x) with (x =? 0)%float.
  destruct (PrimFloat.is_nan x), (x =? 0)%float; cbn; intuition congruence.
Qed.

(** [Math.abs] never gives a number below zero. *)
Lemma abs_not_negative (x : float) : (PrimFloat.abs x <? 0)%float = false.
Proof.
  rewrite FloatAxioms.ltb_spec, abs_spec. change (Prim2SF 0) with (S754_zero false).
  by destruct (Prim2SF x) as [[] | [] | | [] m e].
Qed.

(** ** dots.js: what the functions come to *)

Section DotsRun.

Variable validColor : string -> bool.
Context {G : Type}.
Implicit Types s : Sketch G.

Lemma drawSingleDot_run radius color s :
  drawSingleDot validColor radius color s
  = let c := dotReady validColor color (fst s) in
    if negb (PrimFloat.is_finite radius)
    then Returns tt (Canvas.restore (Canvas.fill c), snd s)
    else if (radius <? 0)%float then Throws IndexSizeError (c, snd s)
    else Returns tt
           (Canvas.restore
              (Canvas.fill
                 (Canvas.mk (Canvas.state c) (Canvas.saved c)
                    [circle radius (Canvas.transform (Canvas.state c))]
                    (Canvas.drawn c))), snd s).
Proof.
  unfold drawSingleDot, bind, onContext, onContextRun, Canvas.arc. cbn [fst snd].
  fold (dotReady validColor color (fst s)).
  change (PrimFloat.is_finite 0) with true.
  change (PrimFloat.is_finite (PI * 2)) with true.
  cbn [andb]. rewrite andb_true_r.
  destruct (PrimFloat.is_finite radius); cbn [negb]; [| done].
  by destruct (radius <? 0)%float.
Qed.

Lemma drawOutline_run radius color lineWidth s :
  drawOutline validColor radius color lineWidth s
  = let c := outlineReady validColor color lineWidth (fst s) in
    if negb (PrimFloat.is_finite radius)
    then Returns tt (Canvas.restore (Canvas.stroke c), snd s)
    else if (radius <? 0)%float then Throws IndexSizeError (c, snd s)
    else Returns tt
           (Canvas.restore
              (Canvas.stroke
                 (Canvas.mk (Canvas.state c) (Canvas.saved c)
                    [circle radius (Canvas.transform (Canvas.state c))]
                    (Canvas.drawn c))), snd s).
Proof.
  unfold drawOutline, bind, onContext, onContextRun, Canvas.arc. cbn [fst snd].
  fold (outlineReady validColor color lineWidth (fst s)).
  change (PrimFloat.is_finite 0) with true.
  change (PrimFloat.is_finite (PI * 2)) with true.
  cbn [andb]. rewrite andb_true_r.
  destruct (PrimFloat.is_finite radius); cbn [negb]; [| done].
  by destruct (radius <? 0)%float.
Qed.

Lemma drawArc_run radius color lineWidth a0 a1 cw s :
  drawArc validColor radius color lineWidth a0 a1 cw s
  = let c := arcReady validColor color lineWidth (fst s) in
    if negb (PrimFloat.is_finite radius && PrimFloat.is_finite a0 && PrimFloat.is_finite a1)
    then Returns tt (Canvas.restore (Canvas.stroke c), snd s)
    else if (radius <? 0)%float then Throws IndexSizeError (c, snd s)
    else Returns tt
           (Canvas.restore
              (Canvas.stroke
                 (Canvas.mk (Canvas.state c) (Canvas.saved c)
                    [Canvas.mkArc (0, 0)%float radius a0 a1 (default false cw)
                       (Canvas.transform (Canvas.state c))]
                    (Canvas.drawn c))), snd s).
Proof.
  unfold drawArc, bind, onContext, onContextRun, Canvas.arc. cbn [fst snd].
  fold (arcReady validColor color lineWidth (fst s)).
  change (PrimFloat.is_finite 0) with true. cbn [andb].
  destruct (negb _); [done |].
  by destruct (radius <? 0)%float.
Qed.

Lemma drawRadialGradient_run radius color s :
  drawRadialGradient validColor radius color s
  = gradientRun validColor (styleString (hex color)) "rgba(255, 255, 255, 0)" radius s.
Proof.
  unfold drawRadialGradient, gradientRun, bind, onContext, onContextRun, Canvas.arc,
    Canvas.createRadialGradient, Canvas.addColorStop.
  cbn [fst snd].
  change (PrimFloat.is_finite 0) with true.
  change (PrimFloat.is_finite 1) with true.
  change (PrimFloat.is_finite (PI * 2)) with true.
  change (0 <? 0)%float with false. change (1 <? 0)%float with false.
  change (1 <? 1)%float with false.
  cbn [andb orb negb]. rewrite andb_true_r.
  destruct (PrimFloat.is_finite radius); cbn [negb]; [| done].
  destruct (radius <? 0)%float; [done |].
  destruct (validColor (styleString (hex color))); cbn [negb]; [| done].
  by destruct (validColor "rgba(255, 255, 255, 0)").
Qed.

Lemma drawRadialVignette_run radius color s :
  drawRadialVignette validColor radius color s
  = gradientRun validColor "rgba(255, 255, 255, 0)" (styleString (hex color)) radius s.
Proof.
  unfold drawRadialVignette, gradientRun, bind, onContext, onContextRun, Canvas.arc,
    Canvas.createRadialGradient, Canvas.addColorStop.
  cbn [fst snd].
  change (PrimFloat.is_finite 0) with true.
  change (PrimFloat.is_finite 1) with true.
  change (PrimFloat.is_finite (PI * 2)) with true.
  change (0 <? 0)%float with false. change (1 <? 0)%float with false.
  change (1 <? 1)%float with false.
  cbn [andb orb negb]. rewrite andb_true_r.
  destruct (PrimFloat.is_finite radius); cbn [negb]; [| done].
  destruct (radius <? 0)%float; [done |].
  destruct (validColor "rgba(255, 255, 255, 0)"); cbn [negb]; [| done].
  by destruct (validColor (styleString (hex color))).
Qed.

End DotsRun.

Lemma drop_added {A : Type} (l added : list A) : drop (length l) (l ++ added) = added.
Proof. by rewrite drop_app_length. Qed.

Lemma alphaAfter_cases (a : option float) (current : float) :
  match a with
  | None => alphaAfter a current = 1%float
  | Some v =>
      (PrimFloat.is_nan v = true \/ (v =? 0)%float = true -> alphaAfter a current = 1%float)
      /\ ((0 <? v)%float = true -> (v <=? 1)%float = true -> alphaAfter a current = v)
      /\ ((v <? 0)%float = true \/ (1 <? v)%float = true -> alphaAfter a current = current)
  end.
Proof.
  unfold alphaAfter, alphaOr1.
  destruct a as [v |]; [| reflexivity].
  split; [| split].
  - intros H. apply falsy_number in H. rewrite H. reflexivity.
  - intros H0 H1. destruct (positive_truthy v H0) as [-> ->]. rewrite H1. reflexivity.
  - intros [H | H].
    + destruct (negative_truthy v H) as [-> ->]. reflexivity.
    + assert (Ht : Js.toBoolean (Js.Number v) = true).
      { clear -H. float_class v; done. }
      rewrite Ht, (ltb_not_leb _ _ H), andb_false_r. reflexivity.
Qed.

Section Painted.

Variable validColor : string -> bool.
Context {G : Type}.
Implicit Types s : Sketch G.

Lemma drawn_restore (c : Canvas.t) : Canvas.drawn (Canvas.restore c) = Canvas.drawn c.
Proof. unfold Canvas.restore. by destruct (Canvas.saved c). Qed.

Lemma drawn_fill (c : Canvas.t) :
  Canvas.drawn (Canvas.fill c)
  = Canvas.drawn c ++ [Canvas.Fill (Canvas.path c) (Canvas.state c)].
Proof. reflexivity. Qed.

Lemma drawn_stroke (c : Canvas.t) :
  Canvas.drawn (Canvas.stroke c)
  = Canvas.drawn c ++ [Canvas.Stroke (Canvas.path c) (Canvas.state c)].
Proof. reflexivity. Qed.

Lemma drawn_dotReady color c : Canvas.drawn (dotReady validColor color c) = Canvas.drawn c.
Proof. reflexivity. Qed.

Lemma drawn_outlineReady color lineWidth c :
  Canvas.drawn (outlineReady validColor color lineWidth c) = Canvas.drawn c.
Proof. reflexivity. Qed.

Lemma drawn_arcReady color lineWidth c :
  Canvas.drawn (arcReady validColor color lineWidth c) = Canvas.drawn c.
Proof. reflexivity. Qed.

Lemma saved_dotReady color c :
  Canvas.saved (dotReady validColor color c) = Canvas.state c :: Canvas.saved c.
Proof. reflexivity. Qed.

Lemma saved_outlineReady color lineWidth c :
  Canvas.saved (outlineReady validColor color lineWidth c)
  = Canvas.state c :: Canvas.saved c.
Proof. reflexivity. Qed.

Lemma saved_arcReady color lineWidth c :
  Canvas.saved (arcReady validColor color lineWidth c) = Canvas.state c :: Canvas.saved c.
Proof. reflexivity. Qed.

Lemma dotReady_alpha color c :
  Canvas.globalAlpha (Canvas.state (dotReady validColor color c))
  = alphaAfter (alpha color) (Canvas.globalAlpha (Canvas.state c)).
Proof.
  unfold alphaAfter. cbn. by destruct (_ && _), (validColor _).
Qed.

Lemma outlineReady_alpha color lineWidth c :
  Canvas.globalAlpha (Canvas.state (outlineReady validColor color lineWidth c))
  = alphaAfter (alpha color) (Canvas.globalAlpha (Canvas.state c)).
Proof.
  unfold alphaAfter. cbn. by destruct (_ && _), (_ && _), (validColor _).
Qed.

(** X10 (drawSingleDot, drawOutline, drawArc). A finite negative radius
    throws IndexSizeError out of [arc], after the [save] and before the
    [restore]: nothing is painted, and the stack of saved states is one
    deeper than the caller left it. *)
Theorem negative_radius_throws radius color lineWidth a0 a1 cw s :
  PrimFloat.is_finite radius = true -> (radius <? 0)%float = true ->
  PrimFloat.is_finite a0 = true -> PrimFloat.is_finite a1 = true ->
  let stuck (m : Run (Sketch G) unit) :=
    exists c', m s = Throws IndexSizeError (c', snd s)
      /\ Canvas.saved c' = Canvas.state (fst s) :: Canvas.saved (fst s)
      /\ Canvas.drawn c' = Canvas.drawn (fst s) in
  stuck (drawSingleDot validColor radius color)
  /\ stuck (drawOutline validColor radius color lineWidth)
  /\ stuck (drawArc validColor radius color lineWidth a0 a1 cw).
Proof.
  intros Hfin Hneg Ha0 Ha1 stuck. subst stuck. cbv beta.
  rewrite drawSingleDot_run, drawOutline_run, drawArc_run. cbv zeta.
  rewrite Hfin, Ha0, Ha1, Hneg. cbn [negb andb].
  repeat split; eexists; (split; [reflexivity |]); by split.
Qed.

(** X11 (drawSingleDot, drawOutline). With a radius that is not negative
    each paints one operation, and both with the same [globalAlpha]: 1 when
    [color.alpha] is missing, NaN or zero (an alpha of 0 paints opaque);
    [color.alpha] itself when it is above 0 and at most 1; the caller's
    [globalAlpha] when it is negative or above 1, since the setter ignores
    it. *)
Theorem painted_alpha radius color lineWidth s :
  (radius <? 0)%float = false ->
  exists p1 st1 p2 st2,
    paintedBy (drawSingleDot validColor radius color) s = [Canvas.Fill p1 st1]
    /\ paintedBy (drawOutline validColor radius color lineWidth) s = [Canvas.Stroke p2 st2]
    /\ Canvas.globalAlpha st2 = Canvas.globalAlpha st1
    /\ match alpha color with
       | None => Canvas.globalAlpha st1 = 1%float
       | Some v =>
           (PrimFloat.is_nan v = true \/ (v =? 0)%float = true ->
            Canvas.globalAlpha st1 = 1%float)
           /\ ((0 <? v)%float = true -> (v <=? 1)%float = true ->
               Canvas.globalAlpha st1 = v)
           /\ ((v <? 0)%float = true \/ (1 <? v)%float = true ->
               Canvas.globalAlpha st1 = Canvas.globalAlpha (Canvas.state (fst s)))
       end.
Proof.
  intros Hr. unfold paintedBy. rewrite drawSingleDot_run, drawOutline_run. cbv zeta.
  rewrite Hr.
  pose proof (alphaAfter_cases (alpha color) (Canvas.globalAlpha (Canvas.state (fst s))))
    as Ha.
  rewrite <- (dotReady_alpha color (fst s)) in Ha.
  pose proof (outlineReady_alpha color lineWidth (fst s)) as Ho.
  rewrite <- (dotReady_alpha color (fst s)) in Ho.
  destruct (negb (PrimFloat.is_finite radius)); cbn [fst];
    rewrite !drawn_restore, drawn_fill, drawn_stroke; cbn [Canvas.drawn];
    rewrite ?drawn_dotReady, ?drawn_outlineReady, !drop_added;
    do 4 eexists; (split; [reflexivity |]); (split; [reflexivity |]);
    (split; [exact Ho | exact Ha]).
Qed.

Lemma transform_dotReady color c :
  Canvas.transform (Canvas.state (dotReady validColor color c))
  = Canvas.transform (Canvas.state c).
Proof. cbn. by destruct (_ && _), (validColor _). Qed.

Lemma transform_outlineReady color lineWidth c :
  Canvas.transform (Canvas.state (outlineReady validColor color lineWidth c))
  = Canvas.transform (Canvas.state c).
Proof. cbn. by destruct (_ && _), (_ && _), (validColor _). Qed.

Lemma transform_arcReady color lineWidth c :
  Canvas.transform (Canvas.state (arcReady validColor color lineWidth c))
  = Canvas.transform (Canvas.state c).
Proof. cbn. by destruct (_ && _), (_ && _), (validColor _). Qed.

Lemma lineWidth_arcReady color lineWidth c :
  Canvas.lineWidth (Canvas.state (arcReady validColor color lineWidth c))
  = if (0 <? lineWidth)%float && PrimFloat.is_finite lineWidth
    then lineWidth else Canvas.lineWidth (Canvas.state c).
Proof. cbn. by destruct (_ && _), (_ && _), (validColor _). Qed.

(** X12 (drawArc). With finite arguments and a radius that is not negative,
    [drawArc] strokes one arc at the origin of the caller's transform and
    passes [isClockwise] (false when missing) as the [counterclockwise]
    argument of [arc]. It is stroked with the line width given when that is
    finite and above zero, and with the caller's otherwise. *)
Theorem drawArc_direction radius color lineWidth a0 a1 (cw : option bool) s :
  PrimFloat.is_finite radius = true -> (radius <? 0)%float = false ->
  PrimFloat.is_finite a0 = true -> PrimFloat.is_finite a1 = true ->
  exists arc st,
    paintedBy (drawArc validColor radius color lineWidth a0 a1 cw) s
    = [Canvas.Stroke [arc] st]
    /\ arc = Canvas.mkArc (0, 0)%float radius a0 a1 (default false cw)
               (Canvas.transform (Canvas.state (fst s)))
    /\ Canvas.lineWidth st
       = (if (0 <? lineWidth)%float && PrimFloat.is_finite lineWidth
          then lineWidth else Canvas.lineWidth (Canvas.state (fst s))).
Proof.
  intros Hr Hneg Ha0 Ha1. unfold paintedBy. rewrite drawArc_run. cbv zeta.
  rewrite Hr, Ha0, Ha1, Hneg. cbn [andb negb fst].
  rewrite drawn_restore, drawn_stroke. cbn [Canvas.drawn Canvas.path Canvas.state].
  rewrite drawn_arcReady, drop_added, transform_arcReady.
  do 2 eexists. split; [reflexivity |]. split; [reflexivity |].
  apply lineWidth_arcReady.
Qed.

(** X13 (drawSingleDot, drawRadialGradient). A radius that is NaN or
    infinite: [drawSingleDot] returns, having filled an empty path ([arc]
    ignores the call), with the stack as the caller left it;
    [drawRadialGradient] throws TypeError out of [createRadialGradient],
    paints nothing and leaves the stack one deeper. *)
Theorem non_finite_radius radius color s :
  PrimFloat.is_finite radius = false ->
  (exists c' st,
     drawSingleDot validColor radius color s = Returns tt (c', snd s)
     /\ paintedBy (drawSingleDot validColor radius color) s = [Canvas.Fill [] st]
     /\ Canvas.saved c' = Canvas.saved (fst s))
  /\ (exists c',
        drawRadialGradient validColor radius color s = Throws TypeError (c', snd s)
        /\ paintedBy (drawRadialGradient validColor radius color) s = []
        /\ Canvas.saved c' = Canvas.state (fst s) :: Canvas.saved (fst s)).
Proof.
  intros Hr. unfold paintedBy.
  rewrite drawSingleDot_run, drawRadialGradient_run. unfold gradientRun. cbv zeta.
  rewrite Hr. cbn [negb fst]. split.
  - do 2 eexists. split; [reflexivity |].
    rewrite drawn_restore, drawn_fill, drawn_dotReady, drop_added.
    split; [reflexivity |]. reflexivity.
  - eexists. split; [reflexivity |]. cbn [Canvas.save Canvas.drawn Canvas.saved].
    by rewrite drop_all.
Qed.

(** X14 (drawCircumpunct). With an outer radius that is not negative and an
    inner radius that is finite and negative, the outline is stroked and
    then the call throws IndexSizeError: one operation is painted and the
    stack is one deeper. *)
Theorem circumpunct_half_drawn outer color inner lineWidth s :
  (outer <? 0)%float = false ->
  PrimFloat.is_finite inner = true -> (inner <? 0)%float = true ->
  exists c' p st,
    drawCircumpunct validColor outer color inner lineWidth s
    = Throws IndexSizeError (c', snd s)
    /\ paintedBy (drawCircumpunct validColor outer color inner lineWidth) s
       = [Canvas.Stroke p st]
    /\ Canvas.saved c' = Canvas.state (fst s) :: Canvas.saved (fst s).
Proof.
  intros Houter Hfin Hneg. unfold paintedBy, drawCircumpunct, bind.
  rewrite drawOutline_run. cbv zeta. rewrite Houter.
  destruct (negb (PrimFloat.is_finite outer));
    rewrite drawSingleDot_run; cbv zeta; rewrite Hfin, Hneg; cbn [negb fst snd];
    do 3 eexists; (split; [reflexivity |]);
    rewrite drawn_dotReady, saved_dotReady, drawn_restore, drawn_stroke;
    cbn [Canvas.drawn]; rewrite ?drawn_outlineReady, drop_added;
    (split; [reflexivity |]); reflexivity.
Qed.

(** X15 (drawRadialGradient, drawRadialVignette). With a finite radius that
    is not negative and colours that parse, each fills one full circle of
    that radius with a radial gradient from radius 0 to that radius at the
    origin. The gradient runs from [color.hex] to transparent white, the
    vignette from transparent white to [color.hex]. Neither reads
    [color.alpha]: both are painted with the caller's [globalAlpha]. *)
Theorem gradient_stops radius color s :
  PrimFloat.is_finite radius = true -> (radius <? 0)%float = false ->
  validColor (styleString (hex color)) = true ->
  validColor "rgba(255, 255, 255, 0)" = true ->
  let shape := [circle radius (Canvas.transform (Canvas.state (fst s)))] in
  let gradient stops := Canvas.Grad (Canvas.mkGradient 0 0 0 0 0 radius stops) in
  exists st1 st2,
    paintedBy (drawRadialGradient validColor radius color) s = [Canvas.Fill shape st1]
    /\ paintedBy (drawRadialVignette validColor radius color) s = [Canvas.Fill shape st2]
    /\ Canvas.fillStyle st1
       = gradient [(0%float, styleString (hex color)); (1%float, "rgba(255, 255, 255, 0)")]
    /\ Canvas.fillStyle st2
       = gradient [(0%float, "rgba(255, 255, 255, 0)"); (1%float, styleString (hex color))]
    /\ Canvas.globalAlpha st1 = Canvas.globalAlpha (Canvas.state (fst s))
    /\ Canvas.globalAlpha st2 = Canvas.globalAlpha (Canvas.state (fst s)).
Proof.
  intros Hfin Hneg Hhex Hclear shape gradient. unfold paintedBy.
  rewrite drawRadialGradient_run, drawRadialVignette_run. unfold gradientRun. cbv zeta.
  rewrite Hfin, Hneg, Hhex, Hclear. cbn [negb fst].
  rewrite !drawn_restore, !drawn_fill. cbn [Canvas.drawn Canvas.save Canvas.beginPath
    Canvas.setFillGradient Canvas.withState Canvas.state Canvas.path Canvas.transform].
  rewrite !drop_added. do 2 eexists. repeat (split; [reflexivity |]). reflexivity.
Qed.

(** X16 (drawRadialGradient, drawRadialVignette, drawSingleDot). When
    [color.hex] does not parse as a colour (or is missing), the two gradient
    functions throw SyntaxError out of [addColorStop], paint nothing and
    leave the stack one deeper; [drawSingleDot] returns and fills with the
    caller's fill style. *)
Theorem colour_that_does_not_parse radius color s :
  PrimFloat.is_finite radius = true -> (radius <? 0)%float = false ->
  validColor (styleString (hex color)) = false ->
  let stuck (m : Run (Sketch G) unit) :=
    exists c', m s = Throws SyntaxError (c', snd s)
      /\ Canvas.saved c' = Canvas.state (fst s) :: Canvas.saved (fst s)
      /\ Canvas.drawn c' = Canvas.drawn (fst s) in
  stuck (drawRadialGradient validColor radius color)
  /\ stuck (drawRadialVignette validColor radius color)
  /\ exists p st,
       paintedBy (drawSingleDot validColor radius color) s = [Canvas.Fill p st]
       /\ Canvas.fillStyle st = Canvas.fillStyle (Canvas.state (fst s)).
Proof.
  intros Hfin Hneg Hhex stuck. subst stuck. cbv beta. unfold paintedBy.
  rewrite drawRadialGradient_run, drawRadialVignette_run, drawSingleDot_run.
  unfold gradientRun. cbv zeta. rewrite Hfin, Hneg, Hhex. cbn [negb fst].
  split; [| split].
  - eexists. split; [reflexivity |]. by split.
  - destruct (validColor "rgba(255, 255, 255, 0)"); cbn [negb];
      (eexists; split; [reflexivity |]; by split).
  - rewrite drawn_restore, drawn_fill. cbn [Canvas.drawn Canvas.path Canvas.state].
    rewrite drawn_dotReady, drop_added. do 2 eexists. split; [reflexivity |].
    cbn. rewrite Hhex. by destruct (_ && _).
Qed.

End Painted.

(** ** dots.js: the loops *)

Section CanvasLoops.

Variable validColor : string -> bool.
Variables cos sin : float -> float.
Context {G : Type}.
Variables range gaussian : float -> float -> G -> float * G.
Variable fractionToString : float -> string.
Implicit Types s : Sketch G.

Lemma globalAlpha_translate x y c :
  Canvas.globalAlpha (Canvas.state (Canvas.translate x y c))
  = Canvas.globalAlpha (Canvas.state c).
Proof. cbn. by destruct (_ && _). Qed.

(** One dot at a translated origin, between [save] and [restore]. *)
Lemma translated_dot (outlined : bool) x y dotRadius color lineWidth s :
  (dotRadius <? 0)%float = false ->
  exists c' op,
    (onContext Canvas.save ;;;
     onContext (Canvas.translate x y) ;;;
     (if outlined
      then drawOutline validColor dotRadius color lineWidth
      else drawSingleDot validColor dotRadius color) ;;;
     onContext Canvas.restore) s = Returns tt (c', snd s)
    /\ Canvas.state c' = Canvas.state (fst s)
    /\ Canvas.saved c' = Canvas.saved (fst s)
    /\ Canvas.drawn c' = Canvas.drawn (fst s) ++ [op]
    /\ (if outlined then isStroke op else isFill op) = true
    /\ Canvas.globalAlpha (paintedWith op)
       = alphaAfter (alpha color) (Canvas.globalAlpha (Canvas.state (fst s))).
Proof.
  intros Hr. unfold bind at 1 2. unfold onContext at 1 2. cbn [fst snd].
  set (c := Canvas.translate x y (Canvas.save (fst s))).
  assert (Halpha : Canvas.globalAlpha (Canvas.state c)
                   = Canvas.globalAlpha (Canvas.state (fst s)))
    by (unfold c; by rewrite globalAlpha_translate).
  unfold bind.
  destruct outlined.
  - rewrite drawOutline_run. cbv zeta. rewrite Hr.
    destruct (negb (PrimFloat.is_finite dotRadius)); unfold onContext; cbn [fst snd];
      do 2 eexists; (split; [reflexivity |]);
      (split; [reflexivity |]); (split; [reflexivity |]);
      (split; [reflexivity |]); (split; [reflexivity |]);
      cbn [paintedWith Canvas.state]; by rewrite outlineReady_alpha, Halpha.
  - rewrite drawSingleDot_run. cbv zeta. rewrite Hr.
    destruct (negb (PrimFloat.is_finite dotRadius)); unfold onContext; cbn [fst snd];
      do 2 eexists; (split; [reflexivity |]);
      (split; [reflexivity |]); (split; [reflexivity |]);
      (split; [reflexivity |]); (split; [reflexivity |]);
      cbn [paintedWith Canvas.state]; by rewrite dotReady_alpha, Halpha.
Qed.

(** X17 (drawSegmentedDots). For a whole number [n] of segments below 2^53
    and a dot radius that is not negative, the call returns (given fuel for
    [n] iterations), restores the drawing state and the stack, leaves the
    generator alone and paints exactly [n] operations: strokes when
    [lineWidth] is above zero, fills otherwise (also when [lineWidth] is
    NaN), each with the [globalAlpha] that [color.alpha] gives from the
    caller's. *)
Theorem segmented_dots_count (fuel : nat) radius color dotRadius (n : Z) lineWidth s :
  0 <= n < 2 ^ 53 ->
  (dotRadius <? 0)%float = false ->
  (Z.to_nat n < fuel)%nat ->
  exists c' ops,
    drawSegmentedDots validColor cos sin fuel radius color dotRadius (Js.ofZ n) lineWidth s
    = Returns tt (c', snd s)
    /\ Canvas.state c' = Canvas.state (fst s)
    /\ Canvas.saved c' = Canvas.saved (fst s)
    /\ Canvas.drawn c' = Canvas.drawn (fst s) ++ ops
    /\ length ops = Z.to_nat n
    /\ Forall (fun op =>
         (if (0 <? lineWidth)%float then isStroke op else isFill op) = true
         /\ Canvas.globalAlpha (paintedWith op)
            = alphaAfter (alpha color) (Canvas.globalAlpha (Canvas.state (fst s)))) ops.
Proof.
  intros Hn Hr Hfuel. unfold drawSegmentedDots.
  rewrite (forLoop_count _ _ n) by
    first [ done | lia | intros i Hi; apply ofZ_ltb; lia ].
  set (P := fun op : Canvas.Op =>
         (if (0 <? lineWidth)%float then isStroke op else isFill op) = true
         /\ Canvas.globalAlpha (paintedWith op)
            = alphaAfter (alpha color) (Canvas.globalAlpha (Canvas.state (fst s)))).
  set (I := fun (k : nat) (s' : Sketch G) =>
         snd s' = snd s
         /\ Canvas.state (fst s') = Canvas.state (fst s)
         /\ Canvas.saved (fst s') = Canvas.saved (fst s)
         /\ exists ops, Canvas.drawn (fst s') = Canvas.drawn (fst s) ++ ops
                        /\ length ops = k /\ Forall P ops).
  match goal with
  | |- context [forEach ?body ?counters s] =>
      assert (Hstep : forall i k s1, I k s1 ->
                exists s', body i s1 = Returns tt s' /\ I (S k) s');
      [| destruct (forEach_invariant I body Hstep counters 0%nat s)
           as (s' & Hrun & Hg & Hst & Hsv & ops & Hops & Hlen & Hall)]
  end.
  - intros i k s1 (Hg & Hst & Hsv & ops & Hops & Hlen & Hall). cbv zeta.
    destruct (translated_dot (0 <? lineWidth)%float
                (cos (Js.ofZ i / Js.ofZ n * PI * 2) * radius)%float
                (sin (Js.ofZ i / Js.ofZ n * PI * 2) * radius)%float
                dotRadius color lineWidth s1 Hr)
      as (c' & op & Hrun & Hst' & Hsv' & Hdrawn & Hkind & Halpha).
    exists (c', snd s1). split; [exact Hrun |].
    split; [exact Hg |]. split; [cbn [fst]; congruence |].
    split; [cbn [fst]; congruence |].
    exists (ops ++ [op]). cbn [fst]. rewrite Hdrawn, Hops, <- app_assoc.
    split; [done |]. split; [rewrite length_app; cbn [length]; lia |].
    apply Forall_app. split; [done |]. apply Forall_singleton.
    split; [done |]. by rewrite Halpha, Hst.
  - split; [done |]. split; [done |]. split; [done |].
    exists []. by rewrite app_nil_r.
  - destruct s' as [c' g']. cbn [fst snd] in *. subst g'.
    exists c', ops. rewrite Hrun. split; [done |].
    rewrite Nat.add_0_l, length_seqZ in Hlen.
    by replace (n - 0) with n in Hlen by lia.
Qed.

Lemma bind_rnd {A : Type} (f : G -> float * G) (k : float -> Run (Sketch G) A) s :
  bind (rnd f) k s = k (fst (f (snd s))) (fst s, snd (f (snd s))).
Proof. unfold bind, rnd. by destruct (f (snd s)). Qed.

(** X18 (drawSplash). [drawSplash] never throws, whatever numbers and
    colour it is given and whatever the generator returns: the radius of a
    dot is an absolute value. And when [200 * density] is a whole number [n] below 2^53 it
    returns (given fuel for [n] iterations) with the drawing state and the
    stack restored, [n] fills painted, and the generator advanced by [n]
    times the four draws of one dot. *)
Theorem drawSplash_dots (fuel : nat) maxRadius color density dotSizeFactor s :
  (forall e s', drawSplash validColor cos sin range gaussian fuel maxRadius color density
                  dotSizeFactor s <> Throws e s')
  /\ forall n : Z,
       0 <= n < 2 ^ 53 -> (200 * density)%float = Js.ofZ n -> (Z.to_nat n < fuel)%nat ->
       exists c' ops,
         drawSplash validColor cos sin range gaussian fuel maxRadius color density
           dotSizeFactor s
         = Returns tt (c', Nat.iter (Z.to_nat n)
                             (splashDraws range gaussian maxRadius dotSizeFactor) (snd s))
         /\ Canvas.state c' = Canvas.state (fst s)
         /\ Canvas.saved c' = Canvas.saved (fst s)
         /\ Canvas.drawn c' = Canvas.drawn (fst s) ++ ops
         /\ length ops = Z.to_nat n
         /\ Forall (fun op => isFill op = true) ops.
Proof.
  unfold drawSplash. cbv zeta.
  match goal with
  | |- context [forLoop _ _ ?body _] =>
      assert (Hstep : forall i s1, exists c' op,
                body i s1
                = Returns tt (c', splashDraws range gaussian maxRadius dotSizeFactor (snd s1))
                /\ Canvas.state c' = Canvas.state (fst s1)
                /\ Canvas.saved c' = Canvas.saved (fst s1)
                /\ Canvas.drawn c' = Canvas.drawn (fst s1) ++ [op]
                /\ isFill op = true)
  end.
  { intros i s1. rewrite !bind_rnd. cbn [fst snd].
    match goal with
    | |- context [Canvas.translate ?x ?y] =>
        match goal with
        | |- context [drawSingleDot _ ?r _] =>
            pose proof (translated_dot false x y r color 0%float) as Hdot
        end
    end.
    cbv iota in Hdot.
    match goal with
    | |- context [Returns tt (_, ?g)] =>
        destruct (Hdot (fst s1, g) (abs_not_negative _))
          as (c' & op & Hrun & Hst & Hsv & Hdrawn & Hkind & _)
    end.
    exists c', op. split; [exact Hrun |]. by repeat split. }
  split.
  - intros e s' Hthrow.
    pose proof (ensures_forLoop (S := Sketch G) (fun _ _ => True) (fun _ _ => False)
                  ltac:(done) ltac:(done) ltac:(done) fuel) as Hloop.
    match type of Hthrow with
    | forLoop _ ?guard ?body ?start _ = _ =>
        specialize (Hloop guard body); 
        assert (Hbody : forall i, ensures (fun _ _ : Sketch G => True) (fun _ _ => False)
                                    (body i));
        [| specialize (Hloop Hbody start s); by rewrite Hthrow in Hloop]
    end.
    intros i s1. by destruct (Hstep i s1) as (c' & op & -> & _).
  - intros n Hn Hdensity Hfuel. rewrite Hdensity.
    rewrite (forLoop_count _ _ n) by
      first [ done | lia | intros i Hi; apply ofZ_ltb; lia ].
    set (I := fun (k : nat) (s' : Sketch G) =>
           snd s' = Nat.iter k (splashDraws range gaussian maxRadius dotSizeFactor) (snd s)
           /\ Canvas.state (fst s') = Canvas.state (fst s)
           /\ Canvas.saved (fst s') = Canvas.saved (fst s)
           /\ exists ops, Canvas.drawn (fst s') = Canvas.drawn (fst s) ++ ops
                          /\ length ops = k /\ Forall (fun op => isFill op = true) ops).
    match goal with
    | |- context [forEach ?body ?counters s] =>
        assert (Hinv : forall i k s1, I k s1 ->
                  exists s', body i s1 = Returns tt s' /\ I (S k) s');
        [| destruct (forEach_invariant I body Hinv counters 0%nat s)
             as (s' & Hrun & Hg & Hst & Hsv & ops & Hops & Hlen & Hall)]
    end.
    + intros i k s1 (Hg & Hst & Hsv & ops & Hops & Hlen & Hall).
      destruct (Hstep i s1) as (c' & op & Hrun & Hst' & Hsv' & Hdrawn & Hkind).
      eexists. split; [exact Hrun |]. unfold I. cbn [fst snd].
      split; [by rewrite Hg |]. split; [congruence |]. split; [congruence |].
      exists (ops ++ [op]). rewrite Hdrawn, Hops, <- app_assoc.
      split; [done |]. split; [rewrite length_app; cbn [length]; lia |].
      apply Forall_app. split; [done |]. by apply Forall_singleton.
    + split; [done |]. split; [done |]. split; [done |].
      exists []. by rewrite app_nil_r.
    + destruct s' as [c' g']. cbn [fst snd] in *. subst g'.
      rewrite Nat.add_0_l, length_seqZ in Hlen, Hrun.
      replace (n - 0) with n in * by lia.
      exists c', ops. by rewrite Hrun.
Qed.

End CanvasLoops.

(** ** dots.js: the generator *)

Section Generator.

Context {G : Type}.
Implicit Types s : Sketch G.

Lemma drawsNothing_ret {A : Type} (a : A) : drawsNothing (ret (S := Sketch G) a).
Proof. by intros s. Qed.

Lemma drawsNothing_bind {A B : Type} (m : Run (Sketch G) A) (k : A -> Run (Sketch G) B) :
  drawsNothing m -> (forall a, drawsNothing (k a)) -> drawsNothing (bind m k).
Proof. apply ensures_bind; unfold sameGenerator; congruence. Qed.

Lemma drawsNothing_forLoop fuel guard (body : Z -> Run (Sketch G) unit) :
  (forall i, drawsNothing (body i)) -> forall i, drawsNothing (forLoop fuel guard body i).
Proof. apply ensures_forLoop; unfold sameGenerator; congruence. Qed.

Lemma drawsNothing_onContext (f : Canvas.t -> Canvas.t) :
  drawsNothing (onContext (Generator := G) f).
Proof. by intros s. Qed.

Lemma drawsNothing_onContextRun {A : Type} (m : Run Canvas.t A) :
  drawsNothing (onContextRun (Generator := G) m).
Proof. intros s. unfold onContextRun. by destruct (m (fst s)). Qed.

End Generator.

Ltac draws_nothing :=
  repeat first
    [ apply drawsNothing_onContext
    | apply drawsNothing_onContextRun
    | apply drawsNothing_ret
    | apply drawsNothing_bind; [| intros ?]
    | progress cbv zeta ].

Section NoDraws.

Variable validColor : string -> bool.
Variables cos sin : float -> float.
Context {G : Type}.
Variable range : float -> float -> G -> float * G.

Lemma drawSingleDot_drawsNothing radius color :
  drawsNothing (drawSingleDot (Generator := G) validColor radius color).
Proof. unfold drawSingleDot. draws_nothing. Qed.

Lemma drawOutline_drawsNothing radius color lineWidth :
  drawsNothing (drawOutline (Generator := G) validColor radius color lineWidth).
Proof. unfold drawOutline. draws_nothing. Qed.

(** X19 (dots.js). [drawSingleDot], [drawArc], [drawOutline],
    [drawCircumpunct], [drawConcentricDots] with [ordered] set,
    [drawSegmentedDots] and the two gradient functions leave the generator
    as it was, whether they return or throw. *)
Theorem no_random_numbers fuel radius color lineWidth a0 a1 cw inner numCircles dotRadius
    numSegments :
  drawsNothing (drawSingleDot (Generator := G) validColor radius color)
  /\ drawsNothing (drawArc (Generator := G) validColor radius color lineWidth a0 a1 cw)
  /\ drawsNothing (drawOutline (Generator := G) validColor radius color lineWidth)
  /\ drawsNothing (drawCircumpunct (Generator := G) validColor radius color inner lineWidth)
  /\ drawsNothing (drawConcentricDots validColor range fuel radius color numCircles
                     lineWidth true)
  /\ drawsNothing (drawSegmentedDots (Generator := G) validColor cos sin fuel radius color
                     dotRadius numSegments lineWidth)
  /\ drawsNothing (drawRadialGradient (Generator := G) validColor radius color)
  /\ drawsNothing (drawRadialVignette (Generator := G) validColor radius color).
Proof.
  repeat split.
  - apply drawSingleDot_drawsNothing.
  - unfold drawArc. draws_nothing.
  - apply drawOutline_drawsNothing.
  - unfold drawCircumpunct. apply drawsNothing_bind;
      [apply drawOutline_drawsNothing | intros _; apply drawSingleDot_drawsNothing].
  - unfold drawConcentricDots. apply drawsNothing_forLoop. intros i.
    apply drawsNothing_bind; [apply drawsNothing_ret |].
    intros r. apply drawOutline_drawsNothing.
  - unfold drawSegmentedDots. apply drawsNothing_forLoop. intros i. cbv zeta.
    apply drawsNothing_bind; [apply drawsNothing_onContext | intros _].
    apply drawsNothing_bind; [apply drawsNothing_onContext | intros _].
    apply drawsNothing_bind; [| intros _; apply drawsNothing_onContext].
    destruct (0 <? lineWidth)%float;
      [apply drawOutline_drawsNothing | apply drawSingleDot_drawsNothing].
  - unfold drawRadialGradient. draws_nothing.
  - unfold drawRadialVignette. draws_nothing.
Qed.

End NoDraws.

(** ** addGrain2 *)

(** A number above zero divided by zero is [Infinity]. *)
Lemma positive_over_zero (x : float) :
  (0 <? x)%float = true -> (x / 0)%float = infinity.
Proof.
  intros Hx. apply Prim2SF_inj. rewrite div_spec.
  rewrite FloatAxioms.ltb_spec in Hx.
  change (Prim2SF 0) with (S754_zero false) in *.
  change (Prim2SF infinity) with (S754_infinity false).
  by destruct (Prim2SF x) as [[] | [] | | [] m e].
Qed.

(** The square of a zero of either sign is zero. *)
Lemma zero_squared (x : float) : (x =? 0)%float = true -> (x * x)%float = 0%float.
Proof.
  intros Hx. rewrite FloatAxioms.eqb_spec in Hx.
  change (Prim2SF 0) with (S754_zero false) in Hx.
  rewrite <- (SF2Prim_Prim2SF x).
  destruct (Prim2SF x) as [[] | [] | | [] m e]; try done.
  all: unfold SFeqb, SFcompare in Hx; destruct (_ ?= _)%Z; done.
Qed.

Section Grain2.

Variable validColor : string -> bool.
Context {G : Type}.
Variable range : float -> float -> G -> float * G.
Variable fractionToString : float -> string.
Implicit Types s : Sketch G.

Lemma kept_forLoop fuel guard (body : Z -> Run (Sketch G) unit) :
  (forall i, kept (body i)) -> forall i, kept (forLoop fuel guard body i).
Proof.
  apply ensures_forLoop; [apply sameStack_refl | apply sameStack_trans | apply sameStack_grown].
Qed.

Lemma addGrain2_balanced fuel width height densityArg grainSizeArg :
  balanced (addGrain2 validColor range fractionToString fuel width height densityArg
              grainSizeArg).
Proof.
  unfold addGrain2. cbv zeta. apply balanced_save.
  apply closes_bind; [apply kept_onContext; by intros c | intros _].
  apply closes_bind; [| intros _; apply closes_restore].
  apply kept_forLoop. intros i.
  repeat (apply kept_bind; [apply kept_rnd | intros ?]).
  apply kept_bind; [apply kept_onContext; by intros c | intros _].
  apply kept_fillRect.
Qed.

(** One grain. *)
Lemma grain_step width height grainSize (i : Z) s :
  exists c' ops,
    (x <- rnd (range 0 width) ;;
     y <- rnd (range 0 height) ;;
     alpha <- rnd (range 0.5 0.9) ;;
     onContext (Canvas.setFillStyle validColor
                  ("rgba(0, 0, 0, " +:+ Js.numberToString fractionToString alpha +:+ ")")) ;;;
     onContext (Canvas.fillRect x y grainSize grainSize)) s
    = Returns tt (c', grainDraws range width height (snd s))
    /\ Canvas.saved c' = Canvas.saved (fst s)
    /\ Canvas.globalCompositeOperation (Canvas.state c')
       = Canvas.globalCompositeOperation (Canvas.state (fst s))
    /\ Canvas.drawn c' = Canvas.drawn (fst s) ++ ops
    /\ (length ops <= 1)%nat
    /\ Forall (isGrain grainSize
                 (Canvas.globalCompositeOperation (Canvas.state (fst s)))) ops.
Proof.
  rewrite !bind_rnd. unfold bind, onContext. cbn [fst snd].
  unfold Canvas.fillRect.
  set (c := Canvas.setFillStyle _ _ _).
  assert (Hop : Canvas.globalCompositeOperation (Canvas.state c)
                = Canvas.globalCompositeOperation (Canvas.state (fst s))).
  { unfold c. cbn. by destruct (validColor _). }
  destruct (negb _); [| destruct (_ || _)].
  - exists c, []. rewrite app_nil_r. repeat split; try done. cbn; lia.
  - exists c, []. rewrite app_nil_r. repeat split; try done. cbn; lia.
  - eexists _, [_]. split; [reflexivity |]. cbn [Canvas.saved Canvas.state Canvas.drawn].
    repeat split; try done. apply Forall_singleton. by eexists _, _, _.
Qed.

Lemma grain_loop_returns fuel guard width height grainSize (start : Z) s e s' :
  forLoop fuel guard
    (fun _ : Z =>
       x <- rnd (range 0 width) ;;
       y <- rnd (range 0 height) ;;
       alpha <- rnd (range 0.5 0.9) ;;
       onContext (Canvas.setFillStyle validColor
                    ("rgba(0, 0, 0, " +:+ Js.numberToString fractionToString alpha +:+ ")")) ;;;
       onContext (Canvas.fillRect x y grainSize grainSize)) start s
  <> Throws e s'.
Proof.
  intros Hthrow.
  pose proof (ensures_forLoop (S := Sketch G) (fun _ _ => True) (fun _ _ => False)
                ltac:(done) ltac:(done) ltac:(done) fuel) as Hloop.
  match type of Hthrow with
  | forLoop _ _ ?body _ _ = _ =>
      specialize (Hloop guard body);
      assert (Hbody : forall i, ensures (fun _ _ : Sketch G => True) (fun _ _ => False)
                                  (body i));
      [| specialize (Hloop Hbody start s); by rewrite Hthrow in Hloop]
  end.
  intros i s1. by destruct (grain_step width height grainSize i s1) as (c' & ops & -> & _).
Qed.

(** X20 (addGrain2). [addGrain2] never throws, and when it returns the
    drawing state (the composite operation and the fill style included) and
    the stack are the caller's. *)
Theorem addGrain2_restores fuel width height densityArg grainSizeArg s :
  match addGrain2 validColor range fractionToString fuel width height densityArg
          grainSizeArg s with
  | Returns _ s' => sameDrawingState s s'
  | Throws _ _ => False
  | OutOfFuel => True
  end.
Proof.
  pose proof (addGrain2_balanced fuel width height densityArg grainSizeArg s) as Hb.
  destruct (addGrain2 _ _ _ _ _ _ _ _ s) as [[] s' | e s' |] eqn:Hrun; [done | | done].
  unfold addGrain2, bind in Hrun. cbv zeta in Hrun. unfold onContext at 1 2 in Hrun.
  cbn [fst snd] in Hrun.
  match type of Hrun with
  | match ?loop with _ => _ end = _ => destruct loop as [[] s1 | e1 s1 |] eqn:Hloop
  end; [done | | done].
  by apply grain_loop_returns in Hloop.
Qed.

(** X21 (addGrain2). When the amount, the floor of [width * height * density
    / grainSize^2], is a whole number [n] below 2^53, the call returns
    (given fuel for [n] iterations) with the generator advanced by [n] times
    the three draws of a grain, and has painted at most [n] operations, each
    a rectangle of side [grainSize] painted with the composite operation
    "multiply". *)
Theorem addGrain2_grains (fuel : nat) width height densityArg grainSizeArg (n : Z) s :
  0 <= n < 2 ^ 53 ->
  grainAmount width height (default 0.25%float densityArg) (default 1%float grainSizeArg)
  = Js.ofZ n ->
  (Z.to_nat n < fuel)%nat ->
  exists c' ops,
    addGrain2 validColor range fractionToString fuel width height densityArg grainSizeArg s
    = Returns tt (c', Nat.iter (Z.to_nat n) (grainDraws range width height) (snd s))
    /\ Canvas.state c' = Canvas.state (fst s)
    /\ Canvas.saved c' = Canvas.saved (fst s)
    /\ Canvas.drawn c' = Canvas.drawn (fst s) ++ ops
    /\ (length ops <= Z.to_nat n)%nat
    /\ Forall (isGrain (default 1%float grainSizeArg) "multiply") ops.
Proof.
  intros Hn Hamount Hfuel. unfold addGrain2. cbv zeta.
  unfold grainAmount in Hamount. rewrite Hamount.
  unfold bind at 1 2. unfold onContext at 1 2. cbn [fst snd].
  set (c0 := Canvas.setGlobalCompositeOperation "multiply" (Canvas.save (fst s))).
  assert (Hop0 : Canvas.globalCompositeOperation (Canvas.state c0) = "multiply")
    by reflexivity.
  assert (Hsv0 : Canvas.saved c0 = Canvas.state (fst s) :: Canvas.saved (fst s))
    by reflexivity.
  assert (Hdr0 : Canvas.drawn c0 = Canvas.drawn (fst s)) by reflexivity.
  clearbody c0. unfold bind at 1.
  rewrite (forLoop_count _ _ n) by
    first [ done | lia | intros i Hi; apply ofZ_ltb; lia ].
  set (I := fun (k : nat) (s' : Sketch G) =>
         snd s' = Nat.iter k (grainDraws range width height) (snd s)
         /\ Canvas.saved (fst s') = Canvas.state (fst s) :: Canvas.saved (fst s)
         /\ Canvas.globalCompositeOperation (Canvas.state (fst s')) = "multiply"
         /\ exists ops, Canvas.drawn (fst s') = Canvas.drawn (fst s) ++ ops
                        /\ (length ops <= k)%nat
                        /\ Forall (isGrain (default 1%float grainSizeArg) "multiply") ops).
  match goal with
  | |- context [forEach ?body ?counters ?s0] =>
      assert (Hinv : forall i k s1, I k s1 ->
                exists s', body i s1 = Returns tt s' /\ I (S k) s');
      [| destruct (forEach_invariant I body Hinv counters 0%nat s0)
           as (s' & Hrun & Hg & Hsv & Hop & ops & Hops & Hlen & Hall)]
  end.
  - intros i k s1 (Hg & Hsv & Hop & ops & Hops & Hlen & Hall).
    destruct (grain_step width height (default 1%float grainSizeArg) i s1)
      as (c' & new & Hrun & Hsv' & Hop' & Hdrawn & Hlen' & Hall').
    eexists. split; [exact Hrun |]. unfold I. cbn [fst snd].
    split; [by rewrite Hg |]. split; [congruence |]. split; [congruence |].
    exists (ops ++ new). rewrite Hdrawn, Hops, <- app_assoc.
    split; [done |]. split; [rewrite length_app; lia |].
    apply Forall_app. split; [done |]. by rewrite Hop in Hall'.
  - unfold I. cbn [fst snd]. split; [done |]. split; [done |]. split; [done |].
    exists []. rewrite app_nil_r. split; [done |]. split; [cbn; lia | done].
  - rewrite Hrun. destruct s' as [c' g']. cbn [fst snd] in *. subst g'.
    rewrite Nat.add_0_l, length_seqZ in Hlen |- *.
    replace (n - 0) with n in * by lia.
    unfold onContext, Canvas.restore. cbn [fst snd]. rewrite Hsv.
    eexists _, ops. split; [reflexivity |]. cbn [Canvas.state Canvas.saved Canvas.drawn].
    by repeat split.
Qed.

(** X22 (addGrain2). With a grain size of zero and [width * height *
    density] above zero the amount is [Infinity] and the loop never ends:
    whatever the fuel, the run is out of it. *)
Theorem addGrain2_never_ends (fuel : nat) width height densityArg grainSize s :
  (0 <? width * height * default 0.25 densityArg)%float = true ->
  (grainSize =? 0)%float = true ->
  addGrain2 validColor range fractionToString fuel width height densityArg (Some grainSize) s
  = OutOfFuel.
Proof.
  intros Harea Hsize. unfold addGrain2. cbv zeta. cbn [default from_option id].
  rewrite (zero_squared grainSize Hsize), (positive_over_zero _ Harea).
  change (Js.mathFloor infinity) with infinity.
  unfold bind at 1 2. unfold onContext at 1 2. cbn [fst snd]. unfold bind.
  rewrite forLoop_endless; [done | | | lia].
  - intros i Hi. by apply ofZ_lt_infinity.
  - intros i s1.
    destruct (grain_step width height grainSize i s1) as (c' & ops & Hrun & _).
    eexists. exact Hrun.
Qed.

(** X23 (addGrain2). When the amount is not above zero (zero, negative, or
    NaN as for a NaN width), the call returns at once and changes nothing:
    the context, what is drawn and the generator are as before. *)
Theorem addGrain2_no_grain (fuel : nat) width height densityArg grainSizeArg s :
  (0 <? grainAmount width height (default 0.25 densityArg) (default 1 grainSizeArg))%float
  = false ->
  (0 < fuel)%nat ->
  addGrain2 validColor range fractionToString fuel width height densityArg grainSizeArg s
  = Returns tt s.
Proof.
  intros Hamount Hfuel. unfold addGrain2. cbv zeta. fold (grainAmount width height
    (default 0.25%float densityArg) (default 1%float grainSizeArg)).
  destruct fuel as [| fuel]; [lia |].
  unfold bind, onContext. cbn [forLoop fst snd].
  change (Js.ofZ 0) with 0%float. rewrite Hamount.
  by destruct s as [[st sv p d] g].
Qed.

End Grain2.

(** ** printFooter *)

Lemma textsOf_app (l1 l2 : list Canvas.Op) : textsOf (l1 ++ l2) = textsOf l1 ++ textsOf l2.
Proof. apply omap_app. Qed.

Lemma texts_fillRect x y w h c :
  textsOf (Canvas.drawn (Canvas.fillRect x y w h c)) = textsOf (Canvas.drawn c).
Proof.
  unfold Canvas.fillRect. destruct (negb _); [done |]. destruct (_ || _); [done |].
  cbn [Canvas.drawn]. rewrite textsOf_app. cbn. by rewrite app_nil_r.
Qed.

Lemma texts_fillText text x y c :
  PrimFloat.is_finite x = true -> PrimFloat.is_finite y = true ->
  textsOf (Canvas.drawn (Canvas.fillText text x y c)) = textsOf (Canvas.drawn c) ++ [text].
Proof.
  intros Hx Hy. unfold Canvas.fillText. rewrite Hx, Hy. cbn [andb negb Canvas.drawn].
  by rewrite textsOf_app.
Qed.

Lemma saved_fillRect x y w h c :
  Canvas.saved (Canvas.fillRect x y w h c) = Canvas.saved c.
Proof.
  unfold Canvas.fillRect. destruct (negb _); [done |]. by destruct (_ || _).
Qed.

Lemma saved_fillText text x y c :
  Canvas.saved (Canvas.fillText text x y c) = Canvas.saved c.
Proof. unfold Canvas.fillText. by destruct (negb _). Qed.

Lemma saved_withState f c : Canvas.saved (Canvas.withState f c) = Canvas.saved c.
Proof. reflexivity. Qed.

Lemma drawn_withState f c : Canvas.drawn (Canvas.withState f c) = Canvas.drawn c.
Proof. reflexivity. Qed.

Ltac canvas :=
  repeat first
    [ rewrite saved_fillText
    | rewrite saved_fillRect
    | rewrite saved_withState
    | rewrite drawn_withState
    | rewrite texts_fillRect
    | progress unfold Canvas.setFillStyle, Canvas.translate, Canvas.setFont,
        Canvas.setGlobalCompositeOperation ].

Section Footer.

Variable validColor : string -> bool.
Variable validFont : string -> bool.
Context {G : Type}.
Variable fractionToString : float -> string.
Implicit Types s : Sketch G.

Lemma drawLine_run fontSize boxHeight padding boxWidth text colorObj s :
  exists c',
    drawLine validColor fontSize boxHeight padding boxWidth text colorObj s
    = Returns tt (c', snd s)
    /\ Canvas.saved c' = Canvas.saved (fst s)
    /\ (PrimFloat.is_finite (match colorObj with
                             | Some _ => padding * 2 + fontSize
                             | None => padding
                             end) = true ->
        PrimFloat.is_finite (padding + fontSize * 0.8) = true ->
        textsOf (Canvas.drawn c') = textsOf (Canvas.drawn (fst s)) ++ [text]).
Proof.
  unfold drawLine. destruct colorObj as [c |]; unfold bind, onContext, ret; cbn [fst snd];
    eexists; (split; [reflexivity |]); split.
  - by canvas.
  - intros Hx Hy. rewrite texts_fillText by done. by canvas.
  - by canvas.
  - intros Hx Hy. rewrite texts_fillText by done. by canvas.
Qed.

Lemma writes_ret (finite : Prop) : writes (G := G) finite [] (ret tt).
Proof. intros s. exists (fst s). destruct s. by rewrite app_nil_r. Qed.

Lemma writes_bind (finite : Prop) lines1 lines2 (m1 m2 : Run (Sketch G) unit) :
  writes finite lines1 m1 -> writes finite lines2 m2 ->
  writes finite (lines1 ++ lines2) (m1 ;;; m2).
Proof.
  intros H1 H2 s. unfold bind.
  destruct (H1 s) as (c1 & -> & Hsv1 & Ht1).
  destruct (H2 (c1, snd s)) as (c2 & -> & Hsv2 & Ht2). cbn [fst snd] in *.
  exists c2. split; [done |]. split; [congruence |].
  intros Hf. by rewrite Ht2, Ht1, app_assoc.
Qed.

Lemma writes_forEach {A : Type} (finite : Prop) (line : A -> string)
    (f : A -> Run (Sketch G) unit) (l : list A) :
  (forall x, writes finite [line x] (f x)) -> writes finite (map line l) (forEach f l).
Proof.
  intros Hf. induction l as [| x l IH]; cbn [forEach map]; [apply writes_ret |].
  apply (writes_bind finite [line x]); [apply Hf | apply IH].
Qed.

Lemma writes_then (finite : Prop) lines (m : Run (Sketch G) unit)
    (k : unit -> Run (Sketch G) unit) s :
  writes finite lines m ->
  exists c',
    bind m k s = k tt (c', snd s)
    /\ Canvas.saved c' = Canvas.saved (fst s)
    /\ (finite -> textsOf (Canvas.drawn c') = textsOf (Canvas.drawn (fst s)) ++ lines).
Proof.
  intros H. destruct (H s) as (c' & Hrun & Hsv & Ht). exists c'.
  unfold bind. by rewrite Hrun.
Qed.

(** X24 (printFooter). With dimensions given, [printFooter] returns with the
    drawing state and the stack restored and the generator untouched. When
    the text coordinates are finite, the texts it paints are, in this order:
    the dimensions line, "Color Seed: ..." if [seeds.color] is truthy,
    "Shape Seed: ..." if [seeds.shape] is truthy, then one line for each
    colour of the list, the last colour first. A number among the
    dimensions, the seeds and the alphas is printed as [Js.numberToString]
    prints it: by its digits when it is an integer of magnitude below
    2^53, and as the platform prints it otherwise. *)
Theorem printFooter_lines width height seeds (d0 d1 : Js.value) colorList s :
  let fontSize := (mathMin width height * 0.015)%float in
  let padding := (fontSize * 0.5)%float in
  exists c',
    printFooter validColor validFont fractionToString width height seeds (Some (d0, d1))
      colorList s
    = Returns tt (c', snd s)
    /\ Canvas.state c' = Canvas.state (fst s)
    /\ Canvas.saved c' = Canvas.saved (fst s)
    /\ (PrimFloat.is_finite padding = true ->
        PrimFloat.is_finite (padding * 2 + fontSize) = true ->
        PrimFloat.is_finite (padding + fontSize * 0.8) = true ->
        textsOf (Canvas.drawn c')
        = textsOf (Canvas.drawn (fst s))
          ++ footerLines fractionToString seeds d0 d1 colorList).
Proof.
  intros fontSize padding.
  set (finite := PrimFloat.is_finite padding = true
                 /\ PrimFloat.is_finite (padding * 2 + fontSize) = true
                 /\ PrimFloat.is_finite (padding + fontSize * 0.8) = true).
  assert (Hline : forall text colorObj,
            writes (G := G) finite [text]
              (drawLine validColor fontSize (fontSize * 1.5) padding (width * 0.4) text
                 colorObj)).
  { intros text colorObj s1.
    destruct (drawLine_run fontSize (fontSize * 1.5)%float padding (width * 0.4)%float
                text colorObj s1) as (c' & Hrun & Hsv & Htexts).
    exists c'. split; [done |]. split; [done |].
    intros (Hp & Hc & Hy). apply Htexts; [by destruct colorObj | done]. }
  set (colorLine := fun sd : Seeds.t =>
         if Js.toBoolean (Seeds.color sd)
         then ["Color Seed: " +:+ Js.toString fractionToString (Seeds.color sd)] else []).
  set (shapeLine := fun sd : Seeds.t =>
         if Js.toBoolean (Seeds.shape sd)
         then ["Shape Seed: " +:+ Js.toString fractionToString (Seeds.shape sd)] else []).
  unfold printFooter. cbv zeta. fold fontSize. fold padding.
  unfold bind at 1 2 3 4 5. unfold onContext at 1 2 3 4. unfold ret at 1. cbn [fst snd].
  set (c0 := Canvas.translate _ _ _).
  assert (Hsv0 : Canvas.saved c0 = Canvas.state (fst s) :: Canvas.saved (fst s))
    by reflexivity.
  assert (Hdr0 : Canvas.drawn c0 = Canvas.drawn (fst s)) by reflexivity.
  clearbody c0.
  match goal with
  | |- context [bind ?m ?k ?s0] =>
      destruct (writes_then finite _ m k s0 (Hline _ None)) as (c1 & -> & Hsv1 & Ht1)
  end.
  match goal with
  | |- context [bind ?m ?k ?s0] =>
      destruct (writes_then finite (from_option colorLine [] seeds) m k s0)
        as (c2 & -> & Hsv2 & Ht2)
  end.
  { destruct seeds as [sd |]; [| apply writes_ret]. cbn [from_option]. unfold colorLine.
    destruct (Js.toBoolean (Seeds.color sd)); [apply Hline | apply writes_ret]. }
  match goal with
  | |- context [bind ?m ?k ?s0] =>
      destruct (writes_then finite (from_option shapeLine [] seeds) m k s0)
        as (c3 & -> & Hsv3 & Ht3)
  end.
  { destruct seeds as [sd |]; [| apply writes_ret]. cbn [from_option]. unfold shapeLine.
    destruct (Js.toBoolean (Seeds.shape sd)); [apply Hline | apply writes_ret]. }
  match goal with
  | |- context [bind ?m ?k ?s0] =>
      destruct (writes_then finite
                  (map (fun color =>
                          shown (name color) +:+ " (" +:+ shown (hex color) +:+ ", α="
                          +:+ shownNumber fractionToString (alpha color) +:+ ")")
                     (rev colorList)) m k s0)
        as (c4 & -> & Hsv4 & Ht4)
  end.
  { apply (writes_forEach finite
             (fun color => shown (name color) +:+ " (" +:+ shown (hex color) +:+ ", α="
                           +:+ shownNumber fractionToString (alpha color) +:+ ")")).
    intros color. apply Hline. }
  cbn [fst snd] in *.
  assert (Hsv : Canvas.saved c4 = Canvas.state (fst s) :: Canvas.saved (fst s))
    by congruence.
  unfold onContext, Canvas.restore. cbn [fst snd]. rewrite Hsv.
  eexists. split; [reflexivity |]. cbn [Canvas.state Canvas.saved Canvas.drawn].
  split; [done |]. split; [done |].
  intros Hp Hc Hy. assert (Hf : finite) by done.
  rewrite (Ht4 Hf), (Ht3 Hf), (Ht2 Hf), (Ht1 Hf), Hdr0. unfold footerLines.
  rewrite <- !app_assoc. do 2 f_equal. destruct seeds as [sd |]; cbn [from_option].
  - unfold colorLine, shapeLine. by rewrite <- app_assoc.
  - done.
Qed.

(** X25 (printFooter). When [settings.dimensions] is [undefined] the call
    throws TypeError after its [save]: nothing is painted and the stack is
    one deeper. *)
Theorem printFooter_without_dimensions width height seeds colorList s :
  exists c',
    printFooter validColor validFont fractionToString width height seeds None colorList s
    = Throws TypeError (c', snd s)
    /\ Canvas.saved c' = Canvas.state (fst s) :: Canvas.saved (fst s)
    /\ Canvas.drawn c' = Canvas.drawn (fst s).
Proof.
  unfold printFooter. cbv zeta. unfold bind, onContext. cbn [fst snd].
  eexists. split; [reflexivity |]. by split.
Qed.

End Footer.

(** ** myColors, then drawSingleDot *)

Section ColourToDot.

Context {Generator Rgb : Type}.
Variable pick : list Riso.entry -> Generator -> option Riso.entry * Generator.
Variable risoColors : list Riso.entry.
Variable toLowerCase : string -> string.
Variable parse : string -> option Rgb.
Variable style : Rgb -> string.

Local Abbreviation colors := (myColors pick risoColors toLowerCase parse style).

(** X26 (myColors, then drawSingleDot). The colour [myColors] returns for an
    alpha of zero (or NaN) carries that alpha, whatever the name, and
    [drawSingleDot] paints it with a [globalAlpha] of 1. *)
Theorem transparent_colour_painted_opaque {G : Type} (validColor : string -> bool)
    colorNameArg (a : float) g console radius (s : Sketch G) :
  PrimFloat.is_nan a = true \/ (a =? 0)%float = true ->
  (radius <? 0)%float = false ->
  let color := fst (fst (colors colorNameArg (Some a) g console)) in
  alpha color = Some a
  /\ exists p st,
       paintedBy (drawSingleDot validColor radius color) s = [Canvas.Fill p st]
       /\ Canvas.globalAlpha st = 1%float.
Proof.
  intros Ha Hr color.
  assert (Halpha : alpha color = Some a)
    by apply (myColors_alpha pick risoColors toLowerCase parse style).
  split; [done |].
  unfold paintedBy. rewrite drawSingleDot_run. cbv zeta. rewrite Hr.
  pose proof (alphaAfter_cases (alpha color) (Canvas.globalAlpha (Canvas.state (fst s))))
    as Hcases.
  rewrite Halpha in Hcases. destruct Hcases as (Hfalsy & _). specialize (Hfalsy Ha).
  rewrite <- Halpha, <- (dotReady_alpha validColor color (fst s)) in Hfalsy.
  destruct (negb (PrimFloat.is_finite radius)); cbn [fst];
    rewrite drawn_restore, drawn_fill; cbn [Canvas.drawn];
    rewrite ?drawn_dotReady, drop_added; by do 2 eexists.
Qed.

End ColourToDot.

(** ** Scenarios for the further properties *)

Lemma parallel_keeps_equal_channels_witness :
  let out :=
    grainPixels (runGrain (1%float, 1%float) (Some "parallel") [7; 90; 90; 3]
                   [12.5%float]) in
  out !! 1%nat = out !! 2%nat.
Proof.
  apply (parallel_keeps_equal_channels bitmapGet bitmapPut scripted
           [7; 90; 90; 3] (1%float, 1%float) (mkWorld [12.5%float] tt) 1 2);
    [reflexivity | cbn; lia | cbn; lia | reflexivity].
Defined.

Lemma addGrain_is_pixelwise_witness :
  grainPixels (runGrain (1%float, 1%float) (Some "red") [7; 90; 90; 3] [60%float])
    !! 1%nat
  = grainPixels
      (runGrain (2%float, 1%float) (Some "red") [200; 90; 0; 0; 1; 2; 3; 4]
         [60%float]) !! 1%nat.
Proof.
  apply (addGrain_is_pixelwise bitmapGet bitmapPut scripted (Some "red")
           [7; 90; 90; 3] [200; 90; 0; 0; 1; 2; 3; 4]
           (1%float, 1%float) (2%float, 1%float)
           (mkWorld [60%float] tt) (mkWorld [60%float] tt) 1);
    reflexivity.
Defined.

Lemma initiateSeed_round_trip_witness :
  let res := initiateSeed halves (fun _ => "") Js.Undefined
               (mkWorld ([] : list float) 0%nat) in
  initiateSeed halves (fun _ => "") (Js.String (fst res)) (snd res) = res.
Proof.
  intros res.
  assert (H : forall s, (0 <=? fst (halves s))%float = true
                        /\ (fst (halves s) <? 1)%float = true)
    by (intros s; split; reflexivity).
  destruct (initiateSeed_round_trip halves (fun _ => "") H Js.Undefined
              (mkWorld ([] : list float) 0%nat)) as [Hback Hne].
  apply Hback. apply Hne. reflexivity.
Defined.

Lemma negative_radius_throws_witness :
  exists c',
    drawSingleDot cssLike (-1) bright (sketch []) = Throws IndexSizeError (c', [])
    /\ Canvas.saved c' = [Canvas.state blank].
Proof.
  destruct (negative_radius_throws cssLike (-1) bright 2 0 1 None (sketch [])
              eq_refl eq_refl eq_refl eq_refl) as ((c' & Hrun & Hsaved & _) & _).
  exists c'. split; [exact Hrun | exact Hsaved].
Defined.

Lemma painted_alpha_witness :
  exists p st,
    paintedBy (drawSingleDot cssLike 3 transparentRed) (sketch []) = [Canvas.Fill p st]
    /\ Canvas.globalAlpha st = 1%float.
Proof.
  destruct (painted_alpha cssLike 3 transparentRed 2 (sketch []) eq_refl)
    as (p1 & st1 & p2 & st2 & Hdot & _ & _ & Hzero & _).
  exists p1, st1. split; [exact Hdot |]. apply Hzero. right. reflexivity.
Defined.

Lemma drawArc_direction_witness :
  exists arc st,
    paintedBy (drawArc cssLike 3 bright 2 0 1 (Some true)) (sketch []) = [Canvas.Stroke [arc] st]
    /\ Canvas.counterclockwise arc = true.
Proof.
  destruct (drawArc_direction cssLike 3 bright 2 0 1 (Some true) (sketch [])
              eq_refl eq_refl eq_refl eq_refl) as (arc & st & Hrun & -> & _).
  eexists _, st. split; [exact Hrun | reflexivity].
Defined.

Lemma non_finite_radius_witness :
  (exists c' st,
     drawSingleDot cssLike nan bright (sketch []) = Returns tt (c', [])
     /\ paintedBy (drawSingleDot cssLike nan bright) (sketch []) = [Canvas.Fill [] st])
  /\ exists c', drawRadialGradient cssLike nan bright (sketch []) = Throws TypeError (c', []).
Proof.
  destruct (non_finite_radius cssLike nan bright (sketch []) eq_refl)
    as ((c1 & st & Hdot & Hpainted & _) & (c2 & Hgradient & _)).
  split; [exists c1, st; split; [exact Hdot | exact Hpainted] | exists c2; exact Hgradient].
Defined.

Lemma circumpunct_half_drawn_witness :
  exists c' p st,
    drawCircumpunct cssLike 5 bright (-1) 2 (sketch []) = Throws IndexSizeError (c', [])
    /\ paintedBy (drawCircumpunct cssLike 5 bright (-1) 2) (sketch []) = [Canvas.Stroke p st].
Proof.
  destruct (circumpunct_half_drawn cssLike 5 bright (-1) 2 (sketch [])
              eq_refl eq_refl eq_refl) as (c' & p & st & Hrun & Hpainted & _).
  exists c', p, st. split; [exact Hrun | exact Hpainted].
Defined.

Lemma gradient_stops_witness :
  exists p st,
    paintedBy (drawRadialGradient cssLike 5 bright) (sketch []) = [Canvas.Fill p st]
    /\ Canvas.fillStyle st
       = Canvas.Grad (Canvas.mkGradient 0 0 0 0 0 5
                        [(0%float, "#f15060"); (1%float, "rgba(255, 255, 255, 0)")]).
Proof.
  destruct (gradient_stops cssLike 5 bright (sketch []) eq_refl eq_refl eq_refl eq_refl)
    as (st1 & st2 & Hgradient & _ & Hstyle & _).
  eexists _, st1. split; [exact Hgradient | exact Hstyle].
Defined.

Lemma colour_that_does_not_parse_witness :
  (exists c', drawRadialGradient cssLike 5 unknown (sketch []) = Throws SyntaxError (c', []))
  /\ exists p st,
       paintedBy (drawSingleDot cssLike 5 unknown) (sketch []) = [Canvas.Fill p st]
       /\ Canvas.fillStyle st = Canvas.Css "#000000".
Proof.
  destruct (colour_that_does_not_parse cssLike 5 unknown (sketch [])
              eq_refl eq_refl eq_refl)
    as ((c' & Hgradient & _) & _ & (p & st & Hdot & Hstyle)).
  split; [exists c'; exact Hgradient | exists p, st; split; [exact Hdot | exact Hstyle]].
Defined.

Lemma segmented_dots_count_witness :
  exists c' ops,
    drawSegmentedDots cssLike cosZero sinZero 4 10 bright 1 (Js.ofZ 3) 0 (sketch [])
    = Returns tt (c', [])
    /\ Canvas.drawn c' = ops
    /\ length ops = 3%nat
    /\ Forall (fun op => isFill op = true) ops.
Proof.
  destruct (segmented_dots_count cssLike cosZero sinZero 4 10 bright 1 3 0 (sketch [])
              ltac:(lia) eq_refl ltac:(cbn; lia))
    as (c' & ops & Hrun & _ & _ & Hdrawn & Hlen & Hall).
  exists c', ops. split; [exact Hrun |]. split; [exact Hdrawn |].
  split; [exact Hlen |].
  eapply Forall_impl; [exact Hall |]. intros op [Hkind _]. exact Hkind.
Defined.

Lemma addGrain2_grains_witness :
  exists c' ops,
    addGrain2 cssLike scripted (fun _ => "0.7") 5 2 2 (Some 0.5%float) None
      (sketch [1; 1; 0.7; 0; 0; 0.7; 7; 7; 0.7])%float
    = Returns tt (c', [7; 7; 0.7])%float
    /\ Canvas.drawn c' = ops
    /\ Forall (isGrain 1 "multiply") ops.
Proof.
  destruct (addGrain2_grains cssLike scripted (fun _ => "0.7") 5 2 2 (Some 0.5%float) None 2
              (sketch [1; 1; 0.7; 0; 0; 0.7; 7; 7; 0.7])%float
              ltac:(lia) eq_refl ltac:(cbn; lia))
    as (c' & ops & Hrun & _ & _ & Hdrawn & _ & Hall).
  exists c', ops. split; [exact Hrun |]. split; [exact Hdrawn | exact Hall].
Defined.

Lemma addGrain2_never_ends_witness :
  addGrain2 cssLike scripted (fun _ => "0.7") 1000 10 10 None (Some 0%float) (sketch [])
  = OutOfFuel.
Proof.
  exact (addGrain2_never_ends cssLike scripted (fun _ => "0.7") 1000 10 10 None 0
           (sketch []) eq_refl eq_refl).
Defined.

Lemma addGrain2_no_grain_witness :
  addGrain2 cssLike scripted (fun _ => "0.7") 1 nan 10 None None (sketch [0.5%float])
  = Returns tt (sketch [0.5%float]).
Proof.
  exact (addGrain2_no_grain cssLike scripted (fun _ => "0.7") 1 nan 10 None None
           (sketch [0.5%float]) eq_refl ltac:(lia)).
Defined.

Lemma riso_name_wins_witness :
  myColors firstPick demoRiso lowerAscii demoParse (fun _ => "#ff0000") (Some "RED") None
    0%nat []
  = (mkColor (Some "Red") (Some "#ff665e") (Some 1%float), 0%nat, []).
Proof.
  apply (riso_name_wins firstPick demoRiso lowerAscii demoParse (fun _ => "#ff0000")
           "RED" None 0%nat [] [Riso.mkEntry "Black" "#000000"]
           (Riso.mkEntry "Red" "#ff665e") [Riso.mkEntry "red" "#111111"]).
  - discriminate.
  - reflexivity.
  - apply List.Forall_cons; [intros H; cbv in H; discriminate H | apply List.Forall_nil].
  - reflexivity.
Defined.

Lemma css_name_kept_witness :
  myColors firstPick demoRiso lowerAscii demoParse (fun _ => "#ff6347") (Some "tomato")
    (Some 0.5%float) 0%nat []
  = (mkColor (Some "tomato") (Some "#ff6347") (Some 0.5%float), 0%nat, []).
Proof.
  apply (css_name_kept firstPick demoRiso lowerAscii demoParse (fun _ => "#ff6347")
           "tomato" (Some 0.5%float) 0%nat [] tt).
  - discriminate.
  - repeat (apply List.Forall_cons; [intros H; cbv in H; discriminate H |]).
    apply List.Forall_nil.
  - reflexivity.
Defined.

Lemma unknown_name_falls_back_witness :
  fst (myColors firstPick demoRiso lowerAscii demoParse (fun _ => "#ff0000") (Some "zzz")
         None 0%nat [])
  = (mkColor (Some "Black") (Some "#000000") (Some 1%float), 1%nat).
Proof.
  destruct (unknown_name_falls_back firstPick demoRiso lowerAscii demoParse
              (fun _ => "#ff0000") "zzz" None 0%nat [])
    as [Hrun _].
  - discriminate.
  - repeat (apply List.Forall_cons; [intros H; cbv in H; discriminate H |]).
    apply List.Forall_nil.
  - reflexivity.
  - rewrite Hrun. reflexivity.
Defined.

Lemma transparent_colour_painted_opaque_witness :
  exists p st,
    paintedBy
      (drawSingleDot cssLike 3
         (fst (fst (myColors firstPick demoRiso lowerAscii demoParse (fun _ => "#ff0000")
                      (Some "red") (Some 0%float) 0%nat []))))
      (sketch [])
    = [Canvas.Fill p st]
    /\ Canvas.globalAlpha st = 1%float.
Proof.
  destruct (transparent_colour_painted_opaque firstPick demoRiso lowerAscii demoParse
              (fun _ => "#ff0000") cssLike (Some "red") 0 0%nat [] 3 (sketch [])
              (or_intror eq_refl) eq_refl) as (_ & Hpainted).
  exact Hpainted.
Defined.

Lemma drawSplash_dots_witness :
  exists c' ops,
    drawSplash cssLike cosZero sinZero scripted scripted 3 10 bright 0.01 1
      (sketch [0; 4; 0.25; -0.5; 1; 9; 1; 0.5; 77])%float
    = Returns tt (c', [77%float])
    /\ Canvas.drawn c' = ops
    /\ length ops = 2%nat.
Proof.
  destruct (drawSplash_dots cssLike cosZero sinZero scripted scripted 3 10 bright 0.01 1
              (sketch [0; 4; 0.25; -0.5; 1; 9; 1; 0.5; 77])%float) as [_ Hcount].
  destruct (Hcount 2 ltac:(lia) eq_refl ltac:(cbn; lia))
    as (c' & ops & Hrun & _ & _ & Hdrawn & Hlen & _).
  exists c', ops. split; [exact Hrun |]. split; [exact Hdrawn | exact Hlen].
Defined.

Lemma printFooter_lines_witness :
  exists c',
    printFooter cssLike (fun _ => true) (fun _ => "0.5") 1000 800
      (Some (Seeds.mk (Js.String "42") (Js.Number 0)))
      (Some (Js.Number 1000, Js.Number 800)) [transparentRed; bright] (sketch [])
    = Returns tt (c', [])
    /\ textsOf (Canvas.drawn c')
       = ["1000x800px"; "Color Seed: 42"; "Bright Red (#f15060, α=0.5)";
          "Bright Red (#f15060, α=0)"].
Proof.
  destruct (printFooter_lines cssLike (fun _ => true) (fun _ => "0.5") 1000 800
              (Some (Seeds.mk (Js.String "42") (Js.Number 0)))
              (Js.Number 1000) (Js.Number 800) [transparentRed; bright] (sketch []))
    as (c' & Hrun & _ & _ & Htexts).
  exists c'. split; [exact Hrun |].
  rewrite (Htexts eq_refl eq_refl eq_refl). reflexivity.
Defined.
